(** * marktplaats-scraper: the crawl, dedupe and recrawl logic

    A shallow embedding of [mpscraper/utils.py], [mpscraper/exceptions.py],
    [mpscraper/listing.py], [mpscraper/mpscraper.py], [MPDriver.get_soup] of
    [mpscraper/driver.py] and, of [mpscraper/__main__.py], [get_args] and
    the parts of [main] about the file, the recrawl and the crawl, with the
    properties of the specification that concern them.

    Conventions.
    - Python [int] is [Z]; [len] of a list is [Z.of_nat (length _)].
    - A Python [str] is a [string] with one [ascii] per character: the
      texts are those whose characters have a code point below 256.  The
      builtins [int] and [float] on a text that comes from the site or
      from the environment are parameters of the code that calls them.
    - Python [float] is IEEE 754 binary64, the kernel's [float].
    - Python [set] objects live in a heap of sets and are passed by
      reference, as in the source.
    - Code that can raise returns an [outcome]; loops the source does not
      bound ([while] with retry) take fuel and return [None] when it runs
      out.
    - The browser and the site are an oracle ([Site]) indexed by the number
      of page loads made so far, so that a retry may see another answer. *)

From Stdlib Require Import ZArith PrimFloat Uint63 Ascii String.
From stdpp Require Import gmap strings list pretty sets.

Open Scope string_scope.
Open Scope Z_scope.

(* ===================================================================== *)
(** ** listing.py *)
(* ===================================================================== *)

Record ListingDetails := {
  d_description : string;
  d_ad_type : string;
  d_types : list string;          (* set[str], in its iteration order *)
  d_services : list string;       (* set[str], in its iteration order *)
  d_price_type : string;
  d_price_cents : Z;
  d_view_count : Z;
  d_favorited_count : Z;
  d_listed_timestamp : string;
}.

Record Listing := {
  item_id : string;
  seller_id : string;
  parent_category_id : Z;
  child_category_id : Z;
  category_verticals : list string;
  ad_type : string;
  title : string;
  description : string;
  price_type : string;
  price_cents : Z;
  types : list string;
  services : list string;
  listing_url : string;
  image_urls : list string;
  city_name : string;
  country_code : string;
  listed_timestamp : string;
  crawled_timestamp : string;
  view_count : Z;
  favorited_count : Z;
}.

(* ===================================================================== *)
(** ** exceptions.py, with the selenium and builtin exceptions the code
       mentions *)
(* ===================================================================== *)

Inductive exn :=
| ListingsError (listings : list Listing)
| ListingsInterrupt (listings : list Listing)
| MPError
| CategoriesError
| ForbiddenError
| NotFoundError
| UnexpectedStatusCode (status_code : Z)
| ElementNotFound
| UnexpectedCategoryId (got exp : Z)
| ConfigNotFound
| EmptyDataFrameError
| TimeoutException
| WebDriverException (msg : option string)
| KeyboardInterrupt
| IndexError
| KeyError
| ValueError
| TypeError.

(** [isinstance(e, MPError)]: the class and its subclasses. *)
Definition isinstance_MPError (e : exn) : bool :=
  match e with
  | MPError | CategoriesError | ForbiddenError | NotFoundError => true
  | _ => false
  end.

(** [isinstance(e, Exception)]: everything but [KeyboardInterrupt], which
    derives from [BaseException]. *)
Definition isinstance_Exception (e : exn) : bool :=
  match e with
  | KeyboardInterrupt => false
  | _ => true
  end.

Definition isinstance_ElementNotFound (e : exn) : bool :=
  match e with
  | ElementNotFound => true
  | _ => false
  end.

Inductive outcome (A : Type) :=
| Ok (a : A)
| Raise (e : exn).
Arguments Ok {A} a.
Arguments Raise {A} e.

(* ===================================================================== *)
(** ** utils.py *)
(* ===================================================================== *)

Module Utils.

(** *** Values of the two Python types that reach [diff_hours] *)

(** A [str], or an aware UTC [datetime] given by its microseconds since the
    epoch (the resolution of Python's [datetime]). *)
Inductive pyval :=
| PyStr (s : string)
| PyDatetime (us : Z).

(** [datetime.timedelta], normalised as Python keeps it:
    [0 <= seconds < 86400] and [0 <= microseconds < 10**6]. *)
Record timedelta := {
  days : Z;
  seconds : Z;
  microseconds : Z;
}.

Definition US_PER_SECOND : Z := 1000000.
Definition US_PER_DAY : Z := 86400 * US_PER_SECOND.

Definition timedelta_of_us (us : Z) : timedelta :=
  {| days := us / US_PER_DAY;
     seconds := (us mod US_PER_DAY) / US_PER_SECOND;
     microseconds := us mod US_PER_SECOND |}.

(** [last - first].  Only [datetime - datetime] is defined for the two
    types at hand; [str] has no subtraction. *)
Definition py_sub (last first : pyval) : outcome timedelta :=
  match last, first with
  | PyDatetime l, PyDatetime f => Ok (timedelta_of_us (l - f))
  | _, _ => Raise TypeError
  end.

(** [float(z)] for an [int] within 63 bits. *)
Definition float_of_Z (z : Z) : float :=
  if z <? 0 then PrimFloat.opp (PrimFloat.of_uint63 (Uint63.of_Z (- z)))
  else PrimFloat.of_uint63 (Uint63.of_Z z).

(** [get_utc_now]: the ISO 8601 text of the current instant followed by
    ["Z"]; a [str], not a [datetime].  [now_iso] is what
    [datetime.now(tz=timezone.utc).isoformat()] returned. *)
Definition get_utc_now (now_iso : string) : string :=
  now_iso ++ "Z".

(** [diff_hours]: [(days * 24) + (seconds / 3600)], an [int] plus the
    quotient of true division. *)
Definition diff_hours (first last : pyval) : outcome float :=
  match py_sub last first with
  | Raise e => Raise e
  | Ok diff =>
      Ok (PrimFloat.add (float_of_Z (days diff * 24))
                        (PrimFloat.div (float_of_Z (seconds diff)) (float_of_Z 3600)))
  end.

(** *** [remove_duplicate_listings] *)

(** A [DataFrame] of listings, one row per list element in index order. *)
Abbreviation DataFrame := (list Listing).

Definition has_item_id (x : string) (row : Listing) : bool :=
  bool_decide (item_id row = x).

(** [DataFrame.drop_duplicates(subset=["item_id"], keep="last",
    ignore_index=True, inplace=...)] as pandas documents it: a row stays
    when no later row has its [item_id]; the rows that stay keep their
    order and are renumbered.  With [inplace=True] pandas returns [None]. *)
Fixpoint drop_duplicates_keep_last (df : DataFrame) : DataFrame :=
  match df with
  | [] => []
  | row :: rest =>
      if existsb (has_item_id (item_id row)) rest
      then drop_duplicates_keep_last rest
      else row :: drop_duplicates_keep_last rest
  end.

Definition drop_duplicates (inplace : bool) (df : DataFrame) : option DataFrame :=
  if inplace then None else Some (drop_duplicates_keep_last df).

Definition remove_duplicate_listings (df : DataFrame) : outcome DataFrame :=
  match drop_duplicates false df with
  | Some df_no_dupes => Ok df_no_dupes
  | None => Raise EmptyDataFrameError
  end.

(** *** [format_text] *)

(** The characters [str.split()] treats as white space, among those of
    code point below 256: U+0009 to U+000D, U+001C to U+0020, U+0085 and
    U+00A0. *)
Definition is_space (c : ascii) : bool :=
  let n := nat_of_ascii c in
  ((9 <=? n)%nat && (n <=? 13)%nat) || ((28 <=? n)%nat && (n <=? 32)%nat)
  || (n =? 133)%nat || (n =? 160)%nat.

(** [text.split()]: the maximal runs of non-space characters.  [cur] is
    the run being read, reversed. *)
Fixpoint split_ws (cur : list ascii) (s : string) : list string :=
  let flush := match cur with
               | [] => []
               | _ => [string_of_list_ascii (rev cur)]
               end in
  match s with
  | EmptyString => flush
  | String c s' =>
      if is_space c then flush ++ split_ws [] s'
      else split_ws (c :: cur) s'
  end.

Fixpoint join (sep : string) (parts : list string) : string :=
  match parts with
  | [] => ""
  | [p] => p
  | p :: ps => p ++ sep ++ join sep ps
  end.

Definition format_text (text : string) : string :=
  join " " (split_ws [] text).

End Utils.

(* ===================================================================== *)
(** ** mpscraper.py *)
(* ===================================================================== *)

Module Scraper.

Import Utils.

Definition MARTKPLAATS_BASE_URL : string := "https://marktplaats.nl".
Definition REQUEST_OPTS : string := "#sortBy:SORT_INDEX|sortOrder:DECREASING".
Definition ALL_CATEGORIES_ID : Z := 0.
Definition MARKTPLAATS_ADVERTISEMENT_PREFIX : ascii := "a"%char.
Definition ERR_INTERNET_DISCONNECTED : string := "ERR_INTERNET_DISCONNECTED".

(** [class Category(NamedTuple)]: the pair [(id, url)]. *)
Definition Category : Type := Z * string.
Definition cat_id (c : Category) : Z := fst c.
Definition cat_url (c : Category) : string := snd c.

(** One entry of [searchRequestAndResponse.listings], with the keys the
    code reads; the optional keys are [option]s. *)
Record RawListing := {
  r_itemId : string;
  r_categoryId : Z;
  r_title : string;
  r_vipUrl : string;
  r_pictures : option (list string);          (* extraExtraLargeUrl of each *)
  r_location : option (string * option string); (* countryAbbreviation, cityName *)
  r_verticals : option (list string);
  r_sellerInformation : option string;        (* sellerId *)
}.

(** *** The home page, as [get_parent_categories] reads it *)

(** What [category_li_elem.find("a", ...)] returns: nothing, or an anchor
    with its [href] attribute, if it has one. *)
Record AnchorElem := { a_href : option string }.

(** An element of [soup.findAll("li", ...)]: a [Tag] with the result of the
    search for its anchor, or something that is not a [Tag]. *)
Inductive LiElem :=
| LiNotTag
| LiTag (a : option AnchorElem).

(** *** The site and the browser *)

(** The answers of the site.  Search pages and listing pages are indexed by
    the number of page loads made so far in the call ([clock]) and by the
    URL.  An answer is the value the parsing code of the source extracts
    from the page, or the exception raised on the way
    ([MPDriver.get_soup], [WebDriverWait.until], missing elements). *)
Record Site := {
  site_home : outcome (list LiElem);
  site_listings_count : Category -> outcome Z;
  site_subcategories : Category -> outcome (list Category);
  site_search : nat -> string -> outcome (list RawListing);
  site_listing : nat -> string -> outcome ListingDetails;
  site_now : nat -> string;
}.

(** *** Small string functions of Python *)

(** [s.split(sep)] for a one-character separator. *)
Fixpoint split_on (sep : ascii) (cur : list ascii) (s : string) : list string :=
  match s with
  | EmptyString => [string_of_list_ascii (rev cur)]
  | String c s' =>
      if Ascii.eqb c sep then string_of_list_ascii (rev cur) :: split_on sep [] s'
      else split_on sep (c :: cur) s'
  end.

Definition digit_of (c : ascii) : option Z :=
  let n := nat_of_ascii c in
  if ((48 <=? n)%nat && (n <=? 57)%nat)%bool then Some (Z.of_nat (n - 48)) else None.

(** The digits of a decimal literal: digits with single underscores
    between them.  [after_digit] tells that the last character read was a
    digit. *)
Fixpoint parse_digits (acc : Z) (after_digit : bool) (s : string) : option Z :=
  match s with
  | EmptyString => if after_digit then Some acc else None
  | String c s' =>
      if Ascii.eqb c "_"%char then
        if after_digit then parse_digits acc false s' else None
      else
        match digit_of c with
        | Some d => parse_digits (10 * acc + d) true s'
        | None => None
        end
  end.

Fixpoint lstrip (cs : list ascii) : list ascii :=
  match cs with
  | [] => []
  | c :: cs' => if is_space c then lstrip cs' else cs
  end.

(** [s.strip()] *)
Definition strip (s : string) : string :=
  string_of_list_ascii (rev (lstrip (rev (lstrip (list_ascii_of_string s))))).

(** [int(s)] on a text of characters of code point below 256, the reader
    of numbers of the examples: white space around, an optional sign, then
    decimal digits with single underscores between them; anything else is
    a [ValueError]. *)
Definition py_int (s : string) : outcome Z :=
  let unsigned (t : string) : outcome Z :=
    match parse_digits 0 false t with
    | Some z => Ok z
    | None => Raise ValueError
    end in
  match strip s with
  | String "-"%char t => match unsigned t with Ok z => Ok (- z) | Raise e => Raise e end
  | String "+"%char t => unsigned t
  | t => unsigned t
  end.

(** [sub in s]. *)
Fixpoint str_contains (sub s : string) : bool :=
  String.prefix sub s ||
  match s with
  | EmptyString => false
  | String _ s' => str_contains sub s'
  end.

Fixpoint last_char (s : string) : option ascii :=
  match s with
  | EmptyString => None
  | String c EmptyString => Some c
  | String _ s' => last_char s'
  end.

(** *** [__get_url_with_options] *)

(** [category_url[-1]] raises [IndexError] on the empty string. *)
Definition get_url_with_options (category_url : string) (page_number : Z) : outcome string :=
  match last_char category_url with
  | None => Raise IndexError
  | Some c =>
      let category_url := if Ascii.eqb c "/"%char then category_url
                          else category_url ++ "/" in
      Ok (category_url ++ "p/" ++ pretty page_number ++ "/" ++ REQUEST_OPTS)
  end.

(** *** [get_parent_categories] *)

Section parent_categories.

(** The builtin [int] on a text. *)
Variable int_of_text : string -> outcome Z.

(** The body of the loop for one [li] element. *)
Definition parent_category_of (base_url : string) (li : LiElem) : outcome Category :=
  match li with
  | LiNotTag => Raise ElementNotFound
  | LiTag None => Raise ElementNotFound
  | LiTag (Some a) =>
      match a_href a with
      | None => Raise KeyError
      | Some href =>
          let href_split := split_on "/"%char [] href in
          match href_split !! 2%nat with
          | None => Raise IndexError
          | Some id_text =>
              match int_of_text id_text with
              | Raise e => Raise e
              | Ok category_id =>
                  match href_split !! 3%nat with
                  | None => Raise IndexError
                  | Some slug => Ok (category_id, base_url ++ "/l/" ++ slug)
                  end
              end
          end
      end
  end.

Fixpoint parent_categories_loop (base_url : string) (lis : list LiElem)
    (parent_categories : gset Category) : outcome (gset Category) :=
  match lis with
  | [] => Ok parent_categories
  | li :: lis' =>
      match parent_category_of base_url li with
      | Raise e => Raise e
      | Ok category => parent_categories_loop base_url lis' ({[category]} ∪ parent_categories)
      end
  end.

Definition get_parent_categories (base_url : string) (site : Site)
    : outcome (gset Category) :=
  match site_home site with
  | Raise e => Raise e
  | Ok category_li_elems =>
      parent_categories_loop base_url category_li_elems ∅
  end.

End parent_categories.

(** *** The heap of [set] objects *)

Definition loc := nat.
Abbreviation heap := (gmap loc (gset string)).

Definition set_contents (h : heap) (l : loc) : gset string :=
  default ∅ (h !! l).

(** A new [set] object holding [s]. *)
Definition set_alloc (s : gset string) (h : heap) : loc * heap :=
  let l := fresh (dom h) in (l, <[l := s]> h).

(** [l.copy()] *)
Definition set_copy (l : loc) (h : heap) : loc * heap :=
  set_alloc (set_contents h l) h.

(** [l.add(x)] *)
Definition set_add (l : loc) (x : string) (h : heap) : heap :=
  <[l := {[x]} ∪ set_contents h l]> h.

(** [x in l] *)
Definition set_contains (h : heap) (l : loc) (x : string) : bool :=
  bool_decide (x ∈ set_contents h l).

(** *** [get_listings] *)

(** The mutable variables of a call: the list [listings], the heap (with
    the set [item_ids] in it), the counter [max_listings] and the number of
    page loads made so far. *)
Record State := {
  listings : list Listing;
  heap_of : heap;
  max_listings : Z;
  clock : nat;
}.

Definition len {A} (l : list A) : Z := Z.of_nat (length l).

Definition tick (st : State) : State :=
  {| listings := listings st; heap_of := heap_of st;
     max_listings := max_listings st; clock := S (clock st) |}.

(** [max_listings -= 1] *)
Definition decrement_max (st : State) : State :=
  {| listings := listings st; heap_of := heap_of st;
     max_listings := max_listings st - 1; clock := clock st |}.

Section get_listings.

Variable site : Site.
Variable parent_category : Category.
(** [limit] after it was resolved against [listings_count]. *)
Variable limit : Z.
Variable listings_count : Z.
(** The reference held by the local variable [item_ids]. *)
Variable item_ids : loc.
(** The bound on the retries of one listing page. *)
Variable retries : nat.

(** The inner [while not got_details] loop: a [ForbiddenError] is retried
    after a sleep, anything else ends the loop. *)
Fixpoint get_listing_details_retry (n : nat) (listing_url : string) (clock : nat)
    : option (nat * outcome ListingDetails) :=
  match n with
  | O => None
  | S n' =>
      match site_listing site clock listing_url with
      | Raise ForbiddenError => get_listing_details_retry n' listing_url (S clock)
      | r => Some (S clock, r)
      end
  end.

Definition with_clock (st : State) (clk : nat) : State :=
  {| listings := listings st; heap_of := heap_of st;
     max_listings := max_listings st; clock := clk |}.

(** The [Listing(...)] built from the search entry and the details. *)
Definition make_listing (r : RawListing) (d : ListingDetails) (now : string) : Listing :=
  {| item_id := r_itemId r;
     seller_id := default "" (r_sellerInformation r);
     parent_category_id := cat_id parent_category;
     child_category_id := r_categoryId r;
     category_verticals := default [] (r_verticals r);
     ad_type := d_ad_type d;
     title := format_text (r_title r);
     description := format_text (d_description d);
     price_type := d_price_type d;
     price_cents := d_price_cents d;
     types := d_types d;
     services := d_services d;
     listing_url := MARTKPLAATS_BASE_URL ++ r_vipUrl r;
     image_urls := default [] (r_pictures r);
     city_name := match r_location r with
                  | Some (_, Some city) => city
                  | _ => ""
                  end;
     country_code := match r_location r with
                     | Some (country, _) => country
                     | None => ""
                     end;
     listed_timestamp := d_listed_timestamp d;
     crawled_timestamp := now;
     view_count := d_view_count d;
     favorited_count := d_favorited_count d |}.

(** [listings.append(listing); item_ids.add(listing.item_id)] *)
Definition accept (listing : Listing) (st : State) : State :=
  {| listings := listings st ++ [listing];
     heap_of := set_add item_ids (item_id listing) (heap_of st);
     max_listings := max_listings st;
     clock := clock st |}.

(** The body of [for res_listing in res_listings], after the test of the
    limit.  The result is the state and the exception raised, if any. *)
Definition for_res_listing (category_id : Z) (res_listing : RawListing)
    (st : State) : option (State * option exn) :=
  match r_itemId res_listing with
  | EmptyString => Some (st, Some IndexError)            (* item_id[0] *)
  | String c _ =>
      if Ascii.eqb c MARKTPLAATS_ADVERTISEMENT_PREFIX then
        Some (st, None)                                   (* sponsored: continue *)
      else if set_contains (heap_of st) item_ids (r_itemId res_listing) then
        Some (if limit =? listings_count then decrement_max st else st, None)
      else if negb (r_categoryId res_listing =? category_id) then
        Some (st, Some (UnexpectedCategoryId (r_categoryId res_listing) category_id))
      else
        let listing_url := MARTKPLAATS_BASE_URL ++ r_vipUrl res_listing in
        match get_listing_details_retry retries listing_url (clock st) with
        | None => None
        | Some (clk, Ok listing_details) =>
            let crawled_timestamp := get_utc_now (site_now site clk) in
            Some (accept (make_listing res_listing listing_details crawled_timestamp)
                         (with_clock st clk), None)
        | Some (clk, Raise e) =>
            if (isinstance_MPError e || isinstance_ElementNotFound e)%bool then
              (* logged; listing_details is None *)
              Some (decrement_max (with_clock st clk), None)
            else
              Some (with_clock st clk, Some e)
        end
  end.

(** [for res_listing in res_listings: if len(listings) == limit: break ...] *)
Fixpoint for_res_listings (category_id : Z) (res_listings : list RawListing)
    (st : State) : option (State * option exn) :=
  match res_listings with
  | [] => Some (st, None)
  | res_listing :: rest =>
      if len (listings st) =? limit then Some (st, None)
      else
        match for_res_listing category_id res_listing st with
        | Some (st', None) => for_res_listings category_id rest st'
        | r => r
        end
  end.

(** How the [try] block of one page ends. *)
Inductive page_end :=
| PageDone                 (* current_page += 1 *)
| PageBreak                (* no listings on the page: break *)
| PageRaise (e : exn).

(** The [try] block of the [while] loop for one page. *)
Definition try_page (category : Category) (current_page : Z) (st : State)
    : option (State * page_end) :=
  match get_url_with_options (cat_url category) current_page with
  | Raise e => Some (st, PageRaise e)
  | Ok url_with_opts =>
      match site_search site (clock st) url_with_opts with
      | Raise e => Some (tick st, PageRaise e)
      | Ok [] => Some (tick st, PageBreak)
      | Ok res_listings =>
          match for_res_listings (cat_id category) res_listings (tick st) with
          | None => None
          | Some (st', None) => Some (st', PageDone)
          | Some (st', Some e) => Some (st', PageRaise e)
          end
      end
  end.

(** What the [except] clauses of the [while] loop do with an exception. *)
Inductive handled :=
| Retry                    (* continue: same page again *)
| Reraise (e : exn).

Definition handle_page_exception (accumulated : list Listing) (e : exn) : handled :=
  match e with
  | ForbiddenError => Retry
  | MPError | CategoriesError | NotFoundError => Retry
  | ElementNotFound => Retry
  | TimeoutException => Retry
  | WebDriverException msg =>
      match msg with
      | Some m => if (negb (String.eqb m "") && str_contains ERR_INTERNET_DISCONNECTED m)%bool
                  then Retry else Reraise e
      | None => Reraise e
      end
  | KeyboardInterrupt => Reraise (ListingsInterrupt accumulated)
  | _ => Reraise (ListingsError accumulated)
  end.

(** [while len(listings) < max_listings: try: ... except ...] for one
    category, from [current_page] on. *)
Fixpoint while_pages (fuel : nat) (category : Category) (current_page : Z) (st : State)
    : option (State * option exn) :=
  match fuel with
  | O => None
  | S fuel' =>
      if len (listings st) <? max_listings st then
        match try_page category current_page st with
        | None => None
        | Some (st', PageDone) => while_pages fuel' category (current_page + 1) st'
        | Some (st', PageBreak) => Some (st', None)
        | Some (st', PageRaise e) =>
            match handle_page_exception (listings st') e with
            | Retry => while_pages fuel' category current_page st'
            | Reraise e' => Some (st', Some e')
            end
        end
      else Some (st, None)
  end.

(** [for category_id, category_url in categories: current_page = 1 ...] *)
Fixpoint for_categories (fuel : nat) (categories : list Category) (st : State)
    : option (State * option exn) :=
  match categories with
  | [] => Some (st, None)
  | category :: rest =>
      match while_pages fuel category 1 st with
      | Some (st', None) => for_categories fuel rest st'
      | r => r
      end
  end.

End get_listings.

(** [limit > listings_count or limit == 0] *)
Definition resolve_limit (limit listings_count : Z) : Z :=
  if ((listings_count <? limit) || (limit =? 0))%bool then listings_count else limit.

(** The whole call.  [existing_item_ids] is the reference the caller
    passed, or [None].  The result is the value returned or the exception
    raised, with the final state.  [retries] bounds the retries of one
    listing page and [fuel] the iterations of the [while] loop of one
    category. *)
Definition get_listings_run (retries fuel : nat) (site : Site) (parent_category : Category)
    (limit : Z) (existing_item_ids : option loc) (h : heap)
    : option (outcome (list Listing) * State) :=
  let '(item_ids, h) := match existing_item_ids with
                        | Some l => set_copy l h
                        | None => set_alloc ∅ h
                        end in
  let st0 := {| listings := []; heap_of := h; max_listings := 0; clock := 0 |} in
  match site_listings_count site parent_category with
  | Raise e => Some (Raise e, st0)
  | Ok listings_count =>
      let limit := resolve_limit limit listings_count in
      let st := {| listings := []; heap_of := h; max_listings := limit; clock := 0 |} in
      match site_subcategories site parent_category with
      | Raise e =>
          if isinstance_Exception e then Some (Raise (ListingsError []), st)
          else Some (Raise e, st)
      | Ok subcategories =>
          let categories := match subcategories with
                            | [] => [parent_category]
                            | _ => subcategories
                            end in
          match for_categories site parent_category limit listings_count item_ids
                               retries fuel categories st with
          | None => None
          | Some (st', Some e) => Some (Raise e, st')
          | Some (st', None) => Some (Ok (listings st'), st')
          end
      end
  end.

Definition get_listings (retries fuel : nat) (site : Site) (parent_category : Category)
    (limit : Z) (existing_item_ids : option loc) (h : heap)
    : option (outcome (list Listing) * heap) :=
  match get_listings_run retries fuel site parent_category limit existing_item_ids h with
  | None => None
  | Some (r, st) => Some (r, heap_of st)
  end.

(** *** [__get_subcategories] *)

(** An element of [soup.findAll("a", class="category-name")], when it is a
    [Tag]: its [href] attribute, if it has one, and its contents. *)
Record NameAnchor := {
  na_href : option string;
  na_contents : list string;
}.

(** An [option] element of the select box, when it is a [Tag]: its
    contents and its [value] attribute, if it has one. *)
Record OptionElem := {
  oe_contents : list string;
  oe_value : option string;
}.

(** The page of a category as [__get_subcategories] reads it: the select
    box with its options ([None] when [soup.find] finds no [Tag]), whether
    the list of the category is there, and the anchors with the names.  An
    element that is not a [Tag] is [None]. *)
Record CategorySoup := {
  cs_select : option (list (option OptionElem));
  cs_list : bool;
  cs_anchors : list (option NameAnchor);
}.

(** The answers of the browser on the way: the exception of
    [driver.get], if any, the exception of [WebDriverWait(...).until], if
    any, and what [get_soup] returns or raises. *)
Record CategoryPage := {
  cp_get : option exn;
  cp_wait : option exn;
  cp_soup : outcome CategorySoup;
}.

(** The first loop: the dictionary from names to hrefs. *)
Fixpoint category_hrefs_loop (anchors : list (option NameAnchor))
    (category_hrefs : gmap string string) : outcome (gmap string string) :=
  match anchors with
  | [] => Ok category_hrefs
  | None :: _ => Raise ElementNotFound
  | Some a :: rest =>
      match na_href a with
      | None => category_hrefs_loop rest category_hrefs           (* continue *)
      | Some category_href =>
          match na_contents a with
          | [] => Raise IndexError                                (* contents[0] *)
          | category_name :: _ =>
              category_hrefs_loop rest (<[category_name := category_href]> category_hrefs)
          end
      end
  end.

Section subcategories.

(** The builtin [int] on a text. *)
Variable int_of_text : string -> outcome Z.

(** The second loop: the options of the select box. *)
Fixpoint subcategory_options_loop (parent_category : Category)
    (category_hrefs : gmap string string) (options : list (option OptionElem))
    (subcategories : gset Category) : outcome (gset Category) :=
  match options with
  | [] => Ok subcategories
  | None :: _ => Raise ElementNotFound
  | Some o :: rest =>
      match oe_contents o with
      | [] => Raise IndexError                                    (* contents[0] *)
      | subcategory_name :: _ =>
          match oe_value o with
          | None => subcategory_options_loop parent_category category_hrefs rest subcategories
          | Some subcategory_value =>
              if String.eqb subcategory_value "" then
                subcategory_options_loop parent_category category_hrefs rest subcategories
              else
                match int_of_text subcategory_value with
                | Raise e => Raise e
                | Ok subcategory_id =>
                    if ((subcategory_id =? cat_id parent_category)
                        || (subcategory_id =? ALL_CATEGORIES_ID))%bool then
                      subcategory_options_loop parent_category category_hrefs rest subcategories
                    else
                      match category_hrefs !! subcategory_name with
                      | None => Raise KeyError
                      | Some subcategory_href =>
                          let subcategory :=
                            (subcategory_id, MARTKPLAATS_BASE_URL ++ subcategory_href) in
                          subcategory_options_loop parent_category category_hrefs rest
                            ({[subcategory]} ∪ subcategories)
                      end
                end
          end
      end
  end.

Definition get_subcategories (parent_category : Category) (page : CategoryPage)
    : outcome (gset Category) :=
  match cp_get page with
  | Some e => Raise e
  | None =>
      match cp_wait page with
      | Some TimeoutException => Ok ∅
      | Some e => Raise e
      | None =>
          match cp_soup page with
          | Raise e => Raise e
          | Ok soup =>
              match cs_select soup with
              | None => Raise ElementNotFound
              | Some options =>
                  if negb (cs_list soup) then Raise ElementNotFound
                  else
                    match category_hrefs_loop (cs_anchors soup) ∅ with
                    | Raise e => Raise e
                    | Ok category_hrefs =>
                        subcategory_options_loop parent_category category_hrefs options ∅
                    end
              end
          end
      end
  end.

(** *** [listings_count]: the text of the counter *)

(** [re.sub("[.,()]", "", count_text)] *)
Definition is_count_separator (c : ascii) : bool :=
  (Ascii.eqb c "."%char || Ascii.eqb c ","%char
   || Ascii.eqb c "("%char || Ascii.eqb c ")"%char)%bool.

Fixpoint remove_count_separators (count_text : string) : string :=
  match count_text with
  | EmptyString => EmptyString
  | String c s =>
      if is_count_separator c then remove_count_separators s
      else String c (remove_count_separators s)
  end.

(** The label and the counter inside it, as [soup.find] returns them: the
    text of the counter (after [get_text(strip=True)]) when both are
    [Tag]s. *)
Inductive CounterLabel :=
| NoLabel
| LabelWithoutCounter
| LabelWithCounter (count_text : string).

Definition listings_count_of (label : CounterLabel) : outcome Z :=
  match label with
  | LabelWithCounter count_text => int_of_text (remove_count_separators count_text)
  | LabelWithoutCounter => Raise ElementNotFound
  | NoLabel => Raise ElementNotFound
  end.

End subcategories.

End Scraper.

(* ===================================================================== *)
(** ** driver.py: [MPDriver.get_soup] *)
(* ===================================================================== *)

Module Driver.

(** A parsed document, as [__get_mp_err_text] reads it: the elements of
    [find_all("p", class="mp-Alert--error")], each with its stripped text
    ([None] when it is not a [Tag]), and the elements of
    [find_all("div", class="hz-ErrorPage-message")], each with the
    stripped text of the title inside it, if there is one ([None] when the
    element is not a [Tag]). *)
Record Soup := {
  err_msgs : list (option string);
  err_pages : list (option (option string));
}.

(** [__get_mp_err_text] *)
Definition get_mp_err_text (soup : Soup) : outcome (option string) :=
  match err_msgs soup with
  | err_msg :: _ =>
      match err_msg with
      | None => Raise ElementNotFound
      | Some err_text => Ok (Some err_text)
      end
  | [] =>
      match err_pages soup with
      | err_page :: _ =>
          match err_page with
          | None => Raise ElementNotFound
          | Some None => Raise ElementNotFound
          | Some (Some err_text) => Ok (Some err_text)
          end
      | [] => Ok None
      end
  end.

(** [if err_text:] a text that is not [None] and not empty. *)
Definition is_error_text (t : option string) : bool :=
  match t with
  | Some (String _ _) => true
  | _ => false
  end.

(** [get_soup], on the document of the page and, if the page holds the
    iframe of the 403 page, the document of that iframe.  [src] is
    assigned the source of the iframe when there is one. *)
Definition get_soup (page : Soup) (forbidden_iframe : option Soup) : outcome Soup :=
  let check_page (src : Soup) : outcome Soup :=
    match get_mp_err_text src with
    | Raise e => Raise e
    | Ok err_text => if is_error_text err_text then Raise MPError else Ok src
    end in
  match forbidden_iframe with
  | Some frame =>
      match get_mp_err_text frame with
      | Raise e => Raise e
      | Ok forbidden_err_text =>
          if is_error_text forbidden_err_text then Raise ForbiddenError
          else check_page frame
      end
  | None => check_page page
  end.

End Driver.

(* ===================================================================== *)
(** ** __main__.py: the parts of [main] around the crawl *)
(* ===================================================================== *)

Module Main.

Import Utils Scraper.

(** [for item_id in list(listings_df["item_id"]): ...]: the set of the
    item ids of the file and whether one occurs twice. *)
Fixpoint collect_item_ids (column : list string) (item_ids : gset string)
    (has_duplicates : bool) : gset string * bool :=
  match column with
  | [] => (item_ids, has_duplicates)
  | x :: rest =>
      if bool_decide (x ∈ item_ids) then collect_item_ids rest item_ids true
      else collect_item_ids rest ({[x]} ∪ item_ids) has_duplicates
  end.

Section recrawl.

(** [datetime.fromisoformat]: the instant a text denotes, in microseconds
    since the epoch, or the [ValueError] of a text it rejects. *)
Variable fromisoformat : string -> outcome Z.

(** [for _, listing in listings_df.iterrows(): ...] with [now_datetime]
    and [args.recrawl_hours]; [item_ids.remove] raises [KeyError] when the
    id is not in the set. *)
Fixpoint recrawl_loop (now_datetime : pyval) (recrawl_hours : float)
    (rows : DataFrame) (item_ids : gset string) : outcome (gset string) :=
  match rows with
  | [] => Ok item_ids
  | listing :: rest =>
      match fromisoformat (crawled_timestamp listing) with
      | Raise e => Raise e
      | Ok us =>
          let crawled_datetime := PyDatetime us in
          match diff_hours crawled_datetime now_datetime with
          | Raise e => Raise e
          | Ok diff_hours_now =>
              if PrimFloat.leb recrawl_hours diff_hours_now then
                if bool_decide (item_id listing ∈ item_ids)
                then recrawl_loop now_datetime recrawl_hours rest (item_ids ∖ {[item_id listing]})
                else Raise KeyError
              else recrawl_loop now_datetime recrawl_hours rest item_ids
          end
      end
  end.

(** Lines 192 to 200 of [main]: [now_datetime = get_utc_now()] and the
    loop.  [now_iso] is the text of the current instant. *)
Definition main_recrawl (now_iso : string) (recrawl_hours : float)
    (listings_df : DataFrame) (item_ids : gset string) : outcome (gset string) :=
  let now_datetime := PyStr (get_utc_now now_iso) in
  recrawl_loop now_datetime recrawl_hours listings_df item_ids.

End recrawl.

(** Lines 216 to 218 of [main]: the parent categories, and the test that
    there is one. *)
Definition main_parent_categories (int_of_text : string -> outcome Z)
    (base_url : string) (site : Site) : outcome (gset Category) :=
  match get_parent_categories int_of_text base_url site with
  | Raise e => Raise e
  | Ok parent_categories =>
      if (size parent_categories =? 0)%nat then Raise CategoriesError
      else Ok parent_categories
  end.

(** *** [get_args]: the environment over the command line *)

Definition ENV_PREFIX : string := "MP_".
Definition ENV_LIMIT : string := ENV_PREFIX ++ "LIMIT".
Definition ENV_HEADLESS : string := ENV_PREFIX ++ "HEADLESS".
Definition ENV_TIMEOUT_SECONDS : string := ENV_PREFIX ++ "TIMEOUT_SECONDS".
Definition ENV_RECRAWL_HOURS : string := ENV_PREFIX ++ "RECRAWL_HOURS".
Definition ENV_WAIT_SECONDS : string := ENV_PREFIX ++ "WAIT_SECONDS".

(** [class Args(NamedTuple)] *)
Record Args := {
  arg_data_dir : string;
  arg_limit : Z;
  arg_headless : bool;
  arg_chromium_path : string;
  arg_chromedriver_path : option string;
  arg_timeout_seconds : Z;
  arg_wait_seconds : Z;
  arg_recrawl_hours : float;
}.

(** What [parser.parse_args()] returned. *)
Record Namespace := {
  ns_limit : Z;
  ns_headless : bool;
  ns_chromium_path : string;
  ns_driver_path : option string;
  ns_timeout : Z;
  ns_recrawl_hours : float;
  ns_data_dir : string;
  ns_wait_seconds : Z;
}.

(** The truth value of what [os.getenv] returned: a text that is not
    empty. *)
Definition env_set (v : option string) : option string :=
  match v with
  | Some (String c s) => Some (String c s)
  | _ => None
  end.

Section get_args.

(** The builtins [int] and [float] on a text. *)
Variable int_of_text : string -> outcome Z.
Variable float_of_text : string -> outcome float.

(** [int(env) if env else flag] *)
Definition env_int (v : option string) (flag : Z) : outcome Z :=
  match env_set v with
  | Some text => int_of_text text
  | None => Ok flag
  end.

(** The part of [get_args] after [parse_args]; [getenv] is [os.getenv]. *)
Definition get_args (args : Namespace) (getenv : string -> option string)
    : outcome Args :=
  match env_int (getenv ENV_LIMIT) (ns_limit args) with
  | Raise e => Raise e
  | Ok limit =>
      (* bool(env_headless): a text that is not empty is true *)
      let headless := match env_set (getenv ENV_HEADLESS) with
                      | Some _ => true
                      | None => ns_headless args
                      end in
      match env_int (getenv ENV_TIMEOUT_SECONDS) (ns_timeout args) with
      | Raise e => Raise e
      | Ok timeout_seconds =>
          match match env_set (getenv ENV_RECRAWL_HOURS) with
                | Some text => float_of_text text
                | None => Ok (ns_recrawl_hours args)
                end with
          | Raise e => Raise e
          | Ok recrawl_hours =>
              match env_int (getenv ENV_WAIT_SECONDS) (ns_wait_seconds args) with
              | Raise e => Raise e
              | Ok wait_seconds =>
                  Ok {| arg_data_dir := ns_data_dir args;
                        arg_limit := limit;
                        arg_headless := headless;
                        arg_chromium_path := ns_chromium_path args;
                        arg_chromedriver_path := ns_driver_path args;
                        arg_timeout_seconds := timeout_seconds;
                        arg_wait_seconds := wait_seconds;
                        arg_recrawl_hours := recrawl_hours |}
              end
          end
      end
  end.

End get_args.

(** *** The loop of [main] over the parent categories *)

(** Lines 220 to 258 of [main].  [parent_categories] is the set of parent
    categories in its iteration order, [sites k] the site as call number
    [k] of [get_listings] finds it, [item_ids] the set of [main], which it
    passes to every call.  The result is [listings_df] after the loop, or
    the exception that leaves the loop. *)
Fixpoint main_crawl (retries fuel : nat) (sites : nat -> Site) (k : nat)
    (parent_categories : list Category) (remaining_limit : Z) (stop : bool)
    (item_ids : loc) (h : heap) (listings_df : DataFrame)
    : option (outcome DataFrame * heap) :=
  match parent_categories with
  | [] => Some (Ok listings_df, h)
  | parent_category :: rest =>
      if stop then Some (Ok listings_df, h)                       (* break *)
      else
        match get_listings retries fuel (sites k) parent_category remaining_limit
                           (Some item_ids) h with
        | None => None
        | Some (Ok listings, h') =>
            let remaining_limit := remaining_limit - len listings in
            main_crawl retries fuel sites (S k) rest remaining_limit
                       (remaining_limit <? 1) item_ids h' (listings_df ++ listings)
        | Some (Raise (ListingsInterrupt listings), h')
        | Some (Raise (ListingsError listings), h') =>
            main_crawl retries fuel sites (S k) rest remaining_limit true
                       item_ids h' (listings_df ++ listings)
        | Some (Raise KeyboardInterrupt, h') =>
            main_crawl retries fuel sites (S k) rest remaining_limit true
                       item_ids h' listings_df
        | Some (Raise e, h') => Some (Raise e, h')
        end
  end.

(** Lines 265 to 272 of [main]: the frame that is saved, if any. *)
Definition main_save (listings_df : DataFrame) : outcome (option DataFrame) :=
  if 0 <? len listings_df then
    match remove_duplicate_listings listings_df with
    | Ok df => Ok (Some df)
    | Raise e => Raise e
    end
  else Ok None.

End Main.

(* ===================================================================== *)
(** ** Vocabulary of the properties *)
(* ===================================================================== *)

Module Spec.

Import Utils Scraper.

(** The run of characters read so far by [split_ws], as a word. *)
Definition flush (cur : list ascii) : list string :=
  match cur with
  | [] => []
  | _ => [string_of_list_ascii (rev cur)]
  end.

(** A word: a text that is not empty and has no white space. *)
Definition word (w : string) : Prop :=
  w ≠ "" ∧ Forall (λ c, is_space c = false) (list_ascii_of_string w).

(** [words_of cs ws]: the words [ws] are the maximal runs of characters
    of [cs] that are not white space, in order.  Read from the left, [cs]
    is either at its end, or goes on with a white space, which belongs to
    no word, or goes on with a word that runs up to the end of [cs] or up
    to a white space. *)
Inductive words_of : list ascii → list string → Prop :=
| words_end :
    words_of [] []
| words_space c cs ws :
    is_space c = true → words_of cs ws → words_of (c :: cs) ws
| words_word w cs ws :
    word w → match cs with [] => True | c :: _ => is_space c = true end →
    words_of cs ws →
    words_of (list_ascii_of_string w ++ cs) (w :: ws).

(** An id that carries the prefix of sponsored entries. *)
Definition sponsored (x : string) : bool :=
  match x with
  | EmptyString => false
  | String c _ => Ascii.eqb c MARKTPLAATS_ADVERTISEMENT_PREFIX
  end.

(** The ids a call must not return again: the contents of the set the
    caller passed, nothing when it passed none. *)
Definition excluded (existing_item_ids : option loc) (h : heap) : gset string :=
  match existing_item_ids with
  | Some l => set_contents h l
  | None => ∅
  end.

(** The reference a call gives to its own set [item_ids]. *)
Definition own_item_ids (h : heap) : loc := fresh (dom h).

(** What holds of the variables of [get_listings] all along the crawl that
    started from heap [h0] with the ids [excl] excluded. *)
Record crawl_inv (parent_category : Category) (limit : Z) (item_ids : loc)
    (h0 : heap) (excl : gset string) (st : State) : Prop := {
  inv_ids : heap_of st !! item_ids
            = Some (excl ∪ list_to_set (map item_id (listings st)));
  inv_frame : ∀ l, l ≠ item_ids → heap_of st !! l = h0 !! l;
  inv_nodup : NoDup (map item_id (listings st));
  inv_fresh : ∀ x, x ∈ map item_id (listings st) → x ∉ excl;
  inv_clean : ∀ x, x ∈ map item_id (listings st) → x ≠ "" ∧ sponsored x = false;
  inv_parent : ∀ l, l ∈ listings st → parent_category_id l = cat_id parent_category;
  inv_max : max_listings st ≤ limit;
}.

(** The search entries that are accepted out of [rs], in order, when the
    ids [known] are already known and [room] more listings are wanted and
    no fetch of details fails. *)
Fixpoint select (known : gset string) (room : nat) (rs : list RawListing)
    : list RawListing :=
  match room, rs with
  | O, _ => []
  | _, [] => []
  | S room', r :: rs' =>
      if (sponsored (r_itemId r) || bool_decide (r_itemId r ∈ known))%bool
      then select known room rs'
      else r :: select ({[r_itemId r]} ∪ known) room' rs'
  end.

(** The ids of the entries that are not sponsored, in order. *)
Definition plain_ids (rs : list RawListing) : list string :=
  filter (λ x, sponsored x = false) (map r_itemId rs).

(** The fresh ids on offer among [rs]: not sponsored, not excluded. *)
Definition fresh_ids (excl : gset string) (rs : list RawListing) : gset string :=
  list_to_set (plain_ids rs) ∖ excl.

(** No entry of [rs] that is not sponsored is excluded or occurs twice. *)
Definition all_new (excl : gset string) (rs : list RawListing) : Prop :=
  NoDup (plain_ids rs) ∧ ∀ x, x ∈ plain_ids rs → x ∉ excl.

(** The ids known to a call in a state: the excluded ones and those of the
    listings accumulated. *)
Definition known_ids (excl : gset string) (st : State) : gset string :=
  excl ∪ list_to_set (map item_id (listings st)).

(** The listings still wanted in a state. *)
Definition room (limit : Z) (st : State) : nat :=
  Z.to_nat (limit - len (listings st)).

(** An entry listed under category [c] that a call can take without
    fault: it has an id and, unless it is sponsored or excluded, it reports
    [c] and has a listing page whose details can be read at any moment. *)
Definition sound_entry (site : Site) (excl : gset string) (c : Category)
    (r : RawListing) : Prop :=
  r_itemId r ≠ ""
  ∧ (sponsored (r_itemId r) = false → r_itemId r ∉ excl →
     r_categoryId r = cat_id c
     ∧ ∀ clk, ∃ d, site_listing site clk (MARTKPLAATS_BASE_URL ++ r_vipUrl r) = Ok d).

(** A site that serves the pages of [book] without fault: for each
    category its pages in order (page [p + 1] of the site is [pages !! p]),
    none of them empty, and an empty page after the last; every entry has
    an id, and every entry that is neither sponsored nor excluded reports
    the category it is listed in and has a listing page whose details can
    be read. *)
Record serves (site : Site) (excl : gset string)
    (book : list (Category * list (list RawListing))) : Prop := {
  serves_pages : ∀ c pages, (c, pages) ∈ book → ∀ (clk p : nat),
      (p ≤ length pages)%nat →
      ∃ url, get_url_with_options (cat_url c) (Z.of_nat p + 1) = Ok url
             ∧ site_search site clk url = Ok (default [] (pages !! p));
  serves_nonempty : ∀ c pages page, (c, pages) ∈ book → page ∈ pages → page ≠ [];
  serves_entries : ∀ c pages page r, (c, pages) ∈ book → page ∈ pages → r ∈ page →
      sound_entry site excl c r;
}.

(** All the entries of a book, in the order of the crawl. *)
Definition entries (book : list (Category * list (list RawListing))) : list RawListing :=
  concat (map (λ cp, concat (snd cp)) book).

(** The categories a call crawls. *)
Definition targets (parent_category : Category) (subcategories : list Category)
    : list Category :=
  match subcategories with
  | [] => [parent_category]
  | _ => subcategories
  end.

(** What the page loop lets out: the two errors that carry the listings
    accumulated so far, or the browser error raised again as it is. *)
Definition carries (accumulated : list Listing) (oe : option exn) : Prop :=
  match oe with
  | None => True
  | Some (ListingsError ls) | Some (ListingsInterrupt ls) => ls = accumulated
  | Some (WebDriverException _) => True
  | Some _ => False
  end.

(** The listings an error of the call carries are the accumulated ones. *)
Definition partial_results (accumulated : list Listing) (o : outcome (list Listing))
    : Prop :=
  match o with
  | Raise (ListingsError ls) | Raise (ListingsInterrupt ls) => ls = accumulated
  | _ => True
  end.

(** Readings of the result of a run. *)
Definition returned_ids (r : option (outcome (list Listing) * State))
    : option (list string) :=
  match r with
  | Some (Ok ls, _) => Some (map item_id ls)
  | _ => None
  end.

Definition raised (r : option (outcome (list Listing) * State)) : option exn :=
  match r with
  | Some (Raise e, _) => Some e
  | _ => None
  end.

Definition final_max_listings (r : option (outcome (list Listing) * State))
    : option Z :=
  match r with
  | Some (_, st) => Some (max_listings st)
  | None => None
  end.

(** A state with another value of [max_listings]. *)
Definition with_max_listings (st : State) (m : Z) : State :=
  {| listings := listings st; heap_of := heap_of st; max_listings := m;
     clock := clock st |}.

(** The state in which the crawl of a call starts: nothing accumulated,
    the call's own set holding the excluded ids, [max_listings] at the
    resolved limit. *)
Definition initial_state (limit : Z) (existing_item_ids : option loc) (h : heap)
    : State :=
  {| listings := [];
     heap_of := <[own_item_ids h := excluded existing_item_ids h]> h;
     max_listings := limit;
     clock := 0 |}.

Section reach.

Variables (site : Site) (parent_category : Category) (limit listings_count : Z).
Variables (item_ids : loc) (retries : nat).

(** [crawl_reaches cats0 st0 cs p st]: the crawl that started on the
    categories [cats0] in state [st0] comes to test the condition of the
    [while] loop for page [p] of the first category of [cs], in state [st],
    the other categories of [cs] still to come. *)
Inductive crawl_reaches (cats0 : list Category) (st0 : State)
    : list Category → Z → State → Prop :=
| reach_start :
    crawl_reaches cats0 st0 cats0 1 st0
| reach_next_page c cs p st st' :
    crawl_reaches cats0 st0 (c :: cs) p st →
    len (listings st) < max_listings st →
    try_page site parent_category limit listings_count item_ids retries c p st
    = Some (st', PageDone) →
    crawl_reaches cats0 st0 (c :: cs) (p + 1) st'
| reach_retry c cs p st st' e :
    crawl_reaches cats0 st0 (c :: cs) p st →
    len (listings st) < max_listings st →
    try_page site parent_category limit listings_count item_ids retries c p st
    = Some (st', PageRaise e) →
    handle_page_exception (listings st') e = Retry →
    crawl_reaches cats0 st0 (c :: cs) p st'
| reach_exhausted c cs p st st' :
    crawl_reaches cats0 st0 (c :: cs) p st →
    len (listings st) < max_listings st →
    try_page site parent_category limit listings_count item_ids retries c p st
    = Some (st', PageBreak) →
    crawl_reaches cats0 st0 cs 1 st'
| reach_enough c cs p st :
    crawl_reaches cats0 st0 (c :: cs) p st →
    max_listings st ≤ len (listings st) →
    crawl_reaches cats0 st0 cs 1 st.

(** The rest of the crawl from such a point. *)
Definition resume (fuel : nat) (cs : list Category) (p : Z) (st : State)
    : option (State * option exn) :=
  match cs with
  | [] => Some (st, None)
  | c :: cs' =>
      match while_pages site parent_category limit listings_count item_ids retries
                        fuel c p st with
      | Some (st', None) =>
          for_categories site parent_category limit listings_count item_ids retries
                         fuel cs' st'
      | r => r
      end
  end.

End reach.

End Spec.

(* ===================================================================== *)
(** ** Sites and files used as examples *)
(* ===================================================================== *)

Module Examples.

Import Utils Scraper.

Definition computers : Category :=
  (322, "https://marktplaats.nl/l/computers-en-software/").

Definition details : ListingDetails :=
  {| d_description := "As   new"; d_ad_type := "OFFERED"; d_types := ["Laptop"];
     d_services := []; d_price_type := "FIXED"; d_price_cents := 25000;
     d_view_count := 12; d_favorited_count := 1;
     d_listed_timestamp := "2024-04-30T08:00:00Z" |}.

(** A search entry with the given id and category. *)
Definition entry (x : string) (category_id : Z) : RawListing :=
  {| r_itemId := x; r_categoryId := category_id; r_title := "Laptop  " ++ x;
     r_vipUrl := "/v/computers-en-software/" ++ x;
     r_pictures := None; r_location := Some ("NL", Some "Utrecht");
     r_verticals := None; r_sellerInformation := Some "s1" |}.

Definition page_url (c : Category) (page_number : Z) : string :=
  match get_url_with_options (cat_url c) page_number with
  | Ok url => url
  | Raise _ => ""
  end.

Definition listing_page (x : string) : string :=
  MARTKPLAATS_BASE_URL ++ "/v/computers-en-software/" ++ x.

Fixpoint assoc {A} (key : string) (table : list (string * A)) : option A :=
  match table with
  | [] => None
  | (k, v) :: rest => if String.eqb k key then Some v else assoc key rest
  end.

(** A site that answers the same at every moment: a count, no
    subcategory, the search pages of [pages] (any other page is empty), and
    listing pages that can all be read but those of [broken], which show
    the error page of the site. *)
Definition steady_site (count : Z) (pages : list (string * list RawListing))
    (broken : list string) : Site :=
  {| site_home := Ok [];
     site_listings_count := λ _, Ok count;
     site_subcategories := λ _, Ok [];
     site_search := λ _ url, Ok (default [] (assoc url pages));
     site_listing := λ _ url,
       if existsb (String.eqb url) broken then Raise MPError else Ok details;
     site_now := λ _, "2024-05-01T12:00:00+00:00" |}.

Definition first_page : string := page_url computers 1.
Definition second_page : string := page_url computers 2.

(** A page whose first entry has a listing page that cannot be read. *)
Definition site_one_broken : Site :=
  steady_site 10
    [(first_page, [entry "m1" 322; entry "m2" 322; entry "m3" 322])]
    [listing_page "m1"].

(** The same entries over two pages. *)
Definition site_broken_then_more : Site :=
  steady_site 10
    [(first_page, [entry "m1" 322; entry "m2" 322]);
     (second_page, [entry "m3" 322; entry "m4" 322])]
    [listing_page "m1"].

(** A page whose second entry reports another category. *)
Definition site_wrong_category : Site :=
  steady_site 10
    [(first_page, [entry "m1" 322; entry "m2" 999; entry "m3" 322])] [].

(** A page whose second entry has an empty id. *)
Definition site_empty_id : Site :=
  steady_site 10
    [(first_page, [entry "m1" 322; entry "" 322; entry "m3" 322])] [].

(** Two pages without fault, the first entry sponsored. *)
Definition book_two_pages : list (Category * list (list RawListing)) :=
  [(computers, [[entry "a7" 322; entry "m1" 322]; [entry "m2" 322; entry "m3" 322]])].

Definition site_two_pages : Site :=
  steady_site 10
    [(first_page, [entry "a7" 322; entry "m1" 322]);
     (second_page, [entry "m2" 322; entry "m3" 322])] [].

(** The heap of a caller that holds one set, with one id in it. *)
Definition callers_set : loc := 5%nat.
Definition callers_heap : heap := {[ callers_set := {[ "m2" ]} ]}.

(** The state in which the entries of [pre], the first entries of the
    first page of [computers], leave a call with limit 2 on [site]. *)
Definition state_after (site : Site) (pre : list RawListing) : State :=
  let st0 := Spec.initial_state 2 None ∅ in
  match for_res_listings site computers 2 10 (Spec.own_item_ids ∅) 1 322 pre (tick st0) with
  | Some (st, _) => st
  | None => st0
  end.

(** A listing row of a file, with its id and the time of its crawl. *)
Definition row (x crawled : string) : Listing :=
  {| item_id := x; seller_id := "s1"; parent_category_id := 322;
     child_category_id := 322; category_verticals := []; ad_type := "OFFERED";
     title := "Laptop"; description := "As new"; price_type := "FIXED";
     price_cents := 25000; types := []; services := [];
     listing_url := listing_page x; image_urls := []; city_name := "Utrecht";
     country_code := "NL"; listed_timestamp := "2024-04-30T08:00:00Z";
     crawled_timestamp := crawled; view_count := 12; favorited_count := 1 |}.

(** A file of one row, crawled on 30 April 2024 at noon UTC, and a reader
    of that timestamp. *)
Definition crawled_at_noon : string := "2024-04-30T12:00:00+00:00".
Definition noon_us : Z := 1714478400 * US_PER_SECOND.

Definition one_row_file : DataFrame := [row "m1" crawled_at_noon].

Definition fromisoformat_noon (text : string) : outcome Z :=
  if String.eqb text crawled_at_noon then Ok noon_us else Raise ValueError.

(** A home page: the elements of its list of categories. *)
Definition home_site (category_li_elems : list LiElem) : Site :=
  {| site_home := Ok category_li_elems;
     site_listings_count := λ _, Ok 10;
     site_subcategories := λ _, Ok [];
     site_search := λ _ _, Ok [];
     site_listing := λ _ _, Ok details;
     site_now := λ _, "2024-05-01T12:00:00+00:00" |}.

Definition li (href : string) : LiElem :=
  LiTag (Some {| a_href := Some href |}).

Definition home_two_categories : Site :=
  home_site [li "/cp/322/computers-en-software/"; li "/cp/91/auto-s/"].

(** The second element has no anchor. *)
Definition home_broken : Site :=
  home_site [li "/cp/322/computers-en-software/"; LiTag None; li "/cp/91/auto-s/"].

(** The page of [computers]: the select box with the option of all
    categories, that of the category itself and that of one subcategory,
    and the anchor of the subcategory. *)
Definition computers_page : CategoryPage :=
  {| cp_get := None;
     cp_wait := None;
     cp_soup :=
       Ok {| cs_select :=
               Some [Some {| oe_contents := ["Alle"]; oe_value := Some "0" |};
                     Some {| oe_contents := ["Computers en Software"];
                             oe_value := Some "322" |};
                     Some {| oe_contents := ["Laptops"]; oe_value := Some "339" |}];
             cs_list := true;
             cs_anchors :=
               [Some {| na_href := Some "/l/computers-en-software/laptops/";
                        na_contents := ["Laptops"] |}] |} |}.

(** A site whose search pages all raise [e]. *)
Definition failing_site (e : exn) : Site :=
  {| site_home := Ok [];
     site_listings_count := λ _, Ok 10;
     site_subcategories := λ _, Ok [];
     site_search := λ _ _, Raise e;
     site_listing := λ _ _, Ok details;
     site_now := λ _, "2024-05-01T12:00:00+00:00" |}.

(** A site that answers the first [k] page loads of a call with the page
    of the rate limit. *)
Definition site_rate_limited (k : nat) : Site :=
  {| site_home := Ok [];
     site_listings_count := λ _, Ok 10;
     site_subcategories := λ _, Ok [];
     site_search := λ _ _, Ok [];
     site_listing := λ clk _, if (clk <? k)%nat then Raise ForbiddenError else Ok details;
     site_now := λ _, "2024-05-01T12:00:00+00:00" |}.

(** A second parent category, and a site on which the two parent
    categories list an entry with the same id, each under its own
    category. *)
Definition autos : Category := (91, "https://marktplaats.nl/l/auto-s/").

Definition site_listed_twice : Site :=
  steady_site 10
    [(page_url computers 1, [entry "m1" 322]); (page_url autos 1, [entry "m1" 91])] [].

(** The command line without flags, and an environment that sets the
    limit and the headless mode. *)
Definition no_flags : Main.Namespace :=
  {| Main.ns_limit := 0; Main.ns_headless := false;
     Main.ns_chromium_path := "/usr/bin/chromium"; Main.ns_driver_path := None;
     Main.ns_timeout := 10; Main.ns_recrawl_hours := 24%float;
     Main.ns_data_dir := "./"; Main.ns_wait_seconds := 10 |}.

Definition environment (name : string) : option string :=
  if String.eqb name Main.ENV_LIMIT then Some "5"
  else if String.eqb name Main.ENV_HEADLESS then Some "false"
  else None.

(** A reader of floats that knows no text. *)
Definition no_float (text : string) : outcome float := Raise ValueError.

End Examples.

(* ===================================================================== *)
(** * Properties *)
(* ===================================================================== *)

Import Utils Scraper Main Spec.

#[local] Set Warnings "-clear-no-such-hyp".

(** ** [format_text] *)

Example format_text_spacing :
  format_text "Text    with            too much   spacing"
  = "Text with too much spacing".
Proof. reflexivity. Qed.

(** ** [remove_duplicate_listings] *)

Section dedupe.

Implicit Types (df : DataFrame) (row : Listing) (x : string).

Lemma existsb_has_item_id x df :
  existsb (has_item_id x) df = true ↔ x ∈ map item_id df.
Proof.
  rewrite existsb_exists. split.
  - intros (row & Hin & Hrow). apply bool_decide_eq_true in Hrow as <-.
    apply list_elem_of_In, in_map, Hin.
  - intros Hin%list_elem_of_In%in_map_iff. destruct Hin as (row & <- & Hin).
    exists row. split; [done | by apply bool_decide_eq_true].
Qed.

Lemma drop_keep_last_ids x df :
  x ∈ map item_id (drop_duplicates_keep_last df) ↔ x ∈ map item_id df.
Proof.
  induction df as [|row rest IH]; simpl; [done|].
  destruct (existsb _ rest) eqn:E.
  - rewrite IH, elem_of_cons. apply existsb_has_item_id in E.
    split; [by right | by intros [->|?]].
  - simpl. rewrite !elem_of_cons, IH. done.
Qed.

Lemma drop_keep_last_NoDup df :
  NoDup (map item_id (drop_duplicates_keep_last df)).
Proof.
  induction df as [|row rest IH]; simpl; [constructor|].
  destruct (existsb _ rest) eqn:E; [done|].
  simpl. constructor; [|done].
  rewrite drop_keep_last_ids. intros Hin%existsb_has_item_id. congruence.
Qed.

Lemma drop_keep_last_fixed df :
  NoDup (map item_id df) → drop_duplicates_keep_last df = df.
Proof.
  induction df as [|row rest IH]; simpl; [done|].
  intros [Hnotin Hnd]%NoDup_cons.
  destruct (existsb _ rest) eqn:E.
  - apply existsb_has_item_id in E. done.
  - by rewrite IH.
Qed.

Lemma drop_keep_last_sublist df :
  drop_duplicates_keep_last df `sublist_of` df.
Proof.
  induction df as [|row rest IH]; simpl; [constructor|].
  destruct (existsb _ rest); by constructor.
Qed.

(** The rows with a given id that survive: the last one of the input. *)
Lemma drop_keep_last_filter x df :
  filter (λ row, item_id row = x) (drop_duplicates_keep_last df)
  = option_list (last (filter (λ row, item_id row = x) df)).
Proof.
  induction df as [|row rest IH]; [done|].
  cbn [drop_duplicates_keep_last].
  destruct (existsb _ rest) eqn:E.
  - rewrite IH, (filter_cons _ row rest). case_decide as Hx; [|done].
    subst x. apply existsb_has_item_id in E.
    apply list_elem_of_In, in_map_iff in E as (row' & Hid & Hin).
    remember (filter (λ r, item_id r = item_id row) rest) as f eqn:Hf.
    assert (row' ∈ f) as Hmem.
    { subst f. apply list_elem_of_filter. split; [done | by apply list_elem_of_In]. }
    destruct f as [|r0 f0]; [by apply elem_of_nil in Hmem | done].
  - rewrite !filter_cons. case_decide as Hx; [|done].
    subst x. rewrite IH.
    remember (filter (λ r, item_id r = item_id row) rest) as f eqn:Hf.
    destruct f as [|r0 f0]; [done|].
    assert (r0 ∈ filter (λ r, item_id r = item_id row) rest) as Hmem.
    { rewrite <- Hf. apply elem_of_cons. by left. }
    apply list_elem_of_filter in Hmem as [Hid Hmem].
    assert (existsb (has_item_id (item_id row)) rest = true); [|congruence].
    apply existsb_has_item_id. rewrite <- Hid.
    apply list_elem_of_In, in_map. by apply list_elem_of_In.
Qed.

End dedupe.

(** C6. [remove_duplicate_listings] always returns a frame; applying it to
    its own result changes nothing; of the rows that share an [item_id]
    exactly one survives, the last of them in input order; and the rows
    that survive are a subsequence of the input, in their input order. *)
Theorem remove_duplicate_listings_keeps_last (df : DataFrame) :
  ∃ d : DataFrame,
    remove_duplicate_listings df = Ok d
    ∧ remove_duplicate_listings d = Ok d
    ∧ NoDup (map item_id d)
    ∧ (∀ x, x ∈ map item_id df →
         ∃ row, last (filter (λ r, item_id r = x) df) = Some row
                ∧ filter (λ r, item_id r = x) d = [row])
    ∧ d `sublist_of` df.
Proof.
  exists (drop_duplicates_keep_last df).
  pose proof (drop_keep_last_NoDup df) as Hnd.
  unfold remove_duplicate_listings, drop_duplicates.
  rewrite (drop_keep_last_fixed _ Hnd).
  repeat split; [done | | apply drop_keep_last_sublist].
  intros x Hx. rewrite drop_keep_last_filter.
  apply list_elem_of_In, in_map_iff in Hx as (row & Hid & Hin).
  assert (row ∈ filter (λ r, item_id r = x) df) as Hmem.
  { apply list_elem_of_filter. split; [done | by apply list_elem_of_In]. }
  destruct (last (filter (λ r, item_id r = x) df)) as [row'|] eqn:Hlast.
  - by exists row'.
  - apply last_None in Hlast. rewrite Hlast in Hmem. by apply elem_of_nil in Hmem.
Qed.

(** ** [diff_hours] *)

#[local] Set Warnings "-inexact-float".

Lemma diff_hours_apart (first us : Z) :
  diff_hours (PyDatetime first) (PyDatetime (first + us))
  = diff_hours (PyDatetime 0) (PyDatetime us).
Proof.
  unfold diff_hours, py_sub. by replace (first + us - first) with (us - 0) by lia.
Qed.

(** C8. On two datetimes [diff_hours] is [days * 24 + seconds / 3600] of
    the normalised difference, and for timestamps 0.5, 1.0, 2.5, 3.99, 4.33
    and 5.00 hours apart the binary64 result is that very number. *)
Theorem diff_hours_offsets_exact (first last : Z) :
  diff_hours (PyDatetime first) (PyDatetime last)
  = Ok (PrimFloat.add
          (float_of_Z (days (timedelta_of_us (last - first)) * 24))
          (PrimFloat.div (float_of_Z (seconds (timedelta_of_us (last - first))))
                         (float_of_Z 3600)))
  ∧ diff_hours (PyDatetime first) (PyDatetime (first + 1800 * US_PER_SECOND)) = Ok 0.5%float
  ∧ diff_hours (PyDatetime first) (PyDatetime (first + 3600 * US_PER_SECOND)) = Ok 1.0%float
  ∧ diff_hours (PyDatetime first) (PyDatetime (first + 9000 * US_PER_SECOND)) = Ok 2.5%float
  ∧ diff_hours (PyDatetime first) (PyDatetime (first + 14364 * US_PER_SECOND)) = Ok 3.99%float
  ∧ diff_hours (PyDatetime first) (PyDatetime (first + 15588 * US_PER_SECOND)) = Ok 4.33%float
  ∧ diff_hours (PyDatetime first) (PyDatetime (first + 18000 * US_PER_SECOND)) = Ok 5.00%float.
Proof.
  split; [reflexivity|].
  rewrite !diff_hours_apart.
  repeat split; vm_compute; reflexivity.
Qed.

(** ** The recrawl loop of [main] *)

(** C5 (the code at fault). [main] passes the text returned by
    [get_utc_now] as [last]; on the first row whose timestamp parses,
    [diff_hours] raises [TypeError], so no exclusion set is computed for a
    file that has a row. *)
Theorem main_recrawl_raises (fromisoformat : string -> outcome Z) (now_iso : string)
    (recrawl_hours : float) (row : Listing) (rest : DataFrame) (item_ids : gset string) :
  main_recrawl fromisoformat now_iso recrawl_hours (row :: rest) item_ids
  = match fromisoformat (crawled_timestamp row) with
    | Raise e => Raise e
    | Ok _ => Raise TypeError
    end.
Proof.
  unfold main_recrawl. cbn [recrawl_loop].
  by destruct (fromisoformat (crawled_timestamp row)).
Qed.

(** The failing input of C5: one row crawled exactly 24 hours before the
    run, [recrawl_hours] 24. *)
Example main_recrawl_one_row :
  main_recrawl Examples.fromisoformat_noon "2024-05-01T12:00:00+00:00" 24%float
               Examples.one_row_file {[ "m1" ]}
  = Raise TypeError.
Proof. reflexivity. Qed.

(** Given a datetime for the current instant, the loop does remove the id
    of a row crawled exactly 24 hours before, and keeps the id of a row
    crawled one second later than that. *)
Example recrawl_loop_at_24_hours :
  (∃ s, recrawl_loop Examples.fromisoformat_noon
          (PyDatetime (Examples.noon_us + 86400 * US_PER_SECOND)) 24%float
          Examples.one_row_file {[ "m1" ]} = Ok s
        ∧ "m1" ∉ s)
  ∧ (∃ s, recrawl_loop Examples.fromisoformat_noon
            (PyDatetime (Examples.noon_us + 86399 * US_PER_SECOND)) 24%float
            Examples.one_row_file {[ "m1" ]} = Ok s
          ∧ "m1" ∈ s).
Proof.
  split; eexists; (split; [reflexivity|]); set_solver.
Qed.

(** [diff_hours] drops the microseconds of the difference: with a
    threshold of 1/512 hour (7.03125 seconds) a row crawled exactly that
    long before keeps its id in the set. *)
Example recrawl_loop_drops_microseconds :
  ∃ s, recrawl_loop Examples.fromisoformat_noon
         (PyDatetime (Examples.noon_us + 7031250)) 0.001953125%float
         Examples.one_row_file {[ "m1" ]} = Ok s
       ∧ "m1" ∈ s.
Proof.
  eexists. split; [reflexivity|]. set_solver.
Qed.

(** ** The parent categories *)

Lemma parent_categories_loop_nonempty int_of_text base_url lis acc s :
  parent_categories_loop int_of_text base_url lis acc = Ok s → acc ⊆ s.
Proof.
  revert acc. induction lis as [|li lis IH]; intros acc; cbn [parent_categories_loop].
  - by intros [= ->].
  - destruct (parent_category_of int_of_text base_url li) as [c|e]; [|done].
    intros H%IH. set_solver.
Qed.

Lemma get_parent_categories_empty int_of_text base_url site :
  get_parent_categories int_of_text base_url site = Ok ∅ ↔ site_home site = Ok [].
Proof.
  unfold get_parent_categories. split.
  - destruct (site_home site) as [[|li lis]|e]; [done | | done].
    cbn [parent_categories_loop].
    destruct (parent_category_of int_of_text base_url li) as [c|e]; [|done].
    intros H%parent_categories_loop_nonempty. set_solver.
  - by intros ->.
Qed.

(** C7, as the code has it. [get_parent_categories] returns the empty set
    exactly when the home page lists no category; it is [main] that raises
    [CategoriesError] on the empty set, so [main] never goes on with an
    empty set of categories. *)
Theorem main_raises_CategoriesError (int_of_text : string → outcome Z)
    (base_url : string) (site : Site) :
  (get_parent_categories int_of_text base_url site = Ok ∅ ↔ site_home site = Ok [])
  ∧ (site_home site = Ok [] →
     main_parent_categories int_of_text base_url site = Raise CategoriesError)
  ∧ (∀ s, main_parent_categories int_of_text base_url site = Ok s → s ≠ ∅).
Proof.
  split; [apply get_parent_categories_empty|]. split.
  - intros H. unfold main_parent_categories, get_parent_categories. by rewrite H.
  - intros s. unfold main_parent_categories.
    destruct (get_parent_categories int_of_text base_url site) as [s'|e]; [|done].
    destruct (size s' =? 0)%nat eqn:E; [done|].
    intros [= ->] ->. by rewrite size_empty in E.
Qed.

(** ** [get_listings]: what holds along the crawl *)

Section crawl.

Variables (site : Site) (parent_category : Category) (limit listings_count : Z).
Variables (item_ids : loc) (retries : nat).
Variables (h0 : heap) (excl : gset string).

Local Abbreviation inv := (crawl_inv parent_category limit item_ids h0 excl).
Local Abbreviation item := (for_res_listing site parent_category limit listings_count item_ids retries).
Local Abbreviation items := (for_res_listings site parent_category limit listings_count item_ids retries).
Local Abbreviation page := (try_page site parent_category limit listings_count item_ids retries).
Local Abbreviation pages := (while_pages site parent_category limit listings_count item_ids retries).
Local Abbreviation categories := (for_categories site parent_category limit listings_count item_ids retries).

Implicit Types (st : State) (r : RawListing) (rs : list RawListing).

Lemma inv_known st x :
  inv st →
  set_contains (heap_of st) item_ids x
  = bool_decide (x ∈ excl ∪ list_to_set (C:=gset string) (map item_id (listings st))).
Proof.
  intros Hinv. unfold set_contains, set_contents. by rewrite (inv_ids _ _ _ _ _ _ Hinv).
Qed.

Lemma inv_decrement_max st : inv st → inv (decrement_max st).
Proof.
  intros [? ? ? ? ? ? ?]. split; cbn; try done. lia.
Qed.

Lemma inv_with_clock st clk : inv st → inv (with_clock st clk).
Proof. intros [? ? ? ? ? ? ?]. by split. Qed.

Lemma inv_tick st : inv st → inv (tick st).
Proof. intros [? ? ? ? ? ? ?]. by split. Qed.

Lemma len_app {A} (l k : list A) : len (l ++ k) = len l + len k.
Proof. unfold len. rewrite length_app. lia. Qed.

Lemma inv_accept st r d now :
  inv st →
  r_itemId r ≠ "" → sponsored (r_itemId r) = false →
  set_contains (heap_of st) item_ids (r_itemId r) = false →
  inv (accept item_ids (make_listing parent_category r d now) st).
Proof.
  intros Hinv Hne Hsp Hnew.
  rewrite (inv_known _ _ Hinv) in Hnew. apply bool_decide_eq_false in Hnew.
  destruct Hinv as [Hids Hframe Hnd Hfresh Hclean Hparent Hmax].
  split; cbn [accept listings heap_of max_listings make_listing item_id].
  - unfold set_add, set_contents. rewrite Hids, lookup_insert_eq. cbn.
    rewrite map_app, list_to_set_app_L. cbn. f_equal. set_solver.
  - intros l Hl. unfold set_add. rewrite lookup_insert_ne by done. by apply Hframe.
  - rewrite map_app. cbn. apply NoDup_app. split; [done|]. split.
    + intros x Hx Hx'%list_elem_of_singleton. subst x. set_solver.
    + apply NoDup_singleton.
  - intros x. rewrite map_app, elem_of_app. cbn.
    intros [Hx | Hx%list_elem_of_singleton]; [by apply Hfresh | subst x; set_solver].
  - intros x. rewrite map_app, elem_of_app. cbn.
    intros [Hx | Hx%list_elem_of_singleton]; [by apply Hclean | by subst x].
  - intros l. rewrite elem_of_app.
    intros [Hl | Hl%list_elem_of_singleton]; [by apply Hparent | by subst l].
  - done.
Qed.

Lemma sponsored_first c s :
  sponsored (String c s) = Ascii.eqb c MARKTPLAATS_ADVERTISEMENT_PREFIX.
Proof. done. Qed.

(** One entry: the invariant is kept, whatever the entry and the answer of
    the site, and the count grows by one at most. *)
Lemma item_inv cid r st st' oe :
  inv st → item cid r st = Some (st', oe) →
  inv st' ∧ len (listings st) ≤ len (listings st') ≤ len (listings st) + 1.
Proof.
  intros Hinv. unfold for_res_listing.
  destruct (r_itemId r) as [|c s] eqn:Hid.
  { intros [= <- <-]. split; [done | lia]. }
  destruct (Ascii.eqb c _) eqn:Hsp.
  { intros [= <- <-]. split; [done | lia]. }
  destruct (set_contains _ _ _) eqn:Hknown.
  { intros [= <- <-]. destruct (limit =? listings_count).
    - split; [by apply inv_decrement_max | cbn; lia].
    - split; [done | lia]. }
  destruct (negb _).
  { intros [= <- <-]. split; [done | lia]. }
  destruct (get_listing_details_retry _ _ _ _) as [[clk [d|e]]|]; [| |done].
  - intros [= <- <-]. split.
    + apply inv_accept; [by apply inv_with_clock | by rewrite Hid | | by rewrite Hid].
      by rewrite Hid, sponsored_first.
    + cbn. rewrite len_app. unfold len. cbn. lia.
  - destruct (_ || _)%bool; intros [= <- <-].
    + split; [by apply inv_decrement_max, inv_with_clock | cbn; lia].
    + split; [by apply inv_with_clock | cbn; lia].
Qed.

(** The entries of one page: the count stays within [limit]. *)
Lemma items_inv cid rs st st' oe :
  inv st → len (listings st) ≤ limit → items cid rs st = Some (st', oe) →
  inv st' ∧ len (listings st) ≤ len (listings st') ≤ limit.
Proof.
  revert st. induction rs as [|r rs IH]; intros st Hinv Hlen; cbn [for_res_listings].
  { intros [= <- <-]. split; [done | lia]. }
  destruct (len (listings st) =? limit) eqn:Hfull.
  { intros [= <- <-]. split; [done | lia]. }
  apply Z.eqb_neq in Hfull.
  destruct (item cid r st) as [[st1 [e|]]|] eqn:Hitem; [| |done].
  - intros [= <- <-]. apply item_inv in Hitem as [? ?]; [|done]. split; [done | lia].
  - intros Hrest. apply item_inv in Hitem as [? ?]; [|done].
    apply IH in Hrest as [? ?]; [|done|lia]. split; [done | lia].
Qed.

Lemma page_inv c p st st' pe :
  inv st → len (listings st) ≤ limit → page c p st = Some (st', pe) →
  inv st' ∧ len (listings st) ≤ len (listings st') ≤ limit.
Proof.
  intros Hinv Hlen. unfold try_page.
  destruct (get_url_with_options _ _) as [url|e].
  2:{ intros [= <- <-]. split; [done | lia]. }
  destruct (site_search _ _ _) as [[|r rs]|e].
  - intros [= <- <-]. split; [by apply inv_tick | cbn; lia].
  - destruct (items _ _ _) as [[st1 [e|]]|] eqn:Hitems; [| |done];
      intros [= <- <-]; apply items_inv in Hitems; try done; by apply inv_tick.
  - intros [= <- <-]. split; [by apply inv_tick | cbn; lia].
Qed.

Lemma handle_page_exception_carries acc e e' :
  handle_page_exception acc e = Reraise e' → carries acc (Some e').
Proof.
  destruct e; cbn; try (by intros [= <-]); try done.
  destruct msg as [m|]; [|by intros [= <-]].
  destruct (_ && _)%bool; [done | by intros [= <-]].
Qed.

(** The pages of one category.  The count may stand above [limit] only
    when nothing was accumulated (a negative limit). *)
Lemma pages_inv fuel c p st st' oe :
  inv st → listings st = [] ∨ len (listings st) ≤ limit →
  pages fuel c p st = Some (st', oe) →
  inv st' ∧ (listings st' = [] ∨ len (listings st') ≤ limit)
  ∧ len (listings st) ≤ len (listings st') ∧ carries (listings st') oe.
Proof.
  revert p st. induction fuel as [|fuel IH]; intros p st Hinv Hlen; [done|].
  cbn [while_pages].
  destruct (len (listings st) <? max_listings st) eqn:Hlt.
  2:{ intros [= <- <-]. split_and!; done || lia. }
  apply Z.ltb_lt in Hlt. pose proof (inv_max _ _ _ _ _ _ Hinv) as Hmax.
  destruct (page c p st) as [[st1 pe]|] eqn:Hpage; [|done].
  apply page_inv in Hpage as [Hinv1 Hlen1]; [|done|lia].
  destruct pe as [| |e].
  - intros H. apply IH in H as (? & ? & ? & ?); [|done|right; lia].
    split_and!; done || lia.
  - intros [= <- <-]. split_and!; first [done | lia | right; lia].
  - destruct (handle_page_exception _ e) as [|e'] eqn:Hh.
    + intros H. apply IH in H as (? & ? & ? & ?); [|done|right; lia].
      split_and!; done || lia.
    + intros [= <- <-]. apply handle_page_exception_carries in Hh.
      split_and!; first [done | lia | right; lia].
Qed.

Lemma categories_inv fuel cs st st' oe :
  inv st → listings st = [] ∨ len (listings st) ≤ limit →
  categories fuel cs st = Some (st', oe) →
  inv st' ∧ (listings st' = [] ∨ len (listings st') ≤ limit)
  ∧ carries (listings st') oe.
Proof.
  revert st. induction cs as [|c cs IH]; intros st Hinv Hlen; cbn [for_categories].
  { intros [= <- <-]. by split_and!. }
  destruct (pages fuel c 1 st) as [[st1 [e|]]|] eqn:Hpages; [| |done].
  - intros [= <- <-]. apply pages_inv in Hpages as (? & ? & ? & ?); done.
  - intros H. apply pages_inv in Hpages as (? & ? & ? & ?); [|done..].
    by apply IH in H.
Qed.

End crawl.

(** ** More fuel changes no result *)

Section fuel.

Variables (site : Site) (parent_category : Category) (limit listings_count : Z).
Variables (item_ids : loc) (retries : nat).

Local Abbreviation pages := (while_pages site parent_category limit listings_count item_ids retries).
Local Abbreviation categories := (for_categories site parent_category limit listings_count item_ids retries).
Local Abbreviation page := (try_page site parent_category limit listings_count item_ids retries).
Local Abbreviation reaches := (crawl_reaches site parent_category limit listings_count item_ids retries).
Local Abbreviation rest_of := (resume site parent_category limit listings_count item_ids retries).

Lemma pages_mono fuel fuel' c p st R :
  pages fuel c p st = Some R → (fuel ≤ fuel')%nat → pages fuel' c p st = Some R.
Proof.
  revert fuel' p st. induction fuel as [|fuel IH]; intros fuel' p st; [done|].
  intros H Hle. destruct fuel' as [|fuel']; [lia|].
  cbn [while_pages] in *.
  destruct (len (listings st) <? max_listings st); [|done].
  destruct (page c p st) as [[st1 [| |e]]|]; [| done | | done].
  - apply IH; [done | lia].
  - destruct (handle_page_exception _ e); [|done]. apply IH; [done | lia].
Qed.

Lemma categories_mono fuel fuel' cs st R :
  categories fuel cs st = Some R → (fuel ≤ fuel')%nat → categories fuel' cs st = Some R.
Proof.
  revert st. induction cs as [|c cs IH]; intros st; cbn [for_categories]; [done|].
  intros H Hle.
  destruct (pages fuel c 1 st) as [[st1 oe]|] eqn:Hp; [|done].
  rewrite (pages_mono _ _ _ _ _ _ Hp Hle).
  destruct oe; [done|]. by apply IH.
Qed.

Lemma rest_of_mono fuel fuel' cs p st R :
  rest_of fuel cs p st = Some R → (fuel ≤ fuel')%nat → rest_of fuel' cs p st = Some R.
Proof.
  destruct cs as [|c cs]; cbn [resume]; [done|].
  intros H Hle.
  destruct (pages fuel c p st) as [[st1 oe]|] eqn:Hp; [|done].
  rewrite (pages_mono _ _ _ _ _ _ Hp Hle).
  destruct oe; [done|]. by eapply categories_mono.
Qed.

Lemma rest_of_iteration fuel c cs p st p' st' R :
  pages (S fuel) c p st = pages fuel c p' st' →
  rest_of fuel (c :: cs) p' st' = Some R →
  rest_of (S fuel) (c :: cs) p st = Some R.
Proof.
  intros Hstep. cbn [resume]. rewrite Hstep.
  destruct (pages fuel c p' st') as [[st2 [e|]]|]; [done | | done].
  intros H. apply (categories_mono _ (S fuel)) in H; [done | lia].
Qed.

(** The result of the rest of the crawl from a point the crawl reaches is
    the result of the whole crawl. *)
Lemma reaches_rest_of cats0 st0 cs p st :
  reaches cats0 st0 cs p st →
  ∀ fuel R, rest_of fuel cs p st = Some R →
  ∃ fuel0, ∀ fuel', (fuel0 ≤ fuel')%nat → categories fuel' cats0 st0 = Some R.
Proof.
  induction 1 as [|c cs p st st' Hr IH Hlt Hpage|c cs p st st' e Hr IH Hlt Hpage Hh
                  |c cs p st st' Hr IH Hlt Hpage|c cs p st Hr IH Hge]; intros fuel R HR.
  - exists fuel. intros fuel' Hle.
    destruct cats0 as [|c cs]; cbn [resume] in HR; cbn [for_categories].
    + done.
    + by apply (rest_of_mono _ _ (c :: cs) 1 st0 R HR Hle).
  - apply (IH (S fuel)). apply Z.ltb_lt in Hlt.
    apply (rest_of_iteration _ _ _ _ _ (p + 1) st'); [|done].
    cbn [while_pages]. by rewrite Hlt, Hpage.
  - apply (IH (S fuel)). apply Z.ltb_lt in Hlt.
    apply (rest_of_iteration _ _ _ _ _ p st'); [|done].
    cbn [while_pages]. by rewrite Hlt, Hpage, Hh.
  - apply (IH (S fuel)). apply Z.ltb_lt in Hlt.
    cbn [resume while_pages]. rewrite Hlt, Hpage.
    destruct cs as [|c' cs]; [done|].
    apply (rest_of_mono _ (S fuel)) in HR; [done | lia].
  - apply (IH (S fuel)). apply Z.ltb_ge in Hge.
    cbn [resume while_pages]. rewrite Hge.
    destruct cs as [|c' cs]; [done|].
    apply (rest_of_mono _ (S fuel)) in HR; [done | lia].
Qed.

End fuel.

(** ** The whole call *)

Section call.

Variables (site : Site) (parent_category : Category) (limit : Z).
Variables (existing_item_ids : option loc) (h : heap) (retries : nat).

Local Abbreviation excl := (excluded existing_item_ids h).
Local Abbreviation own := (own_item_ids h).

Lemma own_item_ids_fresh l : is_Some (h !! l) → l ≠ own.
Proof.
  intros Hl%elem_of_dom ->. by apply (is_fresh (dom h)).
Qed.

Lemma initial_inv lim :
  crawl_inv parent_category lim own h excl (initial_state lim existing_item_ids h).
Proof.
  split; cbn.
  - rewrite lookup_insert_eq. f_equal. set_solver.
  - intros l Hl. by rewrite lookup_insert_ne.
  - constructor.
  - by intros x Hx%elem_of_nil.
  - by intros x Hx%elem_of_nil.
  - by intros x Hx%elem_of_nil.
  - lia.
Qed.

Lemma own_set_allocated :
  match existing_item_ids with
  | Some l => set_copy l h
  | None => set_alloc ∅ h
  end = (own, <[own := excluded existing_item_ids h]> h).
Proof. by destruct existing_item_ids. Qed.

(** The call, once the count and the subcategories are read, is the crawl
    of the targets from the initial state. *)
Lemma get_listings_run_crawl fuel count subs :
  site_listings_count site parent_category = Ok count →
  site_subcategories site parent_category = Ok subs →
  get_listings_run retries fuel site parent_category limit existing_item_ids h
  = match for_categories site parent_category (resolve_limit limit count) count own
                         retries fuel (targets parent_category subs)
                         (initial_state (resolve_limit limit count) existing_item_ids h) with
    | None => None
    | Some (st', Some e) => Some (Raise e, st')
    | Some (st', None) => Some (Ok (listings st'), st')
    end.
Proof.
  intros Hcount Hsubs. unfold get_listings_run.
  rewrite own_set_allocated, Hcount, Hsubs. reflexivity.
Qed.

(** A state in which nothing was accumulated satisfies all that is said of
    the accumulated listings. *)
Lemma nothing_accumulated st :
  listings st = [] →
  NoDup (map item_id (listings st))
  ∧ (∀ x, x ∈ map item_id (listings st) →
       (x ∉ excluded existing_item_ids h) ∧ x ≠ "" ∧ sponsored x = false)
  ∧ (∀ l, l ∈ listings st → parent_category_id l = cat_id parent_category).
Proof.
  intros ->. split_and!; [constructor | by intros x Hx%elem_of_nil..].
Qed.

Lemma get_listings_run_sound fuel o st :
  get_listings_run retries fuel site parent_category limit existing_item_ids h
  = Some (o, st) →
  (∀ l, l ≠ own → heap_of st !! l = h !! l)
  ∧ (NoDup (map item_id (listings st))
     ∧ (∀ x, x ∈ map item_id (listings st) →
          (x ∉ excluded existing_item_ids h) ∧ x ≠ "" ∧ sponsored x = false)
     ∧ (∀ l, l ∈ listings st → parent_category_id l = cat_id parent_category))
  ∧ (∀ ls, o = Ok ls → ls = listings st)
  ∧ (∀ count, site_listings_count site parent_category = Ok count →
       len (listings st) ≤ Z.max 0 (resolve_limit limit count)
       ∧ max_listings st ≤ resolve_limit limit count
       ∧ partial_results (listings st) o).
Proof.
  destruct (site_listings_count site parent_category) as [count|e] eqn:Hcount.
  2:{ unfold get_listings_run. rewrite own_set_allocated, Hcount.
      intros [= <- <-].
      refine (conj _ (conj _ (conj _ _)));
        [intros l' Hl'; by apply lookup_insert_ne
        | by apply nothing_accumulated | done | done]. }
  destruct (site_subcategories site parent_category) as [subs|e] eqn:Hsubs.
  2:{ unfold get_listings_run. rewrite own_set_allocated, Hcount, Hsubs.
      destruct (isinstance_Exception e) eqn:He; intros [= <- <-];
        (refine (conj _ (conj _ (conj _ _)));
         [intros l' Hl'; by apply lookup_insert_ne
         | by apply nothing_accumulated | done |]);
        intros ? [= <-]; unfold len; cbn; (split_and!; [lia | lia |]); try done;
        by destruct e. }
  rewrite (get_listings_run_crawl _ _ _ Hcount Hsubs).
  destruct (for_categories _ _ _ _ _ _ _ _ _) as [[st' oe]|] eqn:Hcrawl; [|done].
  apply categories_inv with (h0 := h) (excl := excluded existing_item_ids h) in Hcrawl
    as ([Hids Hframe Hnd Hfresh Hclean Hparent Hmax] & Hlen & Hcar);
    [|apply initial_inv | by left].
  assert (len (listings st') ≤ Z.max 0 (resolve_limit limit count)) as Hbound.
  { destruct Hlen as [-> | ?]; [unfold len; cbn|]; lia. }
  assert (∀ x, x ∈ map item_id (listings st') →
            (x ∉ excluded existing_item_ids h) ∧ x ≠ "" ∧ sponsored x = false) as Hx.
  { intros x Hx. split; [by apply Hfresh | by apply Hclean]. }
  destruct oe as [e|]; intros [= <- <-].
  - refine (conj _ (conj _ (conj _ _))); [done | done | done |].
    intros ? [= <-]. split_and!; [done | done |]. by destruct e.
  - refine (conj _ (conj _ (conj _ _))); [done | done | by intros ls [= <-] |].
    intros ? [= <-]. by split_and!.
Qed.

End call.

(** ** Entries one after the other *)

Section entries.

Variables (site : Site) (parent_category : Category) (limit listings_count : Z).
Variables (item_ids : loc) (retries : nat).

Local Abbreviation item := (for_res_listing site parent_category limit listings_count item_ids retries).
Local Abbreviation items := (for_res_listings site parent_category limit listings_count item_ids retries).
Local Abbreviation page := (try_page site parent_category limit listings_count item_ids retries).
Local Abbreviation pages := (while_pages site parent_category limit listings_count item_ids retries).
Local Abbreviation rest_of := (resume site parent_category limit listings_count item_ids retries).

(** Once the count is at the limit no entry is looked at. *)
Lemma items_full cid rs st :
  len (listings st) = limit → items cid rs st = Some (st, None).
Proof.
  intros Hfull. destruct rs as [|r rs]; [done|].
  cbn [for_res_listings]. by rewrite (proj2 (Z.eqb_eq _ _) Hfull).
Qed.

Lemma items_app cid pre rs st :
  items cid (pre ++ rs)%list st
  = match items cid pre st with
    | Some (st1, None) => items cid rs st1
    | r => r
    end.
Proof.
  revert st. induction pre as [|r0 pre IH]; intros st; [done|].
  cbn [for_res_listings app].
  destruct (len (listings st) =? limit) eqn:Hfull.
  { apply Z.eqb_eq in Hfull. by rewrite items_full. }
  destruct (item cid r0 st) as [[st1 [e|]]|]; [done | apply IH | done].
Qed.

(** An exception raised by an entry ends the crawl with what the handlers
    of the page loop make of it. *)
Lemma entry_raises_rest_of c cs p st url pre r post st1 st2 e e' :
  len (listings st) < max_listings st →
  get_url_with_options (cat_url c) p = Ok url →
  site_search site (clock st) url = Ok (pre ++ r :: post)%list →
  items (cat_id c) pre (tick st) = Some (st1, None) →
  len (listings st1) ≠ limit →
  item (cat_id c) r st1 = Some (st2, Some e) →
  handle_page_exception (listings st2) e = Reraise e' →
  rest_of 1 (c :: cs) p st = Some (st2, Some e').
Proof.
  intros Hlt%Z.ltb_lt Hurl Hsearch Hpre Hroom%Z.eqb_neq Hitem Hh.
  cbn [resume while_pages]. rewrite Hlt. unfold try_page. rewrite Hurl, Hsearch.
  assert (items (cat_id c) (pre ++ r :: post)%list (tick st) = Some (st2, Some e)) as ->.
  { rewrite items_app, Hpre. cbn [for_res_listings]. by rewrite Hroom, Hitem. }
  destruct (pre ++ r :: post)%list as [|? ?] eqn:Happ; [by destruct pre|].
  by rewrite Hh.
Qed.

End entries.

(** ** The entries of a page and [max_listings] *)

Section page_ignores_max.

Variables (site : Site) (parent_category : Category) (limit listings_count : Z).
Variables (item_ids : loc) (retries : nat).

Local Abbreviation item := (for_res_listing site parent_category limit listings_count item_ids retries).
Local Abbreviation items := (for_res_listings site parent_category limit listings_count item_ids retries).

Lemma item_ignores_max cid r st m st1 oe :
  item cid r st = Some (st1, oe) →
  item cid r (with_max_listings st m)
  = Some (with_max_listings st1 (max_listings st1 - max_listings st + m), oe).
Proof.
  unfold for_res_listing. cbn [with_max_listings heap_of clock listings].
  destruct (r_itemId r) as [|c s].
  { intros [= <- <-]. do 2 f_equal. unfold with_max_listings. f_equal. lia. }
  destruct (Ascii.eqb c _).
  { intros [= <- <-]. do 2 f_equal. unfold with_max_listings. f_equal. lia. }
  destruct (set_contains _ _ _).
  { destruct (limit =? listings_count); intros [= <- <-]; do 2 f_equal;
      unfold with_max_listings, decrement_max; cbn; f_equal; lia. }
  destruct (negb _).
  { intros [= <- <-]. do 2 f_equal. unfold with_max_listings. f_equal. lia. }
  destruct (get_listing_details_retry _ _ _ _) as [[clk [d|e]]|]; [| |done].
  - intros [= <- <-]. do 2 f_equal.
    unfold with_max_listings, accept, with_clock. cbn. f_equal. lia.
  - destruct (_ || _)%bool; intros [= <- <-]; do 2 f_equal;
      unfold with_max_listings, decrement_max, with_clock; cbn; f_equal; lia.
Qed.

(** The loop over the entries of a page does not read [max_listings]: run
    with another value of it, the loop does the same, and lowers that
    value as much. *)
Lemma items_ignore_max cid rs st m st1 oe :
  items cid rs st = Some (st1, oe) →
  items cid rs (with_max_listings st m)
  = Some (with_max_listings st1 (max_listings st1 - max_listings st + m), oe).
Proof.
  revert st m. induction rs as [|r rs IH]; intros st m; cbn [for_res_listings].
  { intros [= <- <-]. do 2 f_equal. unfold with_max_listings. f_equal. lia. }
  cbn [with_max_listings listings]. destruct (len (listings st) =? limit).
  { intros [= <- <-]. do 2 f_equal. unfold with_max_listings. f_equal. lia. }
  destruct (item cid r st) as [[st2 oe2]|] eqn:Hitem; [|done].
  rewrite (item_ignores_max _ _ _ m _ _ Hitem).
  destruct oe2 as [e|]; [by intros [= <- <-]|].
  intros Hrest. rewrite (IH _ (max_listings st2 - max_listings st + m) Hrest).
  do 2 f_equal. unfold with_max_listings. cbn. f_equal. lia.
Qed.

(** An entry that passes the checks is accepted as long as the count is
    not [limit]; [max_listings] is not asked. *)
Lemma items_accept cid r rs st clk d :
  len (listings st) ≠ limit →
  r_itemId r ≠ "" → sponsored (r_itemId r) = false →
  set_contains (heap_of st) item_ids (r_itemId r) = false →
  r_categoryId r = cid →
  get_listing_details_retry site retries (MARTKPLAATS_BASE_URL ++ r_vipUrl r) (clock st)
  = Some (clk, Ok d) →
  items cid (r :: rs) st
  = items cid rs (accept item_ids
                    (make_listing parent_category r d (get_utc_now (site_now site clk)))
                    (with_clock st clk)).
Proof.
  intros Hroom%Z.eqb_neq Hne Hsp Hnew Hcat%Z.eqb_eq Hread.
  cbn [for_res_listings]. rewrite Hroom. unfold for_res_listing.
  destruct (r_itemId r) as [|c s] eqn:Hid; [done|].
  rewrite sponsored_first in Hsp. rewrite Hsp, Hnew, Hcat. cbn [negb].
  by rewrite Hread.
Qed.

End page_ignores_max.

Section reaches_inv.

Variables (site : Site) (parent_category : Category) (limit listings_count : Z).
Variables (item_ids : loc) (retries : nat).
Variables (h0 : heap) (excl : gset string).

Local Abbreviation inv := (crawl_inv parent_category limit item_ids h0 excl).
Local Abbreviation reaches := (crawl_reaches site parent_category limit listings_count item_ids retries).

(** What holds along the crawl holds at every point the crawl reaches. *)
Lemma reaches_inv cats0 st0 cs p st :
  reaches cats0 st0 cs p st →
  inv st0 → listings st0 = [] ∨ len (listings st0) ≤ limit →
  inv st ∧ (listings st = [] ∨ len (listings st) ≤ limit).
Proof.
  induction 1 as [|c cs p st st' Hr IH Hlt Hpage|c cs p st st' e Hr IH Hlt Hpage Hh
                  |c cs p st st' Hr IH Hlt Hpage|c cs p st Hr IH Hge]; intros Hinv0 Hlen0;
    [done| | | |by apply IH].
  all: destruct (IH Hinv0 Hlen0) as [Hinv _].
  all: pose proof (inv_max _ _ _ _ _ _ Hinv) as Hmax.
  all: apply (page_inv _ _ _ _ _ _ h0 excl) in Hpage as [Hinv' Hlen']; [|done|].
  all: try lia.
  all: split; [done | right; lia].
Qed.

End reaches_inv.

(** ** The claims about [get_listings] *)

(** C9. A call leaves the set the caller passed as it was, whether it
    returns or raises: it only writes to the copy it made. *)
Theorem get_listings_keeps_callers_set (retries fuel : nat) (site : Site)
    (parent_category : Category) (limit : Z) (l : loc) (h : heap)
    (r : outcome (list Listing)) (h' : heap) :
  is_Some (h !! l) →
  get_listings retries fuel site parent_category limit (Some l) h = Some (r, h') →
  h' !! l = h !! l.
Proof.
  intros Hl. unfold get_listings.
  destruct (get_listings_run _ _ _ _ _ _ _) as [[o st]|] eqn:Hrun; [|done].
  intros [= <- <-].
  apply get_listings_run_sound in Hrun as (Hframe & _).
  by apply Hframe, own_item_ids_fresh.
Qed.

Lemma get_listings_keeps_callers_set_witness :
  ∃ r h', get_listings 1 5 Examples.site_two_pages Examples.computers 3
            (Some Examples.callers_set) Examples.callers_heap = Some (r, h')
          ∧ h' !! Examples.callers_set = Examples.callers_heap !! Examples.callers_set.
Proof.
  destruct (get_listings 1 5 Examples.site_two_pages Examples.computers 3
              (Some Examples.callers_set) Examples.callers_heap)
    as [[r h']|] eqn:Hrun; [|by vm_compute in Hrun].
  exists r, h'. split; [reflexivity|].
  apply (get_listings_keeps_callers_set 1 5 Examples.site_two_pages
           Examples.computers 3 Examples.callers_set Examples.callers_heap r h');
    [by exists {[ "m2" ]} | exact Hrun].
Defined.

(** C2. An entry that is skipped because its id is already known lowers
    [max_listings] by one when the resolved limit is the listing count of
    the category, and leaves it as it is otherwise; the resolved limit is
    the listing count exactly when the caller gave no cap (0) or one that
    is not below the count, so a cap strictly below the count leaves
    [max_listings] as it is.  Nothing else changes. *)
Theorem known_entry_skip (site : Site) (parent_category : Category)
    (requested listings_count : Z) (item_ids : loc) (retries : nat)
    (category_id : Z) (r : RawListing) (st : State) :
  r_itemId r ≠ "" → sponsored (r_itemId r) = false →
  set_contains (heap_of st) item_ids (r_itemId r) = true →
  let limit := resolve_limit requested listings_count in
  ∃ st', for_res_listing site parent_category limit listings_count item_ids retries
                         category_id r st = Some (st', None)
         ∧ listings st' = listings st ∧ heap_of st' = heap_of st
         ∧ (limit = listings_count → max_listings st' = max_listings st - 1)
         ∧ (limit ≠ listings_count → max_listings st' = max_listings st)
         ∧ (limit = listings_count ↔ requested = 0 ∨ listings_count ≤ requested)
         ∧ (requested ≠ 0 → requested < listings_count →
            max_listings st' = max_listings st).
Proof.
  intros Hne Hsp Hknown limit.
  assert (limit = listings_count ↔ requested = 0 ∨ listings_count ≤ requested) as Hmode.
  { unfold limit, resolve_limit.
    destruct (listings_count <? requested) eqn:H1; [apply Z.ltb_lt in H1; cbn; lia|].
    apply Z.ltb_ge in H1.
    destruct (requested =? 0) eqn:H2; cbn; [apply Z.eqb_eq in H2 | apply Z.eqb_neq in H2];
      lia. }
  unfold for_res_listing. destruct (r_itemId r) as [|c s] eqn:Hid; [done|].
  rewrite sponsored_first in Hsp. rewrite Hsp, Hknown.
  destruct (limit =? listings_count) eqn:Hcap;
    [apply Z.eqb_eq in Hcap | apply Z.eqb_neq in Hcap]; eexists; split_and!;
    try reflexivity; try done; intros; try done; lia.
Qed.

Lemma known_entry_skip_witness :
  ∃ st', for_res_listing Examples.site_two_pages Examples.computers
           (resolve_limit 0 10) 10 Examples.callers_set 1 322
           (Examples.entry "m2" 322)
           {| listings := []; heap_of := Examples.callers_heap;
              max_listings := 10; clock := 0 |} = Some (st', None)
         ∧ max_listings st' = 9.
Proof.
  destruct (known_entry_skip Examples.site_two_pages Examples.computers 0 10
              Examples.callers_set 1 322 (Examples.entry "m2" 322)
              {| listings := []; heap_of := Examples.callers_heap;
                 max_listings := 10; clock := 0 |})
    as (st' & Hstep & _ & _ & Hdec & _); [done | reflexivity | reflexivity |].
  exists st'. split; [exact Hstep|]. rewrite Hdec; reflexivity.
Defined.

(** The counterexample to C3: with a limit of 2 and a first entry whose
    details cannot be read, [max_listings] falls to 1 and two more entries
    of the same page are accepted all the same. *)
Lemma accepted_beyond_max_listings :
  ∃ ls st, get_listings_run 1 5 Examples.site_one_broken Examples.computers 2 None ∅
           = Some (Ok ls, st)
           ∧ map item_id ls = ["m2"; "m3"]
           ∧ max_listings st = 1
           ∧ max_listings st < len ls.
Proof.
  destruct (get_listings_run 1 5 Examples.site_one_broken Examples.computers 2 None ∅)
    as [[[ls|e] st]|] eqn:Hrun; try (by vm_compute in Hrun).
  exists ls, st. split; [reflexivity|].
  revert Hrun. vm_compute. intros [= <- <-]. by split_and!.
Qed.

(** C3, as the code has it.  The accumulated count never exceeds the
    limit resolved at the start of the call, or 0 when that limit is
    negative: no entry is looked at once the count equals the resolved
    limit.  [max_listings], which skips and failures decrement, never
    exceeds the resolved limit, at the end of the call and at every point
    the crawl reaches, and it is tested before each page only: no
    page is requested once the count has reached it, but the loop over
    the entries of a page does not read it.  Within a page an entry that
    passes the checks is accepted whenever the count differs from the
    resolved limit, also when the count has reached [max_listings]; and
    run with another value of [max_listings], the loop over the entries
    does the same and lowers that value as much. *)
Theorem accumulation_stops_at_limit (retries fuel : nat) (site : Site)
    (parent_category : Category) (limit : Z) (existing_item_ids : option loc)
    (h : heap) (o : outcome (list Listing)) (st : State) (listings_count : Z) :
  site_listings_count site parent_category = Ok listings_count →
  get_listings_run retries fuel site parent_category limit existing_item_ids h
  = Some (o, st) →
  let resolved := resolve_limit limit listings_count in
  len (listings st) ≤ Z.max 0 resolved
  ∧ max_listings st ≤ resolved
  ∧ (∀ ls, o = Ok ls → ls = listings st)
  ∧ partial_results (listings st) o
  ∧ (∀ item_ids category_id rs st0,
       len (listings st0) = resolved →
       for_res_listings site parent_category resolved listings_count item_ids retries
                        category_id rs st0 = Some (st0, None))
  ∧ (∀ item_ids n c p st0,
       max_listings st0 ≤ len (listings st0) →
       while_pages site parent_category resolved listings_count item_ids retries
                   (S n) c p st0 = Some (st0, None))
  ∧ (∀ item_ids category_id r rs st0 clk d,
       len (listings st0) ≠ resolved →
       r_itemId r ≠ "" → sponsored (r_itemId r) = false →
       set_contains (heap_of st0) item_ids (r_itemId r) = false →
       r_categoryId r = category_id →
       get_listing_details_retry site retries (MARTKPLAATS_BASE_URL ++ r_vipUrl r)
                                 (clock st0) = Some (clk, Ok d) →
       for_res_listings site parent_category resolved listings_count item_ids retries
                        category_id (r :: rs) st0
       = for_res_listings site parent_category resolved listings_count item_ids retries
           category_id rs
           (accept item_ids
              (make_listing parent_category r d (get_utc_now (site_now site clk)))
              (with_clock st0 clk)))
  ∧ (∀ item_ids category_id rs st0 m st1 oe,
       for_res_listings site parent_category resolved listings_count item_ids retries
                        category_id rs st0 = Some (st1, oe) →
       for_res_listings site parent_category resolved listings_count item_ids retries
                        category_id rs (with_max_listings st0 m)
       = Some (with_max_listings st1 (max_listings st1 - max_listings st0 + m), oe))
  ∧ (∀ subs cs p st0,
       site_subcategories site parent_category = Ok subs →
       crawl_reaches site parent_category resolved listings_count (own_item_ids h)
                     retries (targets parent_category subs)
                     (initial_state resolved existing_item_ids h) cs p st0 →
       len (listings st0) ≤ Z.max 0 resolved ∧ max_listings st0 ≤ resolved).
Proof.
  intros Hcount Hrun resolved.
  apply get_listings_run_sound in Hrun as (_ & _ & Hok & Hbounds).
  destruct (Hbounds _ Hcount) as (Hlen & Hmax & Hpartial).
  split_and!; [done..| | | | |].
  - intros. by apply items_full.
  - intros item_ids n c p st0 Hge. cbn [while_pages].
    by rewrite (proj2 (Z.ltb_ge _ _) Hge).
  - intros. by apply items_accept.
  - intros. by apply items_ignore_max.
  - intros subs cs p st0 _ Hreach.
    apply (reaches_inv _ _ _ _ _ _ h (excluded existing_item_ids h)) in Hreach
      as [Hinv Hlen0]; [|apply initial_inv | by left].
    split; [|by apply (inv_max _ _ _ _ _ _ Hinv)].
    destruct Hlen0 as [-> | ?]; [unfold len; cbn|]; lia.
Qed.

Lemma accumulation_stops_at_limit_witness :
  ∃ o st, get_listings_run 1 5 Examples.site_one_broken Examples.computers 2 None ∅
          = Some (o, st)
          ∧ len (listings st) ≤ Z.max 0 (resolve_limit 2 10).
Proof.
  destruct (get_listings_run 1 5 Examples.site_one_broken Examples.computers 2 None ∅)
    as [[o st]|] eqn:Hrun; [|by vm_compute in Hrun].
  exists o, st. split; [reflexivity|].
  apply (accumulation_stops_at_limit 1 5 Examples.site_one_broken Examples.computers
           2 None ∅ o st 10); [reflexivity | exact Hrun].
Defined.

(** The counterexample to C7: on a home page without categories
    [get_parent_categories] returns the empty set; it raises nothing. *)
Lemma get_parent_categories_returns_empty :
  get_parent_categories py_int MARTKPLAATS_BASE_URL Examples.site_two_pages = Ok ∅
  ∧ get_parent_categories py_int MARTKPLAATS_BASE_URL Examples.site_two_pages
    ≠ Raise CategoriesError.
Proof. split; [reflexivity | discriminate]. Qed.

(** An exception raised by an entry at a point the crawl of a call reaches
    ends the call, given fuel enough to come to that point. *)
Lemma entry_raises_run (site : Site) (parent_category : Category) (limit : Z)
    (existing_item_ids : option loc) (h : heap) (retries : nat)
    (listings_count : Z) (subs : list Category) (c : Category) (cs : list Category)
    (p : Z) (st : State) (url : string) (pre : list RawListing) (r : RawListing)
    (post : list RawListing) (st1 st2 : State) (e e' : exn) :
  site_listings_count site parent_category = Ok listings_count →
  site_subcategories site parent_category = Ok subs →
  let resolved := resolve_limit limit listings_count in
  let own := own_item_ids h in
  crawl_reaches site parent_category resolved listings_count own retries
                (targets parent_category subs)
                (initial_state resolved existing_item_ids h) (c :: cs) p st →
  len (listings st) < max_listings st →
  get_url_with_options (cat_url c) p = Ok url →
  site_search site (clock st) url = Ok (pre ++ r :: post)%list →
  for_res_listings site parent_category resolved listings_count own retries
                   (cat_id c) pre (tick st) = Some (st1, None) →
  len (listings st1) ≠ resolved →
  for_res_listing site parent_category resolved listings_count own retries
                  (cat_id c) r st1 = Some (st2, Some e) →
  handle_page_exception (listings st2) e = Reraise e' →
  ∃ fuel0, ∀ fuel, (fuel0 ≤ fuel)%nat →
    get_listings_run retries fuel site parent_category limit existing_item_ids h
    = Some (Raise e', st2).
Proof.
  intros Hcount Hsubs resolved own Hreach Hlt Hurl Hsearch Hpre Hroom Hitem Hh.
  pose proof (entry_raises_rest_of _ _ _ _ _ _ _ cs _ _ _ _ _ _ _ _ _ _
                Hlt Hurl Hsearch Hpre Hroom Hitem Hh) as Hrest.
  destruct (reaches_rest_of _ _ _ _ _ _ _ _ _ _ _ Hreach _ _ Hrest) as [fuel0 Hfuel].
  exists fuel0. intros fuel Hle.
  rewrite (get_listings_run_crawl _ _ _ _ _ _ _ _ _ Hcount Hsubs).
  fold resolved own. by rewrite (Hfuel fuel Hle).
Qed.

(** C4. When the crawl of a call comes to an entry that is neither
    sponsored nor known and that reports another category than the one
    being crawled, the call ends there: it raises [ListingsError] with the
    listings accumulated before that entry, and accumulates nothing
    more. *)
Theorem unexpected_category_aborts (site : Site) (parent_category : Category)
    (limit : Z) (existing_item_ids : option loc) (h : heap) (retries : nat)
    (listings_count : Z) (subs : list Category) (c : Category) (cs : list Category)
    (p : Z) (st : State) (url : string) (pre : list RawListing) (r : RawListing)
    (post : list RawListing) (st1 : State) :
  site_listings_count site parent_category = Ok listings_count →
  site_subcategories site parent_category = Ok subs →
  let resolved := resolve_limit limit listings_count in
  let own := own_item_ids h in
  crawl_reaches site parent_category resolved listings_count own retries
                (targets parent_category subs)
                (initial_state resolved existing_item_ids h) (c :: cs) p st →
  len (listings st) < max_listings st →
  get_url_with_options (cat_url c) p = Ok url →
  site_search site (clock st) url = Ok (pre ++ r :: post)%list →
  for_res_listings site parent_category resolved listings_count own retries
                   (cat_id c) pre (tick st) = Some (st1, None) →
  len (listings st1) ≠ resolved →
  r_itemId r ≠ "" → sponsored (r_itemId r) = false →
  set_contains (heap_of st1) own (r_itemId r) = false →
  r_categoryId r ≠ cat_id c →
  for_res_listing site parent_category resolved listings_count own retries
                  (cat_id c) r st1
  = Some (st1, Some (UnexpectedCategoryId (r_categoryId r) (cat_id c)))
  ∧ ∃ fuel0, ∀ fuel, (fuel0 ≤ fuel)%nat →
      get_listings_run retries fuel site parent_category limit existing_item_ids h
      = Some (Raise (ListingsError (listings st1)), st1).
Proof.
  intros Hcount Hsubs resolved own Hreach Hlt Hurl Hsearch Hpre Hroom
    Hne Hsp Hnew Hcat.
  assert (for_res_listing site parent_category resolved listings_count own retries
            (cat_id c) r st1
          = Some (st1, Some (UnexpectedCategoryId (r_categoryId r) (cat_id c))))
    as Hitem.
  { unfold for_res_listing. destruct (r_itemId r) as [|a s] eqn:Hid; [done|].
    rewrite sponsored_first in Hsp. rewrite Hsp, Hnew.
    by rewrite (proj2 (Z.eqb_neq _ _) Hcat). }
  split; [done|].
  by apply (entry_raises_run _ _ _ _ _ _ _ _ _ _ _ _ _ _ _ _ _ _ _ _
              Hcount Hsubs Hreach Hlt Hurl Hsearch Hpre Hroom Hitem).
Qed.

(** C10. An entry with an empty id is not skipped: reading the first
    character of the id raises [IndexError]; when the crawl of a call
    comes to such an entry the call ends there, raising [ListingsError]
    with the listings accumulated before that entry. *)
Theorem empty_item_id_aborts (site : Site) (parent_category : Category)
    (limit : Z) (existing_item_ids : option loc) (h : heap) (retries : nat)
    (listings_count : Z) (subs : list Category) (c : Category) (cs : list Category)
    (p : Z) (st : State) (url : string) (pre : list RawListing) (r : RawListing)
    (post : list RawListing) (st1 : State) :
  site_listings_count site parent_category = Ok listings_count →
  site_subcategories site parent_category = Ok subs →
  let resolved := resolve_limit limit listings_count in
  let own := own_item_ids h in
  crawl_reaches site parent_category resolved listings_count own retries
                (targets parent_category subs)
                (initial_state resolved existing_item_ids h) (c :: cs) p st →
  len (listings st) < max_listings st →
  get_url_with_options (cat_url c) p = Ok url →
  site_search site (clock st) url = Ok (pre ++ r :: post)%list →
  for_res_listings site parent_category resolved listings_count own retries
                   (cat_id c) pre (tick st) = Some (st1, None) →
  len (listings st1) ≠ resolved →
  r_itemId r = "" →
  for_res_listing site parent_category resolved listings_count own retries
                  (cat_id c) r st1 = Some (st1, Some IndexError)
  ∧ ∃ fuel0, ∀ fuel, (fuel0 ≤ fuel)%nat →
      get_listings_run retries fuel site parent_category limit existing_item_ids h
      = Some (Raise (ListingsError (listings st1)), st1).
Proof.
  intros Hcount Hsubs resolved own Hreach Hlt Hurl Hsearch Hpre Hroom Hid.
  assert (for_res_listing site parent_category resolved listings_count own retries
            (cat_id c) r st1 = Some (st1, Some IndexError)) as Hitem.
  { unfold for_res_listing. by rewrite Hid. }
  split; [done|].
  by apply (entry_raises_run _ _ _ _ _ _ _ _ _ _ _ _ _ _ _ _ _ _ _ _
              Hcount Hsubs Hreach Hlt Hurl Hsearch Hpre Hroom Hitem).
Qed.

Lemma unexpected_category_aborts_witness :
  ∃ fuel0 ls st,
    (∀ fuel, (fuel0 ≤ fuel)%nat →
       get_listings_run 1 fuel Examples.site_wrong_category Examples.computers 2 None ∅
       = Some (Raise (ListingsError ls), st))
    ∧ map item_id ls = ["m1"].
Proof.
  destruct (unexpected_category_aborts Examples.site_wrong_category Examples.computers
              2 None ∅ 1 10 [] Examples.computers [] 1
              (initial_state 2 None ∅) Examples.first_page
              [Examples.entry "m1" 322] (Examples.entry "m2" 999)
              [Examples.entry "m3" 322]
              (Examples.state_after Examples.site_wrong_category [Examples.entry "m1" 322]))
    as [_ [fuel0 Hrun]].
  - reflexivity.
  - reflexivity.
  - apply reach_start.
  - reflexivity.
  - reflexivity.
  - reflexivity.
  - vm_compute. reflexivity.
  - vm_compute. discriminate.
  - discriminate.
  - reflexivity.
  - vm_compute. reflexivity.
  - vm_compute. discriminate.
  - exists fuel0. eexists. eexists. split; [exact Hrun|]. vm_compute. reflexivity.
Defined.

Lemma empty_item_id_aborts_witness :
  ∃ fuel0 ls st,
    (∀ fuel, (fuel0 ≤ fuel)%nat →
       get_listings_run 1 fuel Examples.site_empty_id Examples.computers 2 None ∅
       = Some (Raise (ListingsError ls), st))
    ∧ map item_id ls = ["m1"].
Proof.
  destruct (empty_item_id_aborts Examples.site_empty_id Examples.computers
              2 None ∅ 1 10 [] Examples.computers [] 1
              (initial_state 2 None ∅) Examples.first_page
              [Examples.entry "m1" 322] (Examples.entry "" 322)
              [Examples.entry "m3" 322]
              (Examples.state_after Examples.site_empty_id [Examples.entry "m1" 322]))
    as [_ [fuel0 Hrun]].
  - reflexivity.
  - reflexivity.
  - apply reach_start.
  - reflexivity.
  - reflexivity.
  - reflexivity.
  - vm_compute. reflexivity.
  - vm_compute. discriminate.
  - reflexivity.
  - exists fuel0. eexists. eexists. split; [exact Hrun|]. vm_compute. reflexivity.
Defined.

(** ** What a crawl without fault accumulates *)

Section select.

Implicit Types (known : gset string) (rs : list RawListing) (r : RawListing).

Lemma select_nil known n : select known n [] = [].
Proof. by destruct n. Qed.

Lemma select_full known rs : select known 0 rs = [].
Proof. by destruct rs. Qed.

Lemma plain_ids_cons r rs :
  plain_ids (r :: rs)
  = if sponsored (r_itemId r) then plain_ids rs else r_itemId r :: plain_ids rs.
Proof.
  unfold plain_ids. cbn [map]. rewrite filter_cons.
  destruct (sponsored (r_itemId r)); by case_decide.
Qed.

Lemma plain_ids_app rs1 rs2 :
  plain_ids (rs1 ++ rs2)%list = (plain_ids rs1 ++ plain_ids rs2)%list.
Proof. unfold plain_ids. by rewrite map_app, filter_app. Qed.

(** The ids selected are among the ids that are not sponsored. *)
Lemma select_plain known n rs x :
  x ∈ map r_itemId (select known n rs) → x ∈ plain_ids rs ∧ x ∉ known.
Proof.
  revert known n. induction rs as [|r rs IH]; intros known n.
  { rewrite select_nil. by intros ?%elem_of_nil. }
  destruct n as [|n]; [by intros ?%elem_of_nil|].
  cbn [select]. rewrite plain_ids_cons.
  destruct (sponsored (r_itemId r)) eqn:Hsp; cbn [orb].
  { apply IH. }
  destruct (bool_decide (r_itemId r ∈ known)) eqn:Hk.
  { intros [? ?]%IH. split; [by right | done]. }
  apply bool_decide_eq_false in Hk. cbn [map].
  intros [->|Hx]%elem_of_cons; [split; [by left | done]|].
  apply IH in Hx as [? ?]. split; [by right | set_solver].
Qed.

Lemma select_length_le known n rs : (length (select known n rs) ≤ n)%nat.
Proof.
  revert known n. induction rs as [|r rs IH]; intros known n.
  { rewrite select_nil. cbn. lia. }
  destruct n as [|n]; [done|]. cbn [select].
  destruct (_ || _)%bool; [apply IH|]. cbn. specialize (IH ({[r_itemId r]} ∪ known) n). lia.
Qed.

(** Selecting out of two lists in a row. *)
Lemma select_app known n rs1 rs2 :
  select known n (rs1 ++ rs2)%list
  = (select known n rs1
     ++ select (known ∪ list_to_set (map r_itemId (select known n rs1)))
               (n - length (select known n rs1)) rs2)%list.
Proof.
  revert known n. induction rs1 as [|r rs1 IH]; intros known n.
  { rewrite select_nil. cbn. f_equal; [set_solver | lia]. }
  destruct n as [|n]; [by rewrite !select_full|]. cbn [select app].
  destruct (_ || _)%bool; [apply IH|].
  cbn [app map length list_to_set]. rewrite IH. do 3 f_equal. set_solver.
Qed.

(** As many entries are selected as are wanted, if that many fresh ids are
    on offer. *)
Lemma select_length known n rs :
  length (select known n rs) = (n `min` size (fresh_ids known rs))%nat.
Proof.
  revert known n. induction rs as [|r rs IH]; intros known n.
  { rewrite select_nil. unfold fresh_ids, plain_ids. cbn.
    replace (∅ ∖ known) with (∅ : gset string) by set_solver.
    rewrite size_empty. lia. }
  destruct n as [|n]; [done|]. cbn [select].
  unfold fresh_ids. rewrite plain_ids_cons.
  destruct (sponsored (r_itemId r)) eqn:Hsp; cbn [orb].
  { apply IH. }
  destruct (bool_decide (r_itemId r ∈ known)) eqn:Hk.
  - apply bool_decide_eq_true in Hk. rewrite IH. unfold fresh_ids.
    cbn [list_to_set].
    by replace (({[r_itemId r]} ∪ list_to_set (plain_ids rs)) ∖ known)
      with (list_to_set (C:=gset string) (plain_ids rs) ∖ known) by set_solver.
  - apply bool_decide_eq_false in Hk. cbn [length list_to_set]. rewrite IH.
    assert (({[r_itemId r]} ∪ list_to_set (plain_ids rs)) ∖ known
            = {[r_itemId r]} ∪ fresh_ids ({[r_itemId r]} ∪ known) rs) as ->.
    { unfold fresh_ids. apply set_eq. intros y.
      destruct (decide (y = r_itemId r)) as [->|Hy]; set_solver. }
    rewrite size_union by (unfold fresh_ids; set_solver).
    rewrite size_singleton. lia.
Qed.

Lemma all_new_cons_sponsored known r rs :
  sponsored (r_itemId r) = true → all_new known (r :: rs) → all_new known rs.
Proof. unfold all_new. rewrite plain_ids_cons. by intros ->. Qed.

Lemma all_new_cons known r rs :
  sponsored (r_itemId r) = false → all_new known (r :: rs) →
  (r_itemId r ∉ known) ∧ all_new ({[r_itemId r]} ∪ known) rs.
Proof.
  unfold all_new. rewrite plain_ids_cons. intros -> [Hnd Hnew].
  apply NoDup_cons in Hnd as [Hnotin Hnd].
  split; [apply Hnew; by left|]. split; [done|].
  intros x Hx. assert (x ∉ known) by (apply Hnew; by right).
  assert (x ≠ r_itemId r) by (by intros ->). set_solver.
Qed.

Lemma all_new_app known rs1 rs2 n :
  all_new known (rs1 ++ rs2)%list →
  all_new known rs1
  ∧ all_new (known ∪ list_to_set (map r_itemId (select known n rs1))) rs2.
Proof.
  unfold all_new. rewrite plain_ids_app. intros [Hnd Hnew].
  apply NoDup_app in Hnd as (Hnd1 & Hdisj & Hnd2).
  split; [split; [done|]; intros x Hx; apply Hnew, elem_of_app; by left|].
  split; [done|]. intros x Hx.
  assert (x ∉ known) by (apply Hnew, elem_of_app; by right).
  assert (x ∉ map r_itemId (select known n rs1)).
  { intros [Hx1 _]%select_plain. by apply (Hdisj x). }
  set_solver.
Qed.

End select.

Section faultless.

Variables (site : Site) (parent_category : Category) (limit listings_count : Z).
Variables (item_ids : loc) (retries : nat).
Variables (h0 : heap) (excl : gset string).
Hypothesis retries_pos : (1 ≤ retries)%nat.

Local Abbreviation inv := (crawl_inv parent_category limit item_ids h0 excl).
Local Abbreviation item := (for_res_listing site parent_category limit listings_count item_ids retries).
Local Abbreviation items := (for_res_listings site parent_category limit listings_count item_ids retries).
Local Abbreviation page := (try_page site parent_category limit listings_count item_ids retries).
Local Abbreviation pages := (while_pages site parent_category limit listings_count item_ids retries).
Local Abbreviation categories := (for_categories site parent_category limit listings_count item_ids retries).
Local Abbreviation known := (known_ids excl).
Local Abbreviation ids_of st := (map item_id (listings st)).

Implicit Types (st : State) (r : RawListing) (rs : list RawListing).

Lemma details_read url clk d :
  site_listing site clk url = Ok d →
  get_listing_details_retry site retries url clk = Some (S clk, Ok d).
Proof.
  intros H. destruct retries as [|n]; [lia|].
  cbn [get_listing_details_retry]. by rewrite H.
Qed.

Lemma room_full st : len (listings st) = limit → room limit st = 0%nat.
Proof. unfold room. lia. Qed.

Lemma room_left st :
  len (listings st) ≤ limit → len (listings st) ≠ limit →
  ∃ n, room limit st = S n ∧ Z.of_nat n = limit - len (listings st) - 1.
Proof.
  intros ? ?. exists (Z.to_nat (limit - len (listings st) - 1)).
  unfold room. split; lia.
Qed.

(** The entries of a page of category [c], none at fault: the page is read
    to its end, or until the count is at the limit; the entries selected
    are accepted in order and [max_listings] keeps its value. *)
Lemma items_select c rs st :
  inv st → len (listings st) ≤ limit →
  Forall (sound_entry site excl c) rs →
  limit ≠ listings_count ∨ all_new (known st) rs →
  ∃ st', items (cat_id c) rs st = Some (st', None)
         ∧ inv st' ∧ len (listings st') ≤ limit
         ∧ max_listings st' = max_listings st
         ∧ ids_of st' = (ids_of st ++ map r_itemId (select (known st) (room limit st) rs))%list.
Proof.
  revert st. induction rs as [|r rs IH]; intros st Hinv Hlen Hsound Hcalm.
  { exists st. rewrite select_nil. cbn. by rewrite app_nil_r. }
  apply Forall_cons in Hsound as [[Hne Hr] Hsound].
  cbn [for_res_listings].
  destruct (len (listings st) =? limit) eqn:Hfull.
  { apply Z.eqb_eq in Hfull. exists st. rewrite (room_full _ Hfull), select_full.
    cbn. by rewrite app_nil_r. }
  apply Z.eqb_neq in Hfull.
  destruct (room_left _ Hlen Hfull) as (n & Hroom & Hn). rewrite Hroom.
  cbn [select]. unfold for_res_listing.
  destruct (r_itemId r) as [|a s] eqn:Hid; [done|]. rewrite <- Hid in *.
  assert (Ascii.eqb a MARKTPLAATS_ADVERTISEMENT_PREFIX = sponsored (r_itemId r)) as ->
    by (by rewrite Hid).
  destruct (sponsored (r_itemId r)) eqn:Hsp; cbn [orb].
  { (* sponsored: skipped *)
    destruct (IH st) as (st' & ? & ? & ? & ? & Hids); [done..| |].
    { destruct Hcalm as [?|Hnew]; [by left | right].
      by apply all_new_cons_sponsored in Hnew. }
    exists st'. rewrite Hroom in Hids. by split_and!. }
  rewrite (inv_known _ _ _ _ _ _ _ Hinv). fold (known st).
  destruct (bool_decide (r_itemId r ∈ known st)) eqn:Hknown.
  { (* already known: skipped, and nothing decremented *)
    apply bool_decide_eq_true in Hknown.
    assert (limit ≠ listings_count) as Hcap.
    { destruct Hcalm as [?|Hnew]; [done|].
      by apply all_new_cons in Hnew as [? _]. }
    rewrite (proj2 (Z.eqb_neq _ _) Hcap).
    destruct (IH st) as (st' & ? & ? & ? & ? & Hids); [done..| by left |].
    exists st'. rewrite Hroom in Hids. by split_and!. }
  apply bool_decide_eq_false in Hknown.
  destruct Hr as [Hcat Hread]; [done | unfold known_ids in Hknown; set_solver |].
  destruct (Hread (clock st)) as [d Hd].
  rewrite (proj2 (Z.eqb_eq _ _) Hcat). cbn [negb].
  rewrite (details_read _ _ _ Hd).
  set (st1 := accept _ _ _).
  assert (inv st1) as Hinv1.
  { apply inv_accept; [by apply inv_with_clock | done | done |].
    cbn. rewrite (inv_known _ _ _ _ _ _ _ Hinv). by apply bool_decide_eq_false. }
  assert (ids_of st1 = (ids_of st ++ [r_itemId r])%list) as Hids1.
  { subst st1. cbn. by rewrite map_app. }
  assert (len (listings st1) = len (listings st) + 1) as Hlen1.
  { subst st1. cbn. rewrite len_app. unfold len. cbn. lia. }
  assert (known st1 = {[r_itemId r]} ∪ known st) as Hknown1.
  { unfold known_ids. rewrite Hids1, list_to_set_app_L. cbn. set_solver. }
  assert (room limit st1 = n) as Hroom1 by (unfold room; lia).
  destruct (IH st1) as (st' & Hrun & ? & ? & Hmax & Hids); [done | lia | done | |].
  { destruct Hcalm as [?|Hnew]; [by left | right].
    rewrite Hknown1. by apply all_new_cons in Hnew as [_ ?]. }
  exists st'. rewrite Hknown1, Hroom1, Hids1 in Hids.
  split_and!; [done | done | done | by rewrite Hmax |].
  rewrite Hids. cbn [map]. by rewrite <- app_assoc.
Qed.

(** What the entries accepted on a page leave for the pages after it. *)
Lemma after_select st st1 sel :
  len (listings st) ≤ limit →
  ids_of st1 = (ids_of st ++ map r_itemId sel)%list →
  known st1 = known st ∪ list_to_set (map r_itemId sel)
  ∧ room limit st1 = (room limit st - length sel)%nat.
Proof.
  intros Hlen Hids. split.
  - unfold known_ids. rewrite Hids, list_to_set_app_L. set_solver.
  - assert (len (listings st1) = len (listings st) + Z.of_nat (length sel)) as Hl.
    { unfold len. rewrite <- (length_map item_id (listings st1)), Hids.
      rewrite length_app, !length_map. lia. }
    unfold room. lia.
Qed.

Section one_category.

Variables (c : Category) (pgs : list (list RawListing)).
Hypothesis Hpages : ∀ (clk p : nat), (p ≤ length pgs)%nat →
  ∃ url, get_url_with_options (cat_url c) (Z.of_nat p + 1) = Ok url
         ∧ site_search site clk url = Ok (default [] (pgs !! p)).
Hypothesis Hnonempty : ∀ pg, pg ∈ pgs → pg ≠ [].
Hypothesis Hentries : ∀ pg r, pg ∈ pgs → r ∈ pg → sound_entry site excl c r.

(** The pages of category [c] from page [p + 1] on, none at fault. *)
Lemma pages_select k p st fuel :
  (p + k = length pgs)%nat → (k < fuel)%nat →
  inv st → len (listings st) ≤ limit → max_listings st = limit →
  limit ≠ listings_count ∨ all_new (known st) (concat (drop p pgs)) →
  ∃ st', pages fuel c (Z.of_nat p + 1) st = Some (st', None)
         ∧ inv st' ∧ len (listings st') ≤ limit
         ∧ max_listings st' = limit
         ∧ ids_of st'
           = (ids_of st
              ++ map r_itemId (select (known st) (room limit st) (concat (drop p pgs))))%list.
Proof.
  revert p st fuel. induction k as [|k IH]; intros p st fuel Hp Hfuel Hinv Hlen Hmax Hcalm;
    (destruct fuel as [|fuel]; [lia|]); cbn [while_pages]; rewrite Hmax;
    (destruct (len (listings st) <? limit) eqn:Hlt;
     [apply Z.ltb_lt in Hlt
     |apply Z.ltb_ge in Hlt; exists st;
      rewrite room_full, select_full by lia; cbn; rewrite app_nil_r; by split_and!]);
    destruct (Hpages (clock st) p) as (url & Hurl & Hsearch); try lia;
    unfold try_page; rewrite Hurl, Hsearch.
  - (* past the last page: an empty page *)
    rewrite (lookup_ge_None_2 pgs p) by lia. cbn [default].
    exists (tick st). rewrite drop_ge by lia. cbn [concat]. rewrite select_nil.
    cbn. rewrite app_nil_r. split_and!; [done | by apply inv_tick | done..].
  - (* a page of the book *)
    destruct (lookup_lt_is_Some_2 pgs p) as [pg Hpg]; [lia|].
    rewrite Hpg. cbn [default from_option id].
    assert (pg ∈ pgs) as Hin by (by eapply list_elem_of_lookup_2).
    rewrite (drop_S _ _ _ Hpg) in *. cbn [concat] in *.
    pose proof (Hnonempty pg Hin) as Hne.
    destruct pg as [|r0 pg']; [done|].
    destruct (items_select c (r0 :: pg') (tick st))
      as (st1 & Hrun & Hinv1 & Hlen1 & Hmax1 & Hids1).
    { by apply inv_tick. }
    { done. }
    { apply Forall_forall. intros r Hr. by apply (Hentries (r0 :: pg')). }
    { destruct Hcalm as [?|Hnew]; [by left | right].
      by apply (all_new_app _ _ _ 0) in Hnew as [? _]. }
    rewrite Hrun.
    set (sel := select (known st) (room limit st) (r0 :: pg')) in *.
    destruct (after_select st st1 sel Hlen Hids1) as [Hknown1 Hroom1].
    destruct (IH (S p) st1 fuel) as (st' & Hrest & ? & ? & ? & Hids);
      [lia | lia | done | done | by rewrite Hmax1 | |].
    { destruct Hcalm as [?|Hnew]; [by left | right].
      rewrite Hknown1. by apply (all_new_app _ _ _ (room limit st)) in Hnew as [_ ?]. }
    exists st'. replace (Z.of_nat p + 1 + 1) with (Z.of_nat (S p) + 1) by lia.
    split_and!; [done..|].
    rewrite Hids, Hids1, Hknown1, Hroom1, select_app. fold sel.
    by rewrite map_app, app_assoc.
Qed.

End one_category.

(** The categories of a book one after the other, none at fault. *)
Lemma categories_select book st fuel :
  serves site excl book →
  (∀ c pgs, (c, pgs) ∈ book → (length pgs < fuel)%nat) →
  inv st → len (listings st) ≤ limit → max_listings st = limit →
  limit ≠ listings_count ∨ all_new (known st) (entries book) →
  ∃ st', categories fuel (map fst book) st = Some (st', None)
         ∧ inv st' ∧ len (listings st') ≤ limit
         ∧ max_listings st' = limit
         ∧ ids_of st'
           = (ids_of st ++ map r_itemId (select (known st) (room limit st) (entries book)))%list.
Proof.
  revert st. induction book as [|[c pgs] book IH]; intros st Hserves Hfuel Hinv Hlen Hmax Hcalm.
  { exists st. unfold entries. cbn [map concat for_categories]. rewrite select_nil.
    cbn [map]. by rewrite app_nil_r. }
  destruct Hserves as [Hpages Hnonempty Hentries].
  unfold entries in *. cbn [map concat fst snd for_categories] in *.
  assert (∀ (clk p : nat), (p ≤ length pgs)%nat →
            ∃ url, get_url_with_options (cat_url c) (Z.of_nat p + 1) = Ok url
                   ∧ site_search site clk url = Ok (default [] (pgs !! p))) as Hp.
  { intros clk p Hp. apply (Hpages c pgs); [by left | done]. }
  assert (∀ pg, pg ∈ pgs → pg ≠ []) as Hn.
  { intros pg Hpg. apply (Hnonempty c pgs); [by left | done]. }
  assert (∀ pg r, pg ∈ pgs → r ∈ pg → sound_entry site excl c r) as He.
  { intros pg r Hpg Hr. apply (Hentries c pgs pg); [by left | done..]. }
  destruct (pages_select c pgs Hp Hn He (length pgs) 0%nat st fuel)
    as (st1 & Hrun & Hinv1 & Hlen1 & Hmax1 & Hids1);
    [lia | apply (Hfuel c); by left | done | done | done | |].
  { rewrite drop_0. destruct Hcalm as [?|Hnew]; [by left | right].
    by apply (all_new_app _ _ _ 0) in Hnew as [? _]. }
  rewrite drop_0 in Hids1. change (Z.of_nat 0 + 1) with 1 in Hrun. rewrite Hrun.
  set (sel := select (known st) (room limit st) (concat pgs)) in *.
  destruct (after_select st st1 sel Hlen Hids1) as [Hknown1 Hroom1].
  destruct (IH st1) as (st' & Hrest & ? & ? & ? & Hids); [|..|done|done|done| |].
  { split.
    - intros c' pgs' Hin. apply Hpages. by right.
    - intros c' pgs' pg Hin. apply (Hnonempty c'). by right.
    - intros c' pgs' pg r Hin. apply Hentries. by right. }
  { intros c' pgs' Hin. apply (Hfuel c'). by right. }
  { destruct Hcalm as [?|Hnew]; [by left | right].
    rewrite Hknown1. by apply (all_new_app _ _ _ (room limit st)) in Hnew as [_ ?]. }
  exists st'. split_and!; [done..|].
  rewrite Hids, Hids1, Hknown1, Hroom1, select_app. fold sel.
  by rewrite map_app, app_assoc.
Qed.

End faultless.

(** The counterexample to C1: the category offers three fresh listings
    whose details can be read ([m2], [m3], [m4]), the limit is 2, and the
    call returns one listing: the entry before them, whose details cannot
    be read, lowers [max_listings] to 1, and the count is 1 at the end of
    the first page. *)
Lemma fewer_than_limit_returned :
  let site := Examples.site_broken_then_more in
  (∀ clk, site_search site clk Examples.first_page
          = Ok [Examples.entry "m1" 322; Examples.entry "m2" 322]
          ∧ site_search site clk Examples.second_page
            = Ok [Examples.entry "m3" 322; Examples.entry "m4" 322])
  ∧ Forall (λ x, sponsored x = false
                 ∧ ∀ clk, site_listing site clk (Examples.listing_page x)
                          = Ok Examples.details)
           ["m2"; "m3"; "m4"]
  ∧ NoDup ["m2"; "m3"; "m4"]
  ∧ ∃ ls st, get_listings_run 1 5 site Examples.computers 2 None ∅ = Some (Ok ls, st)
             ∧ map item_id ls = ["m2"]
             ∧ len ls ≠ 2.
Proof.
  split_and!.
  - intros clk. split; reflexivity.
  - repeat constructor.
  - repeat constructor; set_solver.
  - destruct (get_listings_run 1 5 Examples.site_broken_then_more Examples.computers
                2 None ∅) as [[[ls|e] st]|] eqn:Hrun; try (by vm_compute in Hrun).
    exists ls, st. split; [reflexivity|].
    revert Hrun. vm_compute. intros [= <- <-]. by split.
Qed.

(** C1, as the code has it. With a limit [L > 0] that is not above the
    listing count, on a site that serves the pages of the target
    categories without fault and offers at least [L] fresh ids on them,
    the call returns exactly [L] listings, with distinct ids none of which
    is excluded - provided no skip lowers [max_listings]: the limit is
    strictly below the listing count, or no entry that is not sponsored is
    excluded or listed twice. *)
Theorem get_listings_exact (site : Site) (parent_category : Category) (L : Z)
    (existing_item_ids : option loc) (h : heap) (retries fuel : nat)
    (listings_count : Z) (subs : list Category)
    (book : list (Category * list (list RawListing))) :
  site_listings_count site parent_category = Ok listings_count →
  site_subcategories site parent_category = Ok subs →
  0 < L → L ≤ listings_count →
  map fst book = targets parent_category subs →
  serves site (excluded existing_item_ids h) book →
  L < listings_count ∨ all_new (excluded existing_item_ids h) (entries book) →
  (Z.to_nat L ≤ size (fresh_ids (excluded existing_item_ids h) (entries book)))%nat →
  (1 ≤ retries)%nat →
  (∀ c pgs, (c, pgs) ∈ book → (length pgs < fuel)%nat) →
  ∃ ls h', get_listings retries fuel site parent_category L existing_item_ids h
           = Some (Ok ls, h')
           ∧ len ls = L
           ∧ NoDup (map item_id ls)
           ∧ ∀ x, x ∈ map item_id ls → x ∉ excluded existing_item_ids h.
Proof.
  intros Hcount Hsubs Hpos Hle Hbook Hserves Hcalm Hfresh Hretries Hfuel.
  assert (resolve_limit L listings_count = L) as Hres.
  { unfold resolve_limit.
    rewrite (proj2 (Z.ltb_ge _ _) Hle), (proj2 (Z.eqb_neq _ _)) by lia. done. }
  unfold get_listings.
  rewrite (get_listings_run_crawl _ _ _ _ _ _ _ _ _ Hcount Hsubs), Hres, <- Hbook.
  set (excl := excluded existing_item_ids h) in *.
  set (st0 := initial_state L existing_item_ids h).
  assert (known_ids excl st0 = excl) as Hknown0.
  { unfold known_ids. cbn. set_solver. }
  assert (room L st0 = Z.to_nat L) as Hroom0.
  { unfold room, len. cbn. f_equal. lia. }
  destruct (categories_select site parent_category L listings_count
              (own_item_ids h) retries h excl Hretries book st0 fuel)
    as (st' & Hrun & Hinv & Hlen & _ & Hids);
    [done | done | apply initial_inv | unfold len; cbn; lia | done | |].
  { rewrite Hknown0. destruct Hcalm as [?|?]; [left; lia | by right]. }
  rewrite Hrun. exists (listings st'), (heap_of st'). split; [done|].
  rewrite Hknown0, Hroom0 in Hids. cbn [listings st0 initial_state map app] in Hids.
  destruct Hinv as [_ _ Hnd Hnew _ _ _].
  split_and!; [|done|done].
  unfold len. rewrite <- (length_map item_id (listings st')), Hids, length_map.
  rewrite select_length. lia.
Qed.

(** The site of two pages serves its book without fault. *)
Lemma site_two_pages_serves :
  serves Examples.site_two_pages ∅ Examples.book_two_pages.
Proof.
  split.
  - intros c pgs [= -> ->]%list_elem_of_singleton clk p Hp. cbn in Hp.
    destruct p as [|[|[|p]]]; [| | |lia]; eexists; (split; [reflexivity|]);
      vm_compute; reflexivity.
  - intros c pgs pg [= -> ->]%list_elem_of_singleton Hpg.
    apply elem_of_cons in Hpg as [->|Hpg]; [done|].
    by apply list_elem_of_singleton in Hpg as ->.
  - intros c pgs pg r [= -> ->]%list_elem_of_singleton Hpg Hr.
    assert (r ∈ [Examples.entry "a7" 322; Examples.entry "m1" 322;
                 Examples.entry "m2" 322; Examples.entry "m3" 322]) as Hall.
    { apply elem_of_cons in Hpg as [->|Hpg];
        [|apply list_elem_of_singleton in Hpg as ->]; set_solver. }
    split.
    + repeat (apply elem_of_cons in Hall as [->|Hall]; [done|]).
      by apply elem_of_nil in Hall.
    + intros _ _. split.
      * repeat (apply elem_of_cons in Hall as [->|Hall]; [done|]).
        by apply elem_of_nil in Hall.
      * intros clk. by exists Examples.details.
Qed.

Lemma get_listings_exact_witness :
  ∃ ls h', get_listings 1 5 Examples.site_two_pages Examples.computers 2 None ∅
           = Some (Ok ls, h')
           ∧ len ls = 2
           ∧ NoDup (map item_id ls)
           ∧ ∀ x, x ∈ map item_id ls → x ∉ excluded None ∅.
Proof.
  apply (get_listings_exact Examples.site_two_pages Examples.computers 2 None ∅ 1 5
           10 [] Examples.book_two_pages).
  - reflexivity.
  - reflexivity.
  - lia.
  - lia.
  - reflexivity.
  - exact site_two_pages_serves.
  - left. lia.
  - vm_compute. lia.
  - lia.
  - intros c pgs [= -> ->]%list_elem_of_singleton. cbn. lia.
Defined.

(* ===================================================================== *)
(** * More of the code *)
(* ===================================================================== *)

(** ** [format_text] *)

Section format_text.

Implicit Types (s t w : string) (cur : list ascii) (ws : list string).

Local Abbreviation chars := list_ascii_of_string.
Local Abbreviation plain c := (is_space c = false).

Lemma chars_app s t : chars (s ++ t) = (chars s ++ chars t)%list.
Proof.
  induction s as [|c s IH]; [done|].
  change (c :: chars (s ++ t) = c :: (chars s ++ chars t)%list). by rewrite IH.
Qed.

Lemma string_of_chars s : string_of_list_ascii (chars s) = s.
Proof. apply string_of_list_ascii_of_string. Qed.

Lemma chars_of_string l : chars (string_of_list_ascii l) = l.
Proof. apply list_ascii_of_string_of_list_ascii. Qed.

Lemma split_ws_nil cur : split_ws cur "" = flush cur.
Proof. done. Qed.

Lemma split_ws_space cur c s :
  is_space c = true → split_ws cur (String c s) = (flush cur ++ split_ws [] s)%list.
Proof. intros H. cbn [split_ws]. by rewrite H. Qed.

Lemma split_ws_plain cur c s :
  plain c → split_ws cur (String c s) = split_ws (c :: cur) s.
Proof. intros H. cbn [split_ws]. by rewrite H. Qed.

(** Reading a run of characters that are not white space. *)
Lemma split_ws_run cur l s :
  Forall (λ c, plain c) l →
  split_ws cur (string_of_list_ascii l ++ s) = split_ws (rev l ++ cur)%list s.
Proof.
  revert cur. induction l as [|c l IH]; intros cur Hl; [done|].
  apply Forall_cons in Hl as [Hc Hl].
  change (string_of_list_ascii (c :: l) ++ s)
    with (String c (string_of_list_ascii l ++ s)).
  rewrite split_ws_plain by done. rewrite IH by done.
  cbn [rev]. by rewrite <- app_assoc.
Qed.

Lemma flush_words cur : Forall (λ c, plain c) cur → Forall word (flush cur).
Proof.
  intros Hcur. destruct cur as [|c cur]; [constructor|].
  cbn [flush]. apply Forall_singleton. split.
  - intros H. apply (f_equal chars) in H. rewrite chars_of_string in H.
    cbn in H. by destruct (rev cur).
  - rewrite chars_of_string. by apply Forall_rev.
Qed.

Lemma split_ws_words cur s :
  Forall (λ c, plain c) cur → Forall word (split_ws cur s).
Proof.
  revert cur. induction s as [|c s IH]; intros cur Hcur.
  { rewrite split_ws_nil. by apply flush_words. }
  destruct (is_space c) eqn:Hc.
  - rewrite split_ws_space by done. apply Forall_app. split; [by apply flush_words|].
    apply IH. constructor.
  - rewrite split_ws_plain by done. apply IH. by constructor.
Qed.

Lemma append_empty s : s ++ "" = s.
Proof.
  induction s as [|c s IH]; [done|].
  change (String c (s ++ "") = String c s). by rewrite IH.
Qed.

Lemma flush_word w : word w → flush (rev (chars w)) = [w].
Proof.
  intros [Hne _]. destruct (rev (chars w)) as [|c l] eqn:Hrev.
  - apply (f_equal (@rev ascii)) in Hrev. rewrite rev_involutive in Hrev.
    apply (f_equal string_of_list_ascii) in Hrev. by rewrite string_of_chars in Hrev.
  - cbn [flush]. by rewrite <- Hrev, rev_involutive, string_of_chars.
Qed.

(** Splitting what [join] made gives the words back. *)
Lemma split_ws_join ws :
  Forall word ws → split_ws [] (join " " ws) = ws.
Proof.
  induction ws as [|w ws IH]; intros Hws; [done|].
  apply Forall_cons in Hws as [Hword Hws].
  pose proof (flush_word w Hword) as Hflush. destruct Hword as [Hne Hw].
  assert (∀ s, split_ws [] (w ++ s) = split_ws (rev (chars w)) s) as Hrun.
  { intros s. rewrite <- (string_of_chars w) at 1.
    by rewrite (split_ws_run _ _ _ Hw), app_nil_r. }
  destruct ws as [|w' ws].
  - cbn [join]. rewrite <- (append_empty w) at 1. by rewrite Hrun, split_ws_nil.
  - change (join " " (w :: w' :: ws)) with (w ++ String " "%char (join " " (w' :: ws))).
    rewrite Hrun, split_ws_space by done. by rewrite Hflush, (IH Hws).
Qed.

End format_text.

(** The words of a text *)

Section words.

Local Abbreviation chars := list_ascii_of_string.
Local Abbreviation plain c := (is_space c = false).
Local Abbreviation ends cs := (match cs with [] => True | c :: _ => is_space c = true end).

Lemma word_chars (l : list ascii) :
  l ≠ [] → Forall (λ c, plain c) l → word (string_of_list_ascii l).
Proof.
  intros Hne Hl. split.
  - intros H. apply (f_equal chars) in H. rewrite chars_of_string in H. by destruct l.
  - by rewrite chars_of_string.
Qed.

Lemma words_of_run (cur cs : list ascii) (ws : list string) :
  cur ≠ [] → Forall (λ c, plain c) cur → ends cs → words_of cs ws →
  words_of (rev cur ++ cs) (string_of_list_ascii (rev cur) :: ws).
Proof.
  intros Hne Hcur Hends Hws.
  pose proof (words_word (string_of_list_ascii (rev cur)) cs ws) as H.
  rewrite chars_of_string in H. apply H; [|done..].
  apply word_chars; [|by apply Forall_rev].
  intros Hrev. apply (f_equal (@length ascii)) in Hrev. rewrite length_rev in Hrev.
  by destruct cur.
Qed.

(** What [split_ws] returns are the words of the run it holds followed by
    the text it still has to read. *)
Lemma split_ws_words_of (cur : list ascii) (s : string) :
  Forall (λ c, plain c) cur →
  words_of (rev cur ++ chars s) (split_ws cur s).
Proof.
  revert cur. induction s as [|c s IH]; intros cur Hcur.
  - rewrite split_ws_nil. destruct cur as [|a cur]; [constructor|].
    cbn [flush]. by apply words_of_run; [| | |constructor].
  - destruct (is_space c) eqn:Hc.
    + rewrite split_ws_space by done. cbn [list_ascii_of_string].
      assert (words_of (c :: chars s) (split_ws [] s)) as Hrest.
      { apply words_space; [done|]. by apply (IH []). }
      destruct cur as [|a cur]; [done|].
      cbn [flush app]. by apply words_of_run.
    + rewrite split_ws_plain by done. cbn [list_ascii_of_string].
      specialize (IH (c :: cur) ltac:(by constructor)).
      cbn [rev] in IH. by rewrite <- app_assoc in IH.
Qed.

(** A run of characters that are not white space, followed by the end or
    by a white space, is found in one way. *)
Lemma run_unique (l1 l2 r1 r2 : list ascii) :
  Forall (λ c, plain c) l1 → Forall (λ c, plain c) l2 → ends r1 → ends r2 →
  (l1 ++ r1 = l2 ++ r2)%list → l1 = l2 ∧ r1 = r2.
Proof.
  intros H1. revert l2. induction H1 as [|a l1 Ha _ IH]; intros l2 H2 E1 E2 Heq.
  - destruct H2 as [|b l2 Hb _]; [done|]. cbn in Heq. subst r1. cbn in E1. congruence.
  - destruct H2 as [|b l2 Hb H2].
    + cbn in Heq. subst r2. cbn in E2. congruence.
    + cbn in Heq. injection Heq as -> Heq.
      destruct (IH l2 H2 E1 E2 Heq) as [-> ->]. done.
Qed.

Lemma words_of_unique (cs : list ascii) (ws ws' : list string) :
  words_of cs ws → words_of cs ws' → ws = ws'.
Proof.
  intros H. revert ws'.
  induction H as [|c cs ws Hc _ IH|w cs ws [Hne Hw] Hends _ IH]; intros ws' H'.
  - inversion H' as [| |w' cs' ws1 [Hne' Hw'] _ _ Hcs]; [done|].
    destruct w'; [done | discriminate Hcs].
  - inversion H' as [|c' cs' ws1 _ Hrest|w' cs' ws1 [Hne' Hw'] _ _ Hcs]; subst.
    + by apply IH.
    + destruct w' as [|a w']; [done|]. cbn in Hcs. injection Hcs as -> _.
      apply Forall_cons in Hw' as [Ha _]. congruence.
  - inversion H' as [Hcs|c' cs' ws1 Hc' _ Hcs|w' cs' ws1 [Hne' Hw'] Hends' Hrest Hcs]; subst.
    + destruct w; [done | discriminate Hcs].
    + destruct w as [|a w]; [done|]. cbn in Hcs. injection Hcs as -> _.
      apply Forall_cons in Hw as [Ha _]. congruence.
    + destruct (run_unique _ _ _ _ Hw' Hw Hends' Hends Hcs) as [Hww ->].
      apply (f_equal string_of_list_ascii) in Hww. rewrite !string_of_chars in Hww.
      subst w'. f_equal. by apply IH.
Qed.

End words.

(** X1. The text [format_text] returns is made of the words of its
    argument, that is of the maximal runs of characters that are not white
    space, in order, with one space between two words and nothing before
    the first or after the last.  The words of a text are determined:
    there is one list of them. *)
Theorem format_text_words (text : string) :
  ∃ ws, words_of (list_ascii_of_string text) ws
        ∧ (∀ ws', words_of (list_ascii_of_string text) ws' → ws' = ws)
        ∧ format_text text = join " " ws.
Proof.
  exists (split_ws [] text).
  pose proof (split_ws_words_of [] text ltac:(constructor)) as Hws. cbn [rev app] in Hws.
  split_and!; [done | | done].
  intros ws' Hws'. by apply (words_of_unique _ _ _ Hws' Hws).
Qed.

(** X2. [format_text] changes nothing in a text it returned. *)
Theorem format_text_idempotent (text : string) :
  format_text (format_text text) = format_text text.
Proof.
  unfold format_text. rewrite split_ws_join; [done|].
  apply split_ws_words. constructor.
Qed.

(** ** [diff_hours] and whole seconds *)

Lemma timedelta_whole_seconds (us : Z) :
  days (timedelta_of_us us) = us / US_PER_SECOND / 86400
  ∧ seconds (timedelta_of_us us) = (us / US_PER_SECOND) mod 86400.
Proof.
  unfold timedelta_of_us, US_PER_DAY, US_PER_SECOND. cbn [days seconds].
  split; Z.div_mod_to_equations; lia.
Qed.

(** X3. [diff_hours] reads the difference in whole seconds only: two
    instants whose distances to [first] have the same number of whole
    seconds give the same result, whatever their microseconds. *)
Theorem diff_hours_whole_seconds (first last last' : Z) :
  (last - first) / US_PER_SECOND = (last' - first) / US_PER_SECOND →
  diff_hours (PyDatetime first) (PyDatetime last)
  = diff_hours (PyDatetime first) (PyDatetime last').
Proof.
  intros H. unfold diff_hours, py_sub.
  destruct (timedelta_whole_seconds (last - first)) as [-> ->].
  destruct (timedelta_whole_seconds (last' - first)) as [-> ->].
  by rewrite H.
Qed.

Lemma diff_hours_whole_seconds_witness :
  diff_hours (PyDatetime 0) (PyDatetime 7000000)
  = diff_hours (PyDatetime 0) (PyDatetime 7031250).
Proof.
  apply (diff_hours_whole_seconds 0 7000000 7031250). reflexivity.
Defined.

(** ** [remove_duplicate_listings] on a frame with new rows *)

Lemma existsb_has_item_id_app x (df1 df2 : DataFrame) :
  existsb (has_item_id x) (df1 ++ df2)%list
  = (existsb (has_item_id x) df1 || existsb (has_item_id x) df2)%bool.
Proof. apply existsb_app. Qed.

Lemma drop_keep_last_app (old new : DataFrame) :
  drop_duplicates_keep_last (old ++ new)%list
  = (filter (λ r, item_id r ∉ map item_id new) (drop_duplicates_keep_last old)
     ++ drop_duplicates_keep_last new)%list.
Proof.
  induction old as [|row old IH]; [done|].
  cbn [app drop_duplicates_keep_last]. rewrite existsb_has_item_id_app.
  destruct (existsb (has_item_id (item_id row)) old) eqn:Hold; cbn [orb]; [done|].
  destruct (existsb (has_item_id (item_id row)) new) eqn:Hnew.
  - apply existsb_has_item_id in Hnew. rewrite filter_cons.
    case_decide; [done | apply IH].
  - rewrite filter_cons. case_decide as Hin.
    + cbn [app]. by rewrite IH.
    + apply existsb_has_item_id in Hin. congruence.
Qed.

(** X4. Rows appended to a frame win over the rows of the frame:
    [remove_duplicate_listings] on [old ++ new] keeps the rows that it
    keeps of [new], at the end, and of the rows it keeps of [old] those
    whose id no row of [new] has. *)
Theorem appended_rows_win (old new : DataFrame) :
  ∃ d_old d_new,
    remove_duplicate_listings old = Ok d_old
    ∧ remove_duplicate_listings new = Ok d_new
    ∧ remove_duplicate_listings (old ++ new)%list
      = Ok (filter (λ r, item_id r ∉ map item_id new) d_old ++ d_new)%list.
Proof.
  exists (drop_duplicates_keep_last old), (drop_duplicates_keep_last new).
  unfold remove_duplicate_listings, drop_duplicates.
  by rewrite drop_keep_last_app.
Qed.

Lemma drop_keep_last_length (df : DataFrame) :
  length (drop_duplicates_keep_last df)
  = size (list_to_set (C:=gset string) (map item_id df)).
Proof.
  induction df as [|row df IH]; [done|].
  cbn [drop_duplicates_keep_last map list_to_set].
  destruct (existsb _ df) eqn:E.
  - apply existsb_has_item_id in E. rewrite IH. f_equal. set_solver.
  - cbn [length]. rewrite IH, size_union, size_singleton; [done|].
    assert (item_id row ∉ map item_id df).
    { intros Hx%existsb_has_item_id. congruence. }
    set_solver.
Qed.

(** X5. [remove_duplicate_listings] loses no id and invents none, keeps
    as many rows as there are ids, and returns a frame without repeated
    ids as it is. *)
Theorem remove_duplicate_listings_ids (df : DataFrame) :
  ∃ d : DataFrame,
    remove_duplicate_listings df = Ok d
    ∧ (∀ x, x ∈ map item_id d ↔ x ∈ map item_id df)
    ∧ length d = size (list_to_set (C:=gset string) (map item_id df))
    ∧ (NoDup (map item_id df) → d = df).
Proof.
  exists (drop_duplicates_keep_last df). split_and!.
  - done.
  - intros x. apply drop_keep_last_ids.
  - apply drop_keep_last_length.
  - apply drop_keep_last_fixed.
Qed.

(** ** The ids of the file, as [main] collects them *)

Lemma collect_item_ids_spec (column : list string) (item_ids : gset string)
    (has_duplicates : bool) :
  collect_item_ids column item_ids has_duplicates
  = (item_ids ∪ list_to_set column,
     (has_duplicates
      || negb (bool_decide (NoDup column ∧ Forall (λ x, x ∉ item_ids) column)))%bool).
Proof.
  revert item_ids has_duplicates.
  induction column as [|x column IH]; intros item_ids has_duplicates.
  { cbn [collect_item_ids list_to_set]. f_equal; [set_solver|].
    rewrite bool_decide_eq_true_2; [by destruct has_duplicates|].
    split; constructor. }
  cbn [collect_item_ids list_to_set]. case_bool_decide as Hx.
  - rewrite IH. f_equal; [set_solver|].
    rewrite (bool_decide_eq_false_2 (NoDup (x :: column) ∧ _)).
    + by destruct has_duplicates.
    + intros [_ [Hnew _]%Forall_cons]. done.
  - rewrite IH. f_equal; [set_solver|]. f_equal. f_equal.
    apply bool_decide_ext. rewrite NoDup_cons, Forall_cons, !Forall_forall. split.
    + intros [Hnd Hnew]. split_and!; [|done|done|].
      * intros Hin. apply (Hnew x Hin). set_solver.
      * intros y Hy. specialize (Hnew y Hy). set_solver.
    + intros [[Hnotin Hnd] [_ Hnew]]. split; [done|].
      intros y Hy. assert (y ≠ x) by (by intros ->).
      specialize (Hnew y Hy). set_solver.
Qed.

(** X6. The loop of [main] over the column of ids gives the set of the ids
    of the file, and sets [has_duplicates] exactly when an id occurs
    twice. *)
Theorem collect_item_ids_duplicates (column : list string) :
  collect_item_ids column ∅ false
  = (list_to_set column, negb (bool_decide (NoDup column))).
Proof.
  rewrite collect_item_ids_spec. f_equal; [set_solver|]. cbn [orb]. f_equal.
  apply bool_decide_ext. split; [by intros [? _]|].
  intros Hnd. split; [done|]. apply Forall_forall. set_solver.
Qed.

(** ** [__get_url_with_options] *)

Lemma append_cancel_l (a x y : string) : a ++ x = a ++ y → x = y.
Proof.
  induction a as [|c a IH]; [done|].
  change (String c (a ++ x) = String c (a ++ y) → x = y). intros [= H]. by apply IH.
Qed.

Lemma append_cancel_r (x y s : string) : x ++ s = y ++ s → x = y.
Proof.
  intros H. apply (f_equal list_ascii_of_string) in H.
  rewrite !chars_app in H. apply app_inv_tail in H.
  apply (f_equal string_of_list_ascii) in H. by rewrite !string_of_chars in H.
Qed.

Lemma append_assoc (a b c : string) : (a ++ b) ++ c = a ++ (b ++ c).
Proof.
  induction a as [|x a IH]; [done|].
  change (String x ((a ++ b) ++ c) = String x (a ++ (b ++ c))). by rewrite IH.
Qed.

Lemma last_char_slash (u : string) : last_char (u ++ "/") = Some "/"%char.
Proof.
  induction u as [|c u IH]; [done|].
  change (last_char (String c (u ++ "/")) = Some "/"%char).
  cbn [last_char]. destruct (u ++ "/") eqn:E; [discriminate IH | exact IH].
Qed.

Lemma last_char_None (u : string) : last_char u = None ↔ u = "".
Proof.
  split; [|by intros ->].
  induction u as [|c u IH]; [done|]. cbn [last_char].
  destruct u; [done|]. intros H. by apply IH in H.
Qed.

(** X7. [__get_url_with_options] raises [IndexError] on the empty URL and
    on no other; a URL with and without its final slash give the same
    address; and two pages of a category never have the same address. *)
Theorem get_url_with_options_pages (category_url : string) (p : Z) :
  (get_url_with_options category_url p = Raise IndexError ↔ category_url = "")
  ∧ (category_url ≠ "" → ∃ url, get_url_with_options category_url p = Ok url)
  ∧ (category_url ≠ "" → last_char category_url ≠ Some "/"%char →
     get_url_with_options (category_url ++ "/") p
     = get_url_with_options category_url p)
  ∧ (∀ q, category_url ≠ "" →
          get_url_with_options category_url p = get_url_with_options category_url q →
          p = q).
Proof.
  unfold get_url_with_options. split_and!.
  - destruct (last_char category_url) as [c|] eqn:Hlast.
    + split; [done|]. intros ->. done.
    + apply last_char_None in Hlast. by split.
  - intros Hne. destruct (last_char category_url) as [c|] eqn:Hlast; [by eexists|].
    by apply last_char_None in Hlast.
  - intros Hne Hslash. rewrite last_char_slash.
    destruct (last_char category_url) as [c|] eqn:Hlast;
      [|by apply last_char_None in Hlast].
    destruct (Ascii.eqb_spec c "/"%char) as [->|_]; [done|].
    by rewrite Ascii.eqb_refl.
  - intros q Hne. destruct (last_char category_url) as [c|] eqn:Hlast;
      [|by apply last_char_None in Hlast].
    intros [= H]. apply append_cancel_l in H.
    change ("p/" ++ pretty p ++ "/" ++ REQUEST_OPTS)
      with (String "p" (String "/" (pretty p ++ "/" ++ REQUEST_OPTS))) in H.
    change ("p/" ++ pretty q ++ "/" ++ REQUEST_OPTS)
      with (String "p" (String "/" (pretty q ++ "/" ++ REQUEST_OPTS))) in H.
    injection H as H. apply append_cancel_r in H. by apply (inj pretty) in H.
Qed.

(** ** [get_parent_categories] *)

Section parent_categories.

Variable int_of_text : string → outcome Z.

Lemma parent_categories_loop_all (base_url : string) (lis : list LiElem)
    (cats : list Category) (acc : gset Category) :
  Forall2 (λ li c, parent_category_of int_of_text base_url li = Ok c) lis cats →
  parent_categories_loop int_of_text base_url lis acc = Ok (list_to_set cats ∪ acc).
Proof.
  intros H. revert acc. induction H as [|li c lis cats Hc _ IH]; intros acc; cbn.
  - f_equal. set_solver.
  - rewrite Hc, IH. f_equal. set_solver.
Qed.

Lemma split_on_last (sep : ascii) (s : string) (cur : list ascii) :
  sep ∉ list_ascii_of_string s →
  split_on sep cur s = [string_of_list_ascii (rev cur ++ list_ascii_of_string s)].
Proof.
  revert cur. induction s as [|c s IH]; intros cur Hs; cbn.
  - by rewrite app_nil_r.
  - cbn in Hs. apply not_elem_of_cons in Hs as [Hc Hs].
    destruct (Ascii.eqb_spec c sep) as [->|_]; [done|].
    rewrite IH by done. cbn. by rewrite <- app_assoc.
Qed.

Lemma split_on_segment (sep : ascii) (s rest : string) (cur : list ascii) :
  sep ∉ list_ascii_of_string s →
  split_on sep cur (s ++ String sep rest)
  = string_of_list_ascii (rev cur ++ list_ascii_of_string s) :: split_on sep [] rest.
Proof.
  revert cur. induction s as [|c s IH]; intros cur Hs.
  - change (split_on sep cur (String sep rest)
            = string_of_list_ascii (rev cur ++ []) :: split_on sep [] rest).
    cbn. by rewrite Ascii.eqb_refl, app_nil_r.
  - change (split_on sep cur (String c (s ++ String sep rest))
            = string_of_list_ascii (rev cur ++ c :: list_ascii_of_string s)
              :: split_on sep [] rest).
    cbn in Hs. apply not_elem_of_cons in Hs as [Hc Hs]. cbn [split_on].
    destruct (Ascii.eqb_spec c sep) as [->|_]; [done|].
    rewrite IH by done. cbn. by rewrite <- app_assoc.
Qed.

(** X9. The category read from an anchor whose [href] is a path
    [/a/id/slug], alone or followed by [/] and more: its id is what [int]
    makes of the third segment [id], and its address is the base address,
    [/l/] and the fourth segment [slug]; when [int] raises on [id], that
    exception comes out.  [int] is the builtin, whatever texts it
    accepts. *)
Theorem parent_category_of_path (base_url a id_text slug rest : string) :
  "/"%char ∉ list_ascii_of_string a →
  "/"%char ∉ list_ascii_of_string id_text →
  "/"%char ∉ list_ascii_of_string slug →
  rest = "" ∨ (∃ tail, rest = "/" ++ tail) →
  parent_category_of int_of_text base_url
    (LiTag (Some {| a_href := Some ("/" ++ a ++ "/" ++ id_text ++ "/" ++ slug ++ rest) |}))
  = match int_of_text id_text with
    | Ok category_id => Ok (category_id, base_url ++ "/l/" ++ slug)
    | Raise e => Raise e
    end.
Proof.
  intros Ha Hid Hslug Hrest. unfold parent_category_of. cbn [a_href].
  assert (∃ more, split_on "/" [] ("/" ++ a ++ "/" ++ id_text ++ "/" ++ slug ++ rest)
                  = "" :: a :: id_text :: slug :: more) as [more ->].
  { change ("/" ++ a ++ "/" ++ id_text ++ "/" ++ slug ++ rest)
      with ("" ++ String "/" (a ++ String "/" (id_text ++ String "/" (slug ++ rest)))).
    rewrite (split_on_segment "/" "") by (cbn; set_solver).
    rewrite (split_on_segment "/" a) by done.
    rewrite (split_on_segment "/" id_text) by done.
    cbn [rev app]. rewrite !string_of_chars.
    destruct Hrest as [->|[tail ->]].
    - rewrite append_empty, split_on_last by done. cbn [rev app].
      rewrite string_of_chars. by eexists.
    - change ("/" ++ tail) with (String "/" tail).
      rewrite split_on_segment by done. cbn [rev app].
      rewrite string_of_chars. by eexists. }
  cbn [lookup list_lookup]. by destruct (int_of_text id_text).
Qed.

Lemma parent_categories_loop_raises (base_url : string) (pre post : list LiElem)
    (li : LiElem) (e : exn) (acc : gset Category) :
  Forall (λ li, ∃ c, parent_category_of int_of_text base_url li = Ok c) pre →
  parent_category_of int_of_text base_url li = Raise e →
  parent_categories_loop int_of_text base_url (pre ++ li :: post) acc = Raise e.
Proof.
  intros H He. revert acc. induction H as [|x pre [c Hc] _ IH]; intros acc; cbn.
  - by rewrite He.
  - by rewrite Hc, IH.
Qed.

(** X8. [get_parent_categories] is all or nothing: when every element of
    the list of the home page gives a category, it returns the set of
    these categories; as soon as one element does not (it is no tag, has
    no anchor, no [href], or a path of another form), the exception of the
    first such element comes out and no category is returned. *)
Theorem get_parent_categories_all_or_nothing (base_url : string) (site : Site)
    (lis : list LiElem) :
  site_home site = Ok lis →
  (∀ cats, Forall2 (λ li c, parent_category_of int_of_text base_url li = Ok c) lis cats →
     get_parent_categories int_of_text base_url site = Ok (list_to_set cats))
  ∧ (∀ pre li post e, lis = (pre ++ li :: post)%list →
       Forall (λ li, ∃ c, parent_category_of int_of_text base_url li = Ok c) pre →
       parent_category_of int_of_text base_url li = Raise e →
       get_parent_categories int_of_text base_url site = Raise e).
Proof.
  intros Hhome. unfold get_parent_categories. rewrite Hhome. split.
  - intros cats Hcats. rewrite (parent_categories_loop_all _ _ cats) by done.
    f_equal. set_solver.
  - intros pre li post e -> Hpre He. by apply parent_categories_loop_raises.
Qed.

End parent_categories.

Lemma get_parent_categories_all_or_nothing_witness :
  get_parent_categories py_int MARTKPLAATS_BASE_URL Examples.home_two_categories
  = Ok (list_to_set [(322, "https://marktplaats.nl/l/computers-en-software");
                     (91, "https://marktplaats.nl/l/auto-s")])
  ∧ get_parent_categories py_int MARTKPLAATS_BASE_URL Examples.home_broken
    = Raise ElementNotFound.
Proof.
  split.
  - apply (proj1 (get_parent_categories_all_or_nothing py_int MARTKPLAATS_BASE_URL
                    Examples.home_two_categories _ eq_refl)).
    repeat constructor.
  - apply (proj2 (get_parent_categories_all_or_nothing py_int MARTKPLAATS_BASE_URL
                    Examples.home_broken _ eq_refl)
             [Examples.li "/cp/322/computers-en-software/"] (LiTag None)
             [Examples.li "/cp/91/auto-s/"] ElementNotFound).
    + reflexivity.
    + repeat constructor. by eexists.
    + reflexivity.
Defined.

Lemma parent_category_of_path_witness :
  parent_category_of py_int MARTKPLAATS_BASE_URL
    (Examples.li "/cp/322/computers-en-software/")
  = Ok (322, "https://marktplaats.nl/l/computers-en-software").
Proof.
  apply (parent_category_of_path py_int MARTKPLAATS_BASE_URL "cp" "322"
           "computers-en-software" "/").
  - by apply (bool_decide_unpack _).
  - by apply (bool_decide_unpack _).
  - by apply (bool_decide_unpack _).
  - right. by exists "".
Defined.

(** ** [__get_subcategories] *)

Section subcategories.

Variable int_of_text : string → outcome Z.

Lemma category_hrefs_loop_sound (anchors : list (option NameAnchor))
    (acc category_hrefs : gmap string string) (name href : string) :
  category_hrefs_loop anchors acc = Ok category_hrefs →
  category_hrefs !! name = Some href →
  acc !! name = Some href
  ∨ ∃ a, Some a ∈ anchors ∧ na_href a = Some href ∧ head (na_contents a) = Some name.
Proof.
  revert acc. induction anchors as [|[a|] anchors IH]; intros acc; cbn; [| |done].
  { intros [= <-]. by left. }
  destruct (na_href a) as [category_href|] eqn:Hhref.
  - destruct (na_contents a) as [|category_name contents] eqn:Hname; [done|].
    intros Hloop Hlook. destruct (IH _ Hloop Hlook) as [Hacc | (a' & ? & ? & ?)].
    + destruct (decide (category_name = name)) as [->|Hne].
      * rewrite lookup_insert_eq in Hacc. injection Hacc as ->.
        right. exists a. rewrite Hname. split_and!; [by left | done | done].
      * rewrite lookup_insert_ne in Hacc by done. by left.
    + right. exists a'. split_and!; [by right | done | done].
  - intros Hloop Hlook. destruct (IH _ Hloop Hlook) as [Hacc | (a' & ? & ? & ?)].
    + by left.
    + right. exists a'. split_and!; [by right | done | done].
Qed.

Lemma subcategory_options_loop_sound (parent_category : Category)
    (category_hrefs : gmap string string) (options : list (option OptionElem))
    (acc subcategories : gset Category) (c : Category) :
  subcategory_options_loop int_of_text parent_category category_hrefs options acc
  = Ok subcategories →
  c ∈ subcategories →
  c ∈ acc
  ∨ (cat_id c ≠ cat_id parent_category ∧ cat_id c ≠ ALL_CATEGORIES_ID
     ∧ ∃ o name value href,
         Some o ∈ options ∧ head (oe_contents o) = Some name
         ∧ oe_value o = Some value ∧ value ≠ "" ∧ int_of_text value = Ok (cat_id c)
         ∧ category_hrefs !! name = Some href
         ∧ cat_url c = MARTKPLAATS_BASE_URL ++ href).
Proof.
  revert acc. induction options as [|[o|] options IH]; intros acc; cbn; [| |done].
  { intros [= <-]. by left. }
  assert (∀ acc', subcategory_options_loop int_of_text parent_category category_hrefs
                    options acc' = Ok subcategories →
                  c ∈ subcategories →
                  c ∈ acc'
                  ∨ (cat_id c ≠ cat_id parent_category ∧ cat_id c ≠ ALL_CATEGORIES_ID
                     ∧ ∃ o' name value href,
                         Some o' ∈ Some o :: options ∧ head (oe_contents o') = Some name
                         ∧ oe_value o' = Some value ∧ value ≠ ""
                         ∧ int_of_text value = Ok (cat_id c)
                         ∧ category_hrefs !! name = Some href
                         ∧ cat_url c = MARTKPLAATS_BASE_URL ++ href)) as Hrest.
  { intros acc' Hloop Hc. destruct (IH _ Hloop Hc) as [?|(? & ? & o' & n & v & hr & ? & ?)].
    - by left.
    - right. split_and!; [done..|]. exists o', n, v, hr. split; [by right | done]. }
  destruct (oe_contents o) as [|subcategory_name contents] eqn:Hname; [done|].
  destruct (oe_value o) as [subcategory_value|] eqn:Hvalue; [|apply Hrest].
  destruct (String.eqb_spec subcategory_value "") as [->|Hne]; [apply Hrest|].
  destruct (int_of_text subcategory_value) as [subcategory_id|e] eqn:Hint; [|done].
  destruct (_ || _)%bool eqn:Hskip; [apply Hrest|].
  apply orb_false_iff in Hskip as [Hp%Z.eqb_neq H0%Z.eqb_neq].
  destruct (category_hrefs !! subcategory_name) as [subcategory_href|] eqn:Hlook; [|done].
  intros Hloop Hc. destruct (Hrest _ Hloop Hc) as [Hacc|?]; [|by right].
  apply elem_of_union in Hacc as [->%elem_of_singleton|?]; [|by left].
  right. split_and!; [done..|].
  exists o, subcategory_name, subcategory_value, subcategory_href.
  rewrite Hname. split_and!; try done. by left.
Qed.

(** X10. A subcategory that [__get_subcategories] returns is never the
    parent category itself nor the entry of all categories (id 0); its id
    is the number of the value of an option of the select box, and its
    address is the base address followed by the [href] of an anchor that
    carries the name of that option. *)
Theorem get_subcategories_sound (parent_category : Category) (page : CategoryPage)
    (subcategories : gset Category) (c : Category) :
  get_subcategories int_of_text parent_category page = Ok subcategories →
  c ∈ subcategories →
  cat_id c ≠ cat_id parent_category ∧ cat_id c ≠ 0
  ∧ ∃ soup options o a value href,
      cp_soup page = Ok soup ∧ cs_select soup = Some options
      ∧ Some o ∈ options ∧ Some a ∈ cs_anchors soup
      ∧ oe_value o = Some value ∧ int_of_text value = Ok (cat_id c)
      ∧ is_Some (head (oe_contents o)) ∧ head (oe_contents o) = head (na_contents a)
      ∧ na_href a = Some href
      ∧ cat_url c = MARTKPLAATS_BASE_URL ++ href.
Proof.
  unfold get_subcategories.
  destruct (cp_get page); [done|].
  destruct (cp_wait page) as [e|].
  { destruct e; try done. intros [= <-] Hc. by apply elem_of_empty in Hc. }
  destruct (cp_soup page) as [soup|e]; [|done].
  destruct (cs_select soup) as [options|] eqn:Hsel; [|done].
  destruct (cs_list soup); [|done]. cbn [negb].
  destruct (category_hrefs_loop _ _) as [category_hrefs|e] eqn:Hhrefs; [|done].
  intros Hloop Hc.
  destruct (subcategory_options_loop_sound _ _ _ _ _ _ Hloop Hc)
    as [Hempty|(Hp & H0 & o & name & value & href & Ho & Hname & Hval & _ & Hint & Hlook & Hurl)];
    [by apply elem_of_empty in Hempty|].
  destruct (category_hrefs_loop_sound _ _ _ _ _ Hhrefs Hlook) as [Hempty|(a & Ha & Hhref & Hcont)];
    [by rewrite lookup_empty in Hempty|].
  split_and!; [done..|]. exists soup, options, o, a, value, href.
  split_and!; try done. by rewrite Hname, Hcont.
Qed.

End subcategories.

Lemma get_subcategories_sound_witness :
  get_subcategories py_int Examples.computers Examples.computers_page
  = Ok ({[ (339, "https://marktplaats.nl/l/computers-en-software/laptops/") ]} ∪ ∅)
  ∧ (339 : Z) ≠ cat_id Examples.computers ∧ (339 : Z) ≠ 0.
Proof.
  split; [reflexivity|].
  destruct (get_subcategories_sound py_int Examples.computers Examples.computers_page
              ({[ (339, "https://marktplaats.nl/l/computers-en-software/laptops/") ]} ∪ ∅)
              (339, "https://marktplaats.nl/l/computers-en-software/laptops/"))
    as (Hp & H0 & _); [reflexivity | set_solver | by split].
Defined.

(** ** [listings_count]: the text of the counter *)

Section listings_count.

Variable int_of_text : string → outcome Z.

Local Abbreviation chars := list_ascii_of_string.

Lemma remove_count_separators_app (s t : string) :
  remove_count_separators (s ++ t)
  = remove_count_separators s ++ remove_count_separators t.
Proof.
  induction s as [|c s IH]; [done|].
  change (remove_count_separators (String c (s ++ t))
          = remove_count_separators (String c s) ++ remove_count_separators t).
  cbn [remove_count_separators]. rewrite IH. by destruct (is_count_separator c).
Qed.

Lemma remove_count_separators_plain (s : string) :
  Forall (λ c, is_count_separator c = false) (chars s) →
  remove_count_separators s = s.
Proof.
  induction s as [|c s IH]; [done|]. cbn. intros [Hc Hs]%Forall_cons.
  by rewrite Hc, IH.
Qed.

Lemma remove_count_separators_all (s : string) :
  Forall (λ c, is_count_separator c = true) (chars s) →
  remove_count_separators s = "".
Proof.
  induction s as [|c s IH]; [done|]. cbn. intros [Hc Hs]%Forall_cons.
  by rewrite Hc, IH.
Qed.

Lemma remove_count_separators_join (sep : string) (groups : list string) :
  Forall (λ c, is_count_separator c = true) (chars sep) →
  Forall (λ g, Forall (λ c, is_count_separator c = false) (chars g)) groups →
  remove_count_separators (join sep groups) = join "" groups.
Proof.
  intros Hsep. induction 1 as [|g groups Hg Hgroups IH]; [done|].
  destruct groups as [|g' groups]; [by apply remove_count_separators_plain|].
  change (remove_count_separators (g ++ sep ++ join sep (g' :: groups))
          = g ++ "" ++ join "" (g' :: groups)).
  rewrite !remove_count_separators_app, IH.
  by rewrite remove_count_separators_plain, remove_count_separators_all.
Qed.

(** X11. [listings_count] reads the number of the counter whatever its
    grouping: for a counter that shows groups of characters separated by
    [.] or [,] (or any run of the characters [.,()]) between parentheses,
    the count is [int] of the groups put together; and the characters
    [.,()] in a text never change what is read. *)
Theorem listings_count_grouping (sep : string) (groups : list string) :
  Forall (λ c, is_count_separator c = true) (chars sep) →
  Forall (λ g, Forall (λ c, is_count_separator c = false) (chars g)) groups →
  listings_count_of int_of_text (LabelWithCounter ("(" ++ join sep groups ++ ")"))
  = int_of_text (join "" groups)
  ∧ ∀ count_text,
      listings_count_of int_of_text (LabelWithCounter (remove_count_separators count_text))
      = listings_count_of int_of_text (LabelWithCounter count_text).
Proof.
  intros Hsep Hgroups. cbn [listings_count_of]. split.
  - rewrite !remove_count_separators_app, remove_count_separators_join by done.
    change (remove_count_separators "(") with "".
    change (remove_count_separators ")") with "".
    by rewrite append_empty.
  - intros count_text. f_equal. induction count_text as [|c s IH]; [done|].
    cbn [remove_count_separators]. destruct (is_count_separator c) eqn:Hc; [done|].
    cbn [remove_count_separators]. by rewrite Hc, IH.
Qed.

End listings_count.

Lemma listings_count_grouping_witness :
  listings_count_of py_int (LabelWithCounter "(1.234.567)") = Ok 1234567.
Proof.
  apply (proj1 (listings_count_grouping py_int "." ["1"; "234"; "567"]
                  ltac:(by repeat constructor) ltac:(by repeat constructor))).
Defined.

(** ** [MPDriver.get_soup] *)

(** X12. A document that [get_soup] returns shows no error text: it is
    the document of the iframe of the 403 page when the page holds one and
    the document of the page otherwise, and [__get_mp_err_text] finds
    nothing or an empty text in it.  [ForbiddenError] is raised only for
    an iframe and [MPError] only without one: when the page holds the
    iframe, the page itself is not looked at.  An alert paragraph goes
    before the message of an error page: a page whose first alert
    paragraph is empty is returned as it is, whatever its error page
    says. *)
Theorem get_soup_returns_clean (page : Driver.Soup)
    (forbidden_iframe : option Driver.Soup) :
  (∀ soup, Driver.get_soup page forbidden_iframe = Ok soup →
     soup = default page forbidden_iframe
     ∧ ∃ err_text, Driver.get_mp_err_text soup = Ok err_text
                   ∧ (err_text = None ∨ err_text = Some ""))
  ∧ (Driver.get_soup page forbidden_iframe = Raise ForbiddenError →
     is_Some forbidden_iframe)
  ∧ (Driver.get_soup page forbidden_iframe = Raise MPError →
     forbidden_iframe = None)
  ∧ (∀ frame other, Driver.get_soup page (Some frame)
                    = Driver.get_soup other (Some frame))
  ∧ (∀ alerts, Driver.err_msgs page = Some "" :: alerts →
               Driver.get_soup page None = Ok page).
Proof.
  assert (∀ t, Driver.is_error_text t = false → t = None ∨ t = Some "") as Hclean.
  { intros [[|c s]|]; cbn; [by right | done | by left]. }
  unfold Driver.get_soup. split_and!.
  - intros soup. destruct forbidden_iframe as [frame|]; cbn [default].
    + destruct (Driver.get_mp_err_text frame) as [t|e] eqn:Ht; [|done].
      destruct (Driver.is_error_text t) eqn:Herr; [done|].
      intros [= <-]. split; [done|]. exists t. split; [done | by apply Hclean].
    + destruct (Driver.get_mp_err_text page) as [t|e] eqn:Ht; [|done].
      destruct (Driver.is_error_text t) eqn:Herr; [done|].
      intros [= <-]. split; [done|]. exists t. split; [done | by apply Hclean].
  - destruct forbidden_iframe as [frame|]; [by eexists|].
    destruct (Driver.get_mp_err_text page) as [t|e] eqn:Ht.
    + by destruct (Driver.is_error_text t).
    + intros [= ->]. revert Ht. unfold Driver.get_mp_err_text.
      destruct (Driver.err_msgs page) as [|[?|] ?]; [|done..].
      by destruct (Driver.err_pages page) as [|[[?|]|] ?].
  - destruct forbidden_iframe as [frame|]; [|done].
    destruct (Driver.get_mp_err_text frame) as [t|e] eqn:Ht.
    + by destruct (Driver.is_error_text t) eqn:Herr.
    + intros [= ->]. revert Ht. unfold Driver.get_mp_err_text.
      destruct (Driver.err_msgs frame) as [|[?|] ?]; [|done..].
      by destruct (Driver.err_pages frame) as [|[[?|]|] ?].
  - done.
  - intros alerts Halert. unfold Driver.get_mp_err_text. by rewrite Halert.
Qed.

(** ** [get_args] *)

Section get_args.

Variable int_of_text : string → outcome Z.
Variable float_of_text : string → outcome float.

Lemma env_set_text (v : option string) (text : string) :
  v = Some text → text ≠ "" → env_set v = Some text.
Proof. intros -> Hne. by destruct text. Qed.

Lemma env_set_unset (v : option string) :
  v = None ∨ v = Some "" → env_set v = None.
Proof. by intros [-> | ->]. Qed.

(** X13. [get_args] puts the environment before the command line: a
    variable that is set to a text that is not empty gives the value
    ([int] or [float] of the text), and the flag counts only when the
    variable is unset or empty.  For [MP_HEADLESS] every text that is not
    empty, whatever it says, gives the headless mode.  The data directory
    and the two paths come from the command line alone.  A limit in the
    environment that [int] rejects makes [get_args] raise: the flag is no
    fallback. *)
Theorem get_args_environment (args : Namespace) (getenv : string → option string) :
  (∀ a, get_args int_of_text float_of_text args getenv = Ok a →
     (arg_data_dir a = ns_data_dir args
      ∧ arg_chromium_path a = ns_chromium_path args
      ∧ arg_chromedriver_path a = ns_driver_path args)
     ∧ (∀ text, getenv ENV_HEADLESS = Some text → text ≠ "" → arg_headless a = true)
     ∧ (getenv ENV_HEADLESS = None ∨ getenv ENV_HEADLESS = Some "" →
        arg_headless a = ns_headless args)
     ∧ (∀ text, getenv ENV_LIMIT = Some text → text ≠ "" →
                int_of_text text = Ok (arg_limit a))
     ∧ (getenv ENV_LIMIT = None ∨ getenv ENV_LIMIT = Some "" →
        arg_limit a = ns_limit args)
     ∧ (∀ text, getenv ENV_TIMEOUT_SECONDS = Some text → text ≠ "" →
                int_of_text text = Ok (arg_timeout_seconds a))
     ∧ (getenv ENV_TIMEOUT_SECONDS = None ∨ getenv ENV_TIMEOUT_SECONDS = Some "" →
        arg_timeout_seconds a = ns_timeout args)
     ∧ (∀ text, getenv ENV_WAIT_SECONDS = Some text → text ≠ "" →
                int_of_text text = Ok (arg_wait_seconds a))
     ∧ (getenv ENV_WAIT_SECONDS = None ∨ getenv ENV_WAIT_SECONDS = Some "" →
        arg_wait_seconds a = ns_wait_seconds args)
     ∧ (∀ text, getenv ENV_RECRAWL_HOURS = Some text → text ≠ "" →
                float_of_text text = Ok (arg_recrawl_hours a))
     ∧ (getenv ENV_RECRAWL_HOURS = None ∨ getenv ENV_RECRAWL_HOURS = Some "" →
        arg_recrawl_hours a = ns_recrawl_hours args))
  ∧ (∀ text e, getenv ENV_LIMIT = Some text → text ≠ "" →
               int_of_text text = Raise e →
               get_args int_of_text float_of_text args getenv = Raise e).
Proof.
  unfold get_args, env_int. split.
  - intros a.
    destruct (env_set (getenv ENV_LIMIT)) as [limit_text|] eqn:Hlimit;
    destruct (env_set (getenv ENV_HEADLESS)) as [headless_text|] eqn:Hheadless;
    destruct (env_set (getenv ENV_TIMEOUT_SECONDS)) as [timeout_text|] eqn:Htimeout;
    destruct (env_set (getenv ENV_RECRAWL_HOURS)) as [recrawl_text|] eqn:Hrecrawl;
    destruct (env_set (getenv ENV_WAIT_SECONDS)) as [wait_text|] eqn:Hwait;
    repeat match goal with
           | |- context [int_of_text ?t] =>
               let H := fresh "Hint" in
               destruct (int_of_text t) eqn:H; [|done]
           | |- context [float_of_text ?t] =>
               let H := fresh "Hfloat" in
               destruct (float_of_text t) eqn:H; [|done]
           end;
    intros [= <-]; cbn;
    (split_and!; [done..| | | | | | | | | |]);
    first [ intros text Hv Hne; apply (env_set_text _ _ Hv) in Hne; congruence
          | intros Hv%env_set_unset; congruence ].
  - intros text e Hv Hne Hint. by rewrite (env_set_text _ _ Hv Hne), Hint.
Qed.

End get_args.

Lemma get_args_environment_witness :
  ∃ a, get_args py_int Examples.no_float Examples.no_flags Examples.environment = Ok a
       ∧ arg_headless a = true ∧ arg_limit a = 5 ∧ arg_timeout_seconds a = 10.
Proof.
  destruct (get_args py_int Examples.no_float Examples.no_flags Examples.environment)
    as [a|e] eqn:Hargs; [|by vm_compute in Hargs].
  destruct (proj1 (get_args_environment py_int Examples.no_float Examples.no_flags
                     Examples.environment) a Hargs)
    as (_ & Hheadless & _ & Hlimit & _ & _ & Htimeout & _).
  exists a. split_and!; [done | | |].
  - by apply (Hheadless "false").
  - specialize (Hlimit "5" eq_refl ltac:(done)). by injection Hlimit.
  - apply Htimeout. by left.
Defined.

(** ** [get_listings]: what a call hands over *)

Lemma resolve_limit_le_count (limit listings_count : Z) :
  resolve_limit limit listings_count ≤ listings_count.
Proof.
  unfold resolve_limit.
  destruct (listings_count <? limit) eqn:H1; [cbn; lia|]. apply Z.ltb_ge in H1.
  destruct (limit =? 0); cbn; lia.
Qed.

Lemma resolve_limit_le_limit (limit listings_count : Z) :
  1 ≤ limit → resolve_limit limit listings_count ≤ limit.
Proof.
  intros Hpos. unfold resolve_limit.
  destruct (listings_count <? limit) eqn:H1; [apply Z.ltb_lt in H1; cbn; lia|].
  destruct (limit =? 0) eqn:H2; [apply Z.eqb_eq in H2; lia | cbn; lia].
Qed.

(** X14. The listings that a call returns, and as well those that a
    [ListingsError] or a [ListingsInterrupt] of the call carries, have
    pairwise distinct ids; none of the ids is empty, sponsored or among the
    ids the caller excluded; every listing is filed under the parent
    category of the call; and there are no more of them than the category
    counts, nor more than a limit of 1 or more. *)
Theorem get_listings_results_sound (retries fuel : nat) (site : Site)
    (parent_category : Category) (limit : Z) (existing_item_ids : option loc)
    (h h' : heap) (o : outcome (list Listing)) (listings_count : Z)
    (ls : list Listing) :
  site_listings_count site parent_category = Ok listings_count →
  get_listings retries fuel site parent_category limit existing_item_ids h
  = Some (o, h') →
  o = Ok ls ∨ o = Raise (ListingsError ls) ∨ o = Raise (ListingsInterrupt ls) →
  NoDup (map item_id ls)
  ∧ (∀ l, l ∈ ls →
       (item_id l ∉ excluded existing_item_ids h)
       ∧ item_id l ≠ "" ∧ sponsored (item_id l) = false
       ∧ parent_category_id l = cat_id parent_category)
  ∧ len ls ≤ Z.max 0 listings_count
  ∧ (1 ≤ limit → len ls ≤ limit).
Proof.
  intros Hcount. unfold get_listings.
  destruct (get_listings_run _ _ _ _ _ _ _) as [[o' st]|] eqn:Hrun; [|done].
  intros [= -> <-] Ho.
  apply get_listings_run_sound in Hrun as (_ & (Hnd & Hids & Hparent) & Hok & Hbounds).
  destruct (Hbounds _ Hcount) as (Hlen & _ & Hpartial).
  assert (ls = listings st) as ->.
  { destruct Ho as [-> | [-> | ->]]; [by apply Hok | done | done]. }
  pose proof (resolve_limit_le_count limit listings_count).
  split_and!; [done | | lia |].
  - intros l Hl. destruct (Hids (item_id l)) as (? & ? & ?).
    { apply list_elem_of_fmap. by exists l. }
    split_and!; [done..|]. by apply Hparent.
  - intros Hpos. pose proof (resolve_limit_le_limit limit listings_count Hpos). lia.
Qed.

Lemma get_listings_results_sound_witness :
  ∃ ls h', get_listings 1 5 Examples.site_two_pages Examples.computers 3
             (Some Examples.callers_set) Examples.callers_heap = Some (Ok ls, h')
           ∧ NoDup (map item_id ls) ∧ len ls ≤ 3.
Proof.
  destruct (get_listings 1 5 Examples.site_two_pages Examples.computers 3
              (Some Examples.callers_set) Examples.callers_heap)
    as [[[ls|e] h']|] eqn:Hrun; [|by vm_compute in Hrun..].
  exists ls, h'. split; [reflexivity|].
  destruct (get_listings_results_sound 1 5 Examples.site_two_pages Examples.computers 3
              (Some Examples.callers_set) Examples.callers_heap h' (Ok ls) 10 ls)
    as (Hnd & _ & _ & Hlen); [reflexivity | exact Hrun | by left |].
  split; [exact Hnd | by apply Hlen].
Defined.

(** ** [get_listings]: where a listing comes from *)

Section provenance.

Variables (site : Site) (parent_category : Category) (limit listings_count : Z).
Variables (item_ids : loc) (retries : nat).

(** A property of listings that holds of every listing made of an entry
    of a search page of the site and of the details the site served for
    the listing page of that entry. *)
Variable P : Listing → Prop.
Hypothesis P_made : ∀ r d now clk url rs clk',
  site_search site clk url = Ok rs → r ∈ rs →
  site_listing site clk' (MARTKPLAATS_BASE_URL ++ r_vipUrl r) = Ok d →
  P (make_listing parent_category r d now).

Local Abbreviation item := (for_res_listing site parent_category limit listings_count item_ids retries).
Local Abbreviation items := (for_res_listings site parent_category limit listings_count item_ids retries).
Local Abbreviation page := (try_page site parent_category limit listings_count item_ids retries).
Local Abbreviation pages := (while_pages site parent_category limit listings_count item_ids retries).
Local Abbreviation categories := (for_categories site parent_category limit listings_count item_ids retries).
Local Abbreviation served r := (∃ clk url rs, site_search site clk url = Ok rs ∧ r ∈ rs).

Lemma details_retry_read n url clk clk' d :
  get_listing_details_retry site n url clk = Some (clk', Ok d) →
  ∃ clk0, site_listing site clk0 url = Ok d.
Proof.
  revert clk. induction n as [|n IH]; intros clk; [done|]. cbn.
  destruct (site_listing site clk url) as [d'|e] eqn:Hread.
  - intros [= <- <-]. by exists clk.
  - destruct e; try done. apply IH.
Qed.

Lemma item_made cid r st st' oe :
  served r → Forall P (listings st) → item cid r st = Some (st', oe) →
  Forall P (listings st').
Proof.
  intros (clk & url & rs & Hsearch & Hr) HP. unfold for_res_listing.
  destruct (r_itemId r) as [|c s]; [by intros [= <- <-]|].
  destruct (Ascii.eqb c _); [by intros [= <- <-]|].
  destruct (set_contains _ _ _).
  { intros [= <- <-]. by destruct (limit =? listings_count). }
  destruct (negb _); [by intros [= <- <-]|].
  destruct (get_listing_details_retry _ _ _ _) as [[clk1 [d|e]]|] eqn:Hretry; [| |done].
  - intros [= <- <-]. cbn. apply Forall_app. split; [done|].
    apply Forall_singleton. apply details_retry_read in Hretry as [clk0 Hread].
    by eapply P_made.
  - by destruct (_ || _)%bool; intros [= <- <-].
Qed.

Lemma items_made cid rs st st' oe :
  Forall (λ r, served r) rs → Forall P (listings st) →
  items cid rs st = Some (st', oe) → Forall P (listings st').
Proof.
  intros Hrs. revert st. induction Hrs as [|r rs Hr Hrs IH]; intros st HP;
    cbn [for_res_listings]; [by intros [= <- <-]|].
  destruct (len (listings st) =? limit); [by intros [= <- <-]|].
  destruct (item cid r st) as [[st1 [e|]]|] eqn:Hitem; [| |done].
  - intros [= <- <-]. by eapply item_made.
  - apply IH. by eapply item_made.
Qed.

Lemma page_made c p st st' pe :
  Forall P (listings st) → page c p st = Some (st', pe) → Forall P (listings st').
Proof.
  intros HP. unfold try_page.
  destruct (get_url_with_options _ _) as [url|e]; [|by intros [= <- <-]].
  destruct (site_search _ _ _) as [[|r rs]|e] eqn:Hsearch; [by intros [= <- <-]| |by intros [= <- <-]].
  destruct (items _ _ _) as [[st1 oe]|] eqn:Hitems; [|done].
  apply items_made in Hitems; [|apply Forall_forall; intros r' Hr'; by eexists _, _, _|done].
  by destruct oe; intros [= <- <-].
Qed.

Lemma pages_made fuel c p st st' oe :
  Forall P (listings st) → pages fuel c p st = Some (st', oe) → Forall P (listings st').
Proof.
  revert p st. induction fuel as [|fuel IH]; intros p st HP; [done|].
  cbn [while_pages]. destruct (len (listings st) <? max_listings st); [|by intros [= <- <-]].
  destruct (page c p st) as [[st1 pe]|] eqn:Hpage; [|done].
  apply page_made in Hpage; [|done].
  destruct pe as [| |e]; [by apply IH | by intros [= <- <-] |].
  destruct (handle_page_exception _ e); [by apply IH | by intros [= <- <-]].
Qed.

Lemma categories_made fuel cs st st' oe :
  Forall P (listings st) → categories fuel cs st = Some (st', oe) →
  Forall P (listings st').
Proof.
  revert st. induction cs as [|c cs IH]; intros st HP; cbn [for_categories];
    [by intros [= <- <-]|].
  destruct (pages fuel c 1 st) as [[st1 [e|]]|] eqn:Hpages; [| |done].
  - intros [= <- <-]. by eapply pages_made.
  - apply IH. by eapply pages_made.
Qed.

End provenance.

Lemma get_listings_run_made (P : Listing → Prop) (retries fuel : nat) (site : Site)
    (parent_category : Category) (limit : Z) (existing_item_ids : option loc)
    (h : heap) (o : outcome (list Listing)) (st : State) :
  (∀ r d now clk url rs clk',
     site_search site clk url = Ok rs → r ∈ rs →
     site_listing site clk' (MARTKPLAATS_BASE_URL ++ r_vipUrl r) = Ok d →
     P (make_listing parent_category r d now)) →
  get_listings_run retries fuel site parent_category limit existing_item_ids h
  = Some (o, st) →
  Forall P (listings st).
Proof.
  intros HP. unfold get_listings_run.
  destruct (match existing_item_ids with Some l => set_copy l h | None => set_alloc ∅ h end)
    as [own h1].
  destruct (site_listings_count site parent_category) as [count|e];
    [|by intros [= <- <-]].
  destruct (site_subcategories site parent_category) as [subs|e].
  2:{ by destruct (isinstance_Exception e); intros [= <- <-]. }
  destruct (for_categories _ _ _ _ _ _ _ _ _) as [[st' oe]|] eqn:Hcrawl; [|done].
  apply (categories_made _ _ _ _ _ _ P HP) in Hcrawl; [|by constructor].
  by destruct oe; intros [= <- <-].
Qed.

(** X15. A call invents nothing: every listing that it returns, or that
    a [ListingsError] or a [ListingsInterrupt] of the call carries, is made
    of an entry that the site served on a search page and of the details
    that the site served for the listing page of that entry.  So its id,
    category and address are those of the entry (the address behind the
    base address), and its title and description are normalised:
    [format_text] leaves them as they are. *)
Theorem get_listings_listing_made (retries fuel : nat) (site : Site)
    (parent_category : Category) (limit : Z) (existing_item_ids : option loc)
    (h h' : heap) (o : outcome (list Listing)) (listings_count : Z)
    (ls : list Listing) (l : Listing) :
  site_listings_count site parent_category = Ok listings_count →
  get_listings retries fuel site parent_category limit existing_item_ids h
  = Some (o, h') →
  o = Ok ls ∨ o = Raise (ListingsError ls) ∨ o = Raise (ListingsInterrupt ls) →
  l ∈ ls →
  (∃ r d now clk url rs clk',
     site_search site clk url = Ok rs ∧ r ∈ rs
     ∧ site_listing site clk' (MARTKPLAATS_BASE_URL ++ r_vipUrl r) = Ok d
     ∧ l = make_listing parent_category r d now
     ∧ item_id l = r_itemId r ∧ child_category_id l = r_categoryId r
     ∧ listing_url l = MARTKPLAATS_BASE_URL ++ r_vipUrl r)
  ∧ format_text (title l) = title l
  ∧ format_text (description l) = description l.
Proof.
  intros Hcount. unfold get_listings.
  destruct (get_listings_run _ _ _ _ _ _ _) as [[o' st]|] eqn:Hrun; [|done].
  intros [= -> <-] Ho Hl.
  assert (ls = listings st) as ->.
  { apply get_listings_run_sound in Hrun as (_ & _ & Hok & Hbounds).
    destruct (Hbounds _ Hcount) as (_ & _ & Hpartial).
    destruct Ho as [-> | [-> | ->]]; [by apply Hok | done | done]. }
  eapply (get_listings_run_made
            (λ l, (∃ r d now clk url rs clk',
                     site_search site clk url = Ok rs ∧ r ∈ rs
                     ∧ site_listing site clk' (MARTKPLAATS_BASE_URL ++ r_vipUrl r) = Ok d
                     ∧ l = make_listing parent_category r d now
                     ∧ item_id l = r_itemId r ∧ child_category_id l = r_categoryId r
                     ∧ listing_url l = MARTKPLAATS_BASE_URL ++ r_vipUrl r)
                  ∧ format_text (title l) = title l
                  ∧ format_text (description l) = description l)) in Hrun.
  - by apply (proj1 (Forall_forall _ _) Hrun).
  - intros r d now clk url rs clk' Hsearch Hr Hread. split_and!.
    + by exists r, d, now, clk, url, rs, clk'.
    + cbn [make_listing title]. unfold format_text.
      rewrite split_ws_join; [done|]. apply split_ws_words. constructor.
    + cbn [make_listing description]. unfold format_text.
      rewrite split_ws_join; [done|]. apply split_ws_words. constructor.
Qed.

Lemma get_listings_listing_made_witness :
  ∃ ls h' l, get_listings 1 5 Examples.site_two_pages Examples.computers 3
               (Some Examples.callers_set) Examples.callers_heap = Some (Ok ls, h')
             ∧ l ∈ ls ∧ title l = "Laptop m1" ∧ format_text (title l) = title l.
Proof.
  destruct (get_listings 1 5 Examples.site_two_pages Examples.computers 3
              (Some Examples.callers_set) Examples.callers_heap)
    as [[[ls|e] h']|] eqn:Hrun; [|by vm_compute in Hrun..].
  destruct ls as [|l ls]; [by vm_compute in Hrun|].
  exists (l :: ls), h', l. split; [reflexivity|].
  destruct (get_listings_listing_made 1 5 Examples.site_two_pages Examples.computers 3
              (Some Examples.callers_set) Examples.callers_heap h' (Ok (l :: ls)) 10
              (l :: ls) l)
    as (_ & Htitle & _); [reflexivity | exact Hrun | by left | by left |].
  split_and!; [by left | | exact Htitle].
  revert Hrun. vm_compute. by intros [= <- _ _].
Defined.

(** ** [get_listings]: nothing wanted *)

Lemma categories_enough (site : Site) (parent_category : Category)
    (limit listings_count : Z) (item_ids : loc) (retries fuel : nat)
    (cs : list Category) (st : State) :
  max_listings st ≤ len (listings st) →
  for_categories site parent_category limit listings_count item_ids retries
                 (S fuel) cs st = Some (st, None).
Proof.
  intros Hge%Z.ltb_ge. induction cs as [|c cs IH]; [done|].
  cbn [for_categories while_pages]. by rewrite Hge.
Qed.

(** X16. A negative limit is not read as no limit.  When
    [listings_count] returns the count (line 308; what it raises comes out
    of the call as it is), a call with a negative limit, or for a category
    that counts no listing, loads no search page and no listing page and
    accumulates nothing: it returns the empty list when
    [__get_subcategories] returns, and when [__get_subcategories] raises,
    it raises [ListingsError] with the empty list for an [Exception], and
    the exception itself otherwise. *)
Theorem get_listings_nothing_wanted (retries fuel : nat) (site : Site)
    (parent_category : Category) (limit : Z) (existing_item_ids : option loc)
    (h : heap) (listings_count : Z) :
  site_listings_count site parent_category = Ok listings_count →
  limit < 0 ∨ listings_count ≤ 0 →
  ∃ st, get_listings_run retries (S fuel) site parent_category limit
                         existing_item_ids h
        = Some (match site_subcategories site parent_category with
                | Ok _ => Ok []
                | Raise e => Raise (if isinstance_Exception e then ListingsError [] else e)
                end, st)
        ∧ listings st = [] ∧ clock st = 0%nat
        ∧ heap_of st !! own_item_ids h = Some (excluded existing_item_ids h).
Proof.
  intros Hcount Hnone.
  assert (resolve_limit limit listings_count ≤ 0) as Hle.
  { pose proof (resolve_limit_le_count limit listings_count).
    destruct Hnone as [Hneg|?]; [|lia]. unfold resolve_limit.
    destruct (listings_count <? limit) eqn:H1; [apply Z.ltb_lt in H1; cbn; lia|].
    destruct (limit =? 0) eqn:H2; [apply Z.eqb_eq in H2; lia | cbn; lia]. }
  exists (initial_state (resolve_limit limit listings_count) existing_item_ids h).
  split; [|split_and!; [done | done | cbn; by rewrite lookup_insert_eq]].
  destruct (site_subcategories site parent_category) as [subs|e] eqn:Hsubs.
  - rewrite (get_listings_run_crawl _ _ _ _ _ _ _ _ _ Hcount Hsubs).
    by rewrite categories_enough by (unfold len; cbn; lia).
  - unfold get_listings_run. rewrite own_set_allocated, Hcount, Hsubs.
    by destruct (isinstance_Exception e).
Qed.

Lemma get_listings_nothing_wanted_witness :
  ∃ st, get_listings_run 1 1 Examples.site_two_pages Examples.computers (-1) None ∅
        = Some (Ok [], st) ∧ clock st = 0%nat.
Proof.
  destruct (get_listings_nothing_wanted 1 0 Examples.site_two_pages Examples.computers
              (-1) None ∅ 10) as (st & Hrun & _ & Hclock & _);
    [reflexivity | by left |].
  by exists st.
Defined.

(** ** [get_listings]: exceptions of a page *)

Section page_faults.

Variables (site : Site) (parent_category : Category) (limit listings_count : Z).
Variables (item_ids : loc) (retries : nat).

Local Abbreviation page := (try_page site parent_category limit listings_count item_ids retries).
Local Abbreviation pages := (while_pages site parent_category limit listings_count item_ids retries).
Local Abbreviation categories := (for_categories site parent_category limit listings_count item_ids retries).
Local Abbreviation reaches := (crawl_reaches site parent_category limit listings_count item_ids retries).
Local Abbreviation rest_of := (resume site parent_category limit listings_count item_ids retries).

(** What is raised for an exception that is not retried. *)
Lemma handle_page_exception_raised acc e :
  handle_page_exception acc e ≠ Retry →
  handle_page_exception acc e
  = Reraise match e with
            | KeyboardInterrupt => ListingsInterrupt acc
            | WebDriverException _ => e
            | _ => ListingsError acc
            end.
Proof.
  destruct e; cbn; try done. destruct msg as [m|]; [|done].
  by destruct (_ && _)%bool.
Qed.

Lemma page_raises_rest_of c cs p st st' e e' :
  len (listings st) < max_listings st →
  page c p st = Some (st', PageRaise e) →
  handle_page_exception (listings st') e = Reraise e' →
  rest_of 1 (c :: cs) p st = Some (st', Some e').
Proof.
  intros Hlt%Z.ltb_lt Hpage Hh. cbn [resume while_pages].
  by rewrite Hlt, Hpage, Hh.
Qed.

(** The crawl has one course: its result is the result of the rest of the
    crawl from any point it reaches. *)
Lemma reaches_determines cats0 st0 cs p st :
  reaches cats0 st0 cs p st →
  ∀ fuel R, categories fuel cats0 st0 = Some R → rest_of fuel cs p st = Some R.
Proof.
  induction 1 as [|c cs p st st' Hr IH Hlt Hpage|c cs p st st' e Hr IH Hlt Hpage Hh
                  |c cs p st st' Hr IH Hlt Hpage|c cs p st Hr IH Hge]; intros fuel R HR.
  - by destruct cats0.
  - specialize (IH fuel R HR). apply Z.ltb_lt in Hlt.
    destruct fuel as [|fuel]; [done|]. cbn [resume while_pages] in IH.
    rewrite Hlt, Hpage in IH. cbn [resume].
    destruct (pages fuel c (p + 1) st') as [R1|] eqn:Hp; [|done].
    by rewrite (pages_mono _ _ _ _ _ _ _ _ _ _ _ _ Hp (Nat.le_succ_diag_r fuel)).
  - specialize (IH fuel R HR). apply Z.ltb_lt in Hlt.
    destruct fuel as [|fuel]; [done|]. cbn [resume while_pages] in IH.
    rewrite Hlt, Hpage, Hh in IH. cbn [resume].
    destruct (pages fuel c p st') as [R1|] eqn:Hp; [|done].
    by rewrite (pages_mono _ _ _ _ _ _ _ _ _ _ _ _ Hp (Nat.le_succ_diag_r fuel)).
  - specialize (IH fuel R HR). apply Z.ltb_lt in Hlt.
    destruct fuel as [|fuel]; [done|]. cbn [resume while_pages] in IH.
    rewrite Hlt, Hpage in IH. by destruct cs.
  - specialize (IH fuel R HR). apply Z.ltb_ge in Hge.
    destruct fuel as [|fuel]; [done|]. cbn [resume while_pages] in IH.
    rewrite Hge in IH. by destruct cs.
Qed.

(** A page that raises, at every moment, an exception that is retried. *)
Lemma pages_retry_forever c p url st :
  get_url_with_options (cat_url c) p = Ok url →
  (∀ clk, (clock st ≤ clk)%nat →
          ∃ e, site_search site clk url = Raise e
               ∧ ∀ acc, handle_page_exception acc e = Retry) →
  len (listings st) < max_listings st →
  ∀ fuel, pages fuel c p st = None.
Proof.
  intros Hurl Hfault Hlt fuel. revert st Hfault Hlt.
  induction fuel as [|fuel IH]; intros st Hfault Hlt; [done|].
  cbn [while_pages]. rewrite (proj2 (Z.ltb_lt _ _) Hlt).
  unfold try_page. rewrite Hurl.
  destruct (Hfault (clock st)) as (e & -> & Hretry); [lia|].
  rewrite Hretry. apply IH; [|done].
  intros clk Hclk. apply Hfault. cbn in Hclk. lia.
Qed.

End page_faults.

(** X17. An exception of a page that the loop does not retry ends the
    call at once.  When the crawl comes to load a page and the loading, the
    parsing or an entry of the page raises an exception other than those
    that are retried, the call raises [ListingsInterrupt] with the listings
    accumulated so far for a [KeyboardInterrupt], the exception itself for
    a [WebDriverException] (the listings accumulated are then lost to the
    caller), and [ListingsError] with the listings accumulated so far for
    anything else. *)
Theorem page_exception_ends_call (site : Site) (parent_category : Category)
    (limit : Z) (existing_item_ids : option loc) (h : heap) (retries : nat)
    (listings_count : Z) (subs : list Category) (c : Category) (cs : list Category)
    (p : Z) (st st' : State) (e : exn) :
  site_listings_count site parent_category = Ok listings_count →
  site_subcategories site parent_category = Ok subs →
  let resolved := resolve_limit limit listings_count in
  let own := own_item_ids h in
  crawl_reaches site parent_category resolved listings_count own retries
                (targets parent_category subs)
                (initial_state resolved existing_item_ids h) (c :: cs) p st →
  len (listings st) < max_listings st →
  try_page site parent_category resolved listings_count own retries c p st
  = Some (st', PageRaise e) →
  handle_page_exception (listings st') e ≠ Retry →
  ∃ fuel0, ∀ fuel, (fuel0 ≤ fuel)%nat →
    get_listings_run retries fuel site parent_category limit existing_item_ids h
    = Some (Raise match e with
                  | KeyboardInterrupt => ListingsInterrupt (listings st')
                  | WebDriverException _ => e
                  | _ => ListingsError (listings st')
                  end, st').
Proof.
  intros Hcount Hsubs resolved own Hreach Hlt Hpage Hh.
  apply handle_page_exception_raised in Hh.
  pose proof (page_raises_rest_of site parent_category resolved listings_count own
                retries c cs p st st' e _ Hlt Hpage Hh) as Hrest.
  destruct (reaches_rest_of _ _ _ _ _ _ _ _ _ _ _ Hreach _ _ Hrest) as [fuel0 Hfuel].
  exists fuel0. intros fuel Hle.
  rewrite (get_listings_run_crawl _ _ _ _ _ _ _ _ _ Hcount Hsubs).
  fold resolved own. by rewrite (Hfuel fuel Hle).
Qed.

Lemma page_exception_ends_call_witness :
  ∃ fuel0 st, ∀ fuel, (fuel0 ≤ fuel)%nat →
    get_listings_run 1 fuel (Examples.failing_site KeyboardInterrupt)
                     Examples.computers 2 None ∅
    = Some (Raise (ListingsInterrupt []), st).
Proof.
  destruct (page_exception_ends_call (Examples.failing_site KeyboardInterrupt)
              Examples.computers 2 None ∅ 1 10 [] Examples.computers [] 1
              (initial_state 2 None ∅) (tick (initial_state 2 None ∅))
              KeyboardInterrupt) as [fuel0 Hrun].
  - reflexivity.
  - reflexivity.
  - apply reach_start.
  - reflexivity.
  - reflexivity.
  - discriminate.
  - by exists fuel0, (tick (initial_state 2 None ∅)).
Defined.

(** X18. The loop over the pages has no bound on its retries: when the
    crawl comes to a page that raises, at every moment from then on, an
    exception that is retried (the rate limit, an error page of the site,
    a missing element, a timeout, a lost connection), the call loads that
    page again and again and never comes to an end, neither returning nor
    raising. *)
Theorem persistent_fault_never_returns (site : Site) (parent_category : Category)
    (limit : Z) (existing_item_ids : option loc) (h : heap) (retries : nat)
    (listings_count : Z) (subs : list Category) (c : Category) (cs : list Category)
    (p : Z) (st : State) (url : string) :
  site_listings_count site parent_category = Ok listings_count →
  site_subcategories site parent_category = Ok subs →
  let resolved := resolve_limit limit listings_count in
  let own := own_item_ids h in
  crawl_reaches site parent_category resolved listings_count own retries
                (targets parent_category subs)
                (initial_state resolved existing_item_ids h) (c :: cs) p st →
  len (listings st) < max_listings st →
  get_url_with_options (cat_url c) p = Ok url →
  (∀ clk, (clock st ≤ clk)%nat →
          ∃ e, site_search site clk url = Raise e
               ∧ ∀ acc, handle_page_exception acc e = Retry) →
  ∀ fuel, get_listings_run retries fuel site parent_category limit
                           existing_item_ids h = None.
Proof.
  intros Hcount Hsubs resolved own Hreach Hlt Hurl Hfault fuel.
  rewrite (get_listings_run_crawl _ _ _ _ _ _ _ _ _ Hcount Hsubs).
  fold resolved own.
  destruct (for_categories _ _ _ _ _ _ _ _ _) as [R|] eqn:Hcrawl; [|done].
  apply (reaches_determines _ _ _ _ _ _ _ _ _ _ _ Hreach) in Hcrawl.
  cbn [resume] in Hcrawl.
  by rewrite (pages_retry_forever _ _ _ _ _ _ _ _ _ _ Hurl Hfault Hlt) in Hcrawl.
Qed.

Lemma persistent_fault_never_returns_witness :
  site_search (Examples.failing_site MPError) 0 Examples.first_page = Raise MPError
  ∧ ∀ fuel, get_listings_run 1 fuel (Examples.failing_site MPError)
                             Examples.computers 2 None ∅ = None.
Proof.
  split; [reflexivity|].
  apply (persistent_fault_never_returns (Examples.failing_site MPError)
           Examples.computers 2 None ∅ 1 10 [] Examples.computers [] 1
           (initial_state 2 None ∅) Examples.first_page).
  - reflexivity.
  - reflexivity.
  - apply reach_start.
  - reflexivity.
  - reflexivity.
  - intros clk _. by exists MPError.
Defined.

(** ** The retries of a listing page *)

(** X19. The fetch of the details of a listing waits out the rate limit:
    when the site answers [k] loads of the listing page with
    [ForbiddenError] and the next one with something else, the loop makes
    exactly [k + 1] loads and ends with that answer, be it the details or
    another exception; the answer does not depend on a bound on the
    retries above [k]. *)
Theorem get_listing_details_retry_waits (site : Site) (listing_url : string)
    (clock k : nat) (r : outcome ListingDetails) :
  (∀ i, (i < k)%nat → site_listing site (clock + i) listing_url = Raise ForbiddenError) →
  site_listing site (clock + k) listing_url = r →
  r ≠ Raise ForbiddenError →
  ∀ n, get_listing_details_retry site n listing_url clock
       = if (k <? n)%nat then Some ((clock + k + 1)%nat, r) else None.
Proof.
  revert clock. induction k as [|k IH]; intros clock Hwait Hr Hne n.
  - rewrite Nat.add_0_r in Hr. destruct n as [|n]; [done|].
    cbn. rewrite Hr. replace (clock + 0 + 1)%nat with (S clock) by lia.
    destruct r as [d|e]; [done|]. by destruct e.
  - destruct n as [|n]; [done|]. cbn [get_listing_details_retry].
    pose proof (Hwait 0%nat ltac:(lia)) as H0. rewrite Nat.add_0_r in H0. rewrite H0.
    rewrite (IH (S clock)); [| |by replace (S clock + k)%nat with (clock + S k)%nat by lia|done].
    + replace (S clock + k + 1)%nat with (clock + S k + 1)%nat by lia.
      by replace (S k <? S n)%nat with (k <? n)%nat.
    + intros i Hi. replace (S clock + i)%nat with (clock + S i)%nat by lia.
      apply Hwait. lia.
Qed.

Lemma get_listing_details_retry_waits_witness :
  get_listing_details_retry (Examples.site_rate_limited 2) 5
                            (Examples.listing_page "m1") 0
  = Some (3%nat, Ok Examples.details).
Proof.
  apply (get_listing_details_retry_waits (Examples.site_rate_limited 2)
           (Examples.listing_page "m1") 0 2 (Ok Examples.details)).
  - intros i Hi. cbn. by destruct i as [|[|i]]; [| |lia].
  - reflexivity.
  - discriminate.
Defined.

(** ** The loop of [main] over the parent categories *)

Lemma main_crawl_stop (retries fuel : nat) (sites : nat → Site) (k : nat)
    (parent_categories : list Category) (remaining_limit : Z) (item_ids : loc)
    (h : heap) (listings_df : DataFrame) :
  main_crawl retries fuel sites k parent_categories remaining_limit true item_ids h
             listings_df
  = Some (Ok listings_df, h).
Proof. by destruct parent_categories. Qed.

(** The listings a call hands over are within a limit of 1 or more. *)
Lemma get_listings_within_limit (retries fuel : nat) (site : Site)
    (parent_category : Category) (limit : Z) (existing_item_ids : option loc)
    (h h' : heap) (o : outcome (list Listing)) (ls : list Listing) :
  (∀ ls', site_listings_count site parent_category ≠ Raise (ListingsError ls')
          ∧ site_listings_count site parent_category ≠ Raise (ListingsInterrupt ls')) →
  1 ≤ limit →
  get_listings retries fuel site parent_category limit existing_item_ids h
  = Some (o, h') →
  o = Ok ls ∨ o = Raise (ListingsError ls) ∨ o = Raise (ListingsInterrupt ls) →
  len ls ≤ limit.
Proof.
  intros Hraise Hpos. unfold get_listings.
  destruct (get_listings_run _ _ _ _ _ _ _) as [[o' st]|] eqn:Hrun; [|done].
  intros [= -> <-] Ho.
  destruct (site_listings_count site parent_category) as [count|e] eqn:Hcount.
  - apply get_listings_run_sound in Hrun as (_ & _ & Hok & Hbounds).
    destruct (Hbounds _ Hcount) as (Hlen & _ & Hpartial).
    pose proof (resolve_limit_le_limit limit count Hpos).
    assert (ls = listings st) as ->; [|lia].
    destruct Ho as [-> | [-> | ->]]; [by apply Hok | done | done].
  - revert Hrun. unfold get_listings_run.
    destruct (match existing_item_ids with Some l => set_copy l h | None => set_alloc ∅ h end)
      as [own h1].
    rewrite Hcount. intros [= <- <-].
    destruct Ho as [? | [[= ->] | [= ->]]]; [done | |]; by destruct (Hraise ls).
Qed.

(** X20. With a limit of 1 or more the loop of [main] adds at most that
    many rows to the frame, over all the parent categories together, and
    it adds them behind the rows of the file, which stay as they are. *)
Theorem main_crawl_within_limit (retries fuel : nat) (sites : nat → Site)
    (parent_categories : list Category) (k : nat) (remaining_limit : Z)
    (item_ids : loc) (h h' : heap) (listings_df df : DataFrame) :
  (∀ k c ls, site_listings_count (sites k) c ≠ Raise (ListingsError ls)
             ∧ site_listings_count (sites k) c ≠ Raise (ListingsInterrupt ls)) →
  1 ≤ remaining_limit →
  main_crawl retries fuel sites k parent_categories remaining_limit false item_ids h
             listings_df
  = Some (Ok df, h') →
  ∃ new, df = (listings_df ++ new)%list ∧ len new ≤ remaining_limit.
Proof.
  intros Hraise. revert k remaining_limit h listings_df.
  induction parent_categories as [|c rest IH]; intros k remaining_limit h listings_df Hpos.
  { intros [= <- <-]. exists []. rewrite app_nil_r. unfold len. cbn. split; [done | lia]. }
  cbn [main_crawl].
  destruct (get_listings _ _ _ _ _ _ _) as [[[ls|e] h1]|] eqn:Hcall; [| |done].
  - pose proof (get_listings_within_limit _ _ _ _ _ _ _ _ _ ls
                  (λ ls', Hraise k c ls') Hpos Hcall (or_introl eq_refl)) as Hlen.
    destruct (remaining_limit - len ls <? 1) eqn:Hstop.
    + rewrite main_crawl_stop. intros [= <- <-]. by exists ls.
    + apply Z.ltb_ge in Hstop. intros Hrest.
      apply IH in Hrest as (new & -> & Hnew); [|done].
      exists (ls ++ new)%list. rewrite app_assoc. split; [done|].
      unfold len in *. rewrite length_app. lia.
  - destruct e; try done; rewrite main_crawl_stop; intros [= <- <-];
      lazymatch type of Hcall with
      | _ = Some (Raise (ListingsError ?ls), _) =>
          exists ls; split; [done|];
          by apply (get_listings_within_limit _ _ _ _ _ _ _ _ _ ls
                      (λ ls', Hraise k c ls') Hpos Hcall), or_intror, or_introl
      | _ = Some (Raise (ListingsInterrupt ?ls), _) =>
          exists ls; split; [done|];
          by apply (get_listings_within_limit _ _ _ _ _ _ _ _ _ ls
                      (λ ls', Hraise k c ls') Hpos Hcall), or_intror, or_intror
      | _ => exists []; rewrite app_nil_r; unfold len; cbn; split; [done | lia]
      end.
Qed.

Lemma main_crawl_within_limit_witness :
  ∃ df h', main_crawl 1 5 (λ _, Examples.site_two_pages) 0
             [Examples.computers; (91, "https://marktplaats.nl/l/auto-s")] 2 false
             Examples.callers_set Examples.callers_heap [] = Some (Ok df, h')
           ∧ len df ≤ 2.
Proof.
  destruct (main_crawl 1 5 (λ _, Examples.site_two_pages) 0
              [Examples.computers; (91, "https://marktplaats.nl/l/auto-s")] 2 false
              Examples.callers_set Examples.callers_heap [])
    as [[[df|e] h']|] eqn:Hrun; [|by vm_compute in Hrun..].
  exists df, h'. split; [reflexivity|].
  destruct (main_crawl_within_limit 1 5 (λ _, Examples.site_two_pages)
              [Examples.computers; (91, "https://marktplaats.nl/l/auto-s")] 0 2
              Examples.callers_set Examples.callers_heap h' [] df)
    as (new & -> & Hlen); [by intros | lia | exact Hrun |].
  exact Hlen.
Defined.

(** X21. With a limit below 1, and so with the limit 0 that stands for
    no limit and is the default, the loop of [main] crawls the first
    parent category only: whatever the first call gives, the loop stops
    after it, and the other parent categories change nothing. *)
Theorem main_crawl_first_category_only (retries fuel : nat) (sites : nat → Site)
    (k : nat) (parent_category : Category) (rest : list Category)
    (remaining_limit : Z) (item_ids : loc) (h : heap) (listings_df : DataFrame) :
  remaining_limit < 1 →
  main_crawl retries fuel sites k (parent_category :: rest) remaining_limit false
             item_ids h listings_df
  = main_crawl retries fuel sites k [parent_category] remaining_limit false
               item_ids h listings_df.
Proof.
  intros Hlimit. cbn [main_crawl].
  destruct (get_listings _ _ _ _ _ _ _) as [[[ls|e] h1]|]; [| |done].
  - assert ((remaining_limit - len ls <? 1) = true) as ->.
    { apply Z.ltb_lt. unfold len. lia. }
    by rewrite main_crawl_stop.
  - destruct e; try done; by rewrite main_crawl_stop.
Qed.

Lemma main_crawl_first_category_only_witness :
  main_crawl 1 5 (λ _, Examples.site_two_pages) 0
    [Examples.computers; (91, "https://marktplaats.nl/l/auto-s")] 0 false
    Examples.callers_set Examples.callers_heap []
  = main_crawl 1 5 (λ _, Examples.site_two_pages) 0 [Examples.computers] 0 false
      Examples.callers_set Examples.callers_heap [].
Proof.
  apply (main_crawl_first_category_only 1 5 (λ _, Examples.site_two_pages) 0
           Examples.computers [(91, "https://marktplaats.nl/l/auto-s")] 0
           Examples.callers_set Examples.callers_heap []).
  lia.
Defined.

(** X22. The loop of [main] never writes to the set of ids it passes
    to every call: whatever the loop does, the set holds afterwards what
    it held before.  So every call excludes the ids of the file only, not
    the ids crawled earlier in the loop, and the frame can hold an id
    twice after the loop: it does when two parent categories list an
    entry with the same id. *)
Theorem main_crawl_keeps_item_ids :
  (∀ (retries fuel : nat) (sites : nat → Site) (parent_categories : list Category)
     (k : nat) (remaining_limit : Z) (stop : bool) (item_ids : loc) (h h' : heap)
     (listings_df : DataFrame) (o : outcome DataFrame),
     is_Some (h !! item_ids) →
     main_crawl retries fuel sites k parent_categories remaining_limit stop item_ids h
                listings_df
     = Some (o, h') →
     h' !! item_ids = h !! item_ids)
  ∧ (∃ (retries fuel : nat) (sites : nat → Site) (parent_categories : list Category)
       (remaining_limit : Z) (item_ids : loc) (h h' : heap) (df : DataFrame),
       is_Some (h !! item_ids)
       ∧ main_crawl retries fuel sites 0 parent_categories remaining_limit false
                    item_ids h []
         = Some (Ok df, h')
       ∧ ¬ NoDup (map item_id df)).
Proof.
  split.
  - intros retries fuel sites parent_categories.
    induction parent_categories as [|c rest IH];
      intros k remaining_limit stop item_ids h h' listings_df o Hset; cbn [main_crawl].
    { by intros [= <- <-]. }
    destruct stop; [by intros [= <- <-]|].
    destruct (get_listings _ _ _ _ _ _ _) as [[r h1]|] eqn:Hcall; [|done].
    assert (h1 !! item_ids = h !! item_ids) as Hkeep.
    { revert Hcall. unfold get_listings.
      destruct (get_listings_run _ _ _ _ _ _ _) as [[o' st]|] eqn:Hrun; [|done].
      intros [= <- <-]. apply get_listings_run_sound in Hrun as (Hframe & _).
      by apply Hframe, own_item_ids_fresh. }
    assert (is_Some (h1 !! item_ids)) as Hset1 by (by rewrite Hkeep).
    destruct r as [ls|e].
    + intros Hrest. apply IH in Hrest; [|done]. by rewrite Hrest.
    + destruct e; try (by intros [= <- <-]);
        intros Hrest; apply IH in Hrest; try done; by rewrite Hrest.
  - destruct (main_crawl 1 5 (λ _, Examples.site_listed_twice) 0
                [Examples.computers; Examples.autos] 5 false
                Examples.callers_set Examples.callers_heap [])
      as [[[df|e] h']|] eqn:Hrun; [|by vm_compute in Hrun..].
    exists 1%nat, 5%nat, (λ _, Examples.site_listed_twice),
      [Examples.computers; Examples.autos], 5, Examples.callers_set,
      Examples.callers_heap, h', df.
    split_and!; [by exists {[ "m2" ]} | exact Hrun |].
    revert Hrun. vm_compute. intros [= <- _] [Hin _]%NoDup_cons. apply Hin. by left.
Qed.

Lemma main_crawl_keeps_item_ids_witness :
  ∃ df h', main_crawl 1 5 (λ _, Examples.site_listed_twice) 0
             [Examples.computers; Examples.autos] 5 false
             Examples.callers_set Examples.callers_heap [] = Some (Ok df, h')
           ∧ map item_id df = ["m1"; "m1"]
           ∧ h' !! Examples.callers_set = Some {[ "m2" ]}.
Proof.
  destruct (main_crawl 1 5 (λ _, Examples.site_listed_twice) 0
              [Examples.computers; Examples.autos] 5 false
              Examples.callers_set Examples.callers_heap [])
    as [[[df|e] h']|] eqn:Hrun; [|by vm_compute in Hrun..].
  exists df, h'. split_and!; [reflexivity | |].
  - revert Hrun. vm_compute. by intros [= <- _].
  - rewrite (proj1 main_crawl_keeps_item_ids 1%nat 5%nat
               (λ _, Examples.site_listed_twice) [Examples.computers; Examples.autos]
               0%nat 5 false Examples.callers_set Examples.callers_heap h' [] (Ok df));
      [reflexivity | by exists {[ "m2" ]} | exact Hrun].
Defined.
